(** * Token-based authentication: [lib/jwt] and the login token payload

    A shallow embedding of the token service of the account-management
    application ([generateToken], [generateTokenSecure],
    [generateRefreshToken], [verifyToken], [verifyTokenSecure]), of its
    request interceptor ([authMiddleware]) and role gate ([requireRole]),
    and of the payload the login route signs.

    The module is written against the [jsonwebtoken] package (version 9).
    Its [sign] and [verify] are embedded here step by step; the two
    primitives they rest on, the base64url/JSON codec of a token segment and
    the HMAC tag, are the fields of the class [Jose] together with the
    facts about them that the proofs use.

    Conventions: the clock is passed explicitly as a number of seconds;
    a promise is the result it settles to ([Ok] when it resolves, [Err]
    when it rejects); a string is a sequence of one-byte characters;
    numeric claims are integers; a secret is a plain string, not a key in
    PEM form. *)

From Stdlib Require Import ZArith String Ascii List Lia.
From stdpp Require Import base option strings gmap countable list.

Local Open Scope string_scope.

(** ** JavaScript values, strings and errors *)

Module JS.

(** A JSON value stored under a claim: [null], a boolean, an integral
    number, a string or an array.  A claim that is [undefined] is a key
    that the object does not have. *)
#[warnings="-register-all"]
Inductive jsval : Type :=
  | JNull
  | JBool (b : bool)
  | JNum (n : Z)
  | JStr (s : string)
  | JArr (l : list jsval).

Abbreviation jsobj := (gmap string jsval).

(** [!v] is [negb (truthy v)]. *)
Definition truthy (v : option jsval) : bool :=
  match v with
  | None | Some JNull => false
  | Some (JBool b) => b
  | Some (JNum n) => negb (n =? 0)%Z
  | Some (JStr s) => negb (s =? "")
  | Some (JArr _) => true
  end.

(** [s.startsWith(pre)] *)
Definition startsWith (s pre : string) : bool := String.prefix pre s.

(** [s.substring(n)] *)
Fixpoint substring_from (n : nat) (s : string) : string :=
  match n, s with
  | O, _ => s
  | S n', String _ t => substring_from n' t
  | S _, EmptyString => EmptyString
  end.

(** [hay.includes(needle)] *)
Fixpoint includes (hay needle : string) : bool :=
  String.prefix needle hay
  || match hay with
     | EmptyString => false
     | String _ t => includes t needle
     end.

(** [s.split(c)] for a one-character separator. *)
Fixpoint split (c : ascii) (s : string) : list string :=
  match s with
  | EmptyString => [EmptyString]
  | String a t =>
      if Ascii.eqb a c then EmptyString :: split c t
      else match split c t with
           | [] => [String a EmptyString]
           | w :: ws => String a w :: ws
           end
  end.

(** [l.join(sep)] *)
Definition join (sep : string) (l : list string) : string := String.concat sep l.

(** [l.includes(x)] on an array of strings; a value that is not a string
    is never found. *)
Definition array_includes (l : list string) (v : option jsval) : bool :=
  match v with
  | Some (JStr s) => existsb (String.eqb s) l
  | _ => false
  end.

Definition is_space (a : ascii) : bool :=
  let n := nat_of_ascii a in
  (n =? 32)%nat || ((9 <=? n)%nat && (n <=? 13)%nat).

Fixpoint forallb_string (p : ascii → bool) (s : string) : bool :=
  match s with
  | EmptyString => true
  | String a t => p a && forallb_string p t
  end.

(** [s.trim() === ''] *)
Definition blank (s : string) : bool := forallb_string is_space s.

Definition dq : string := String (ascii_of_nat 34) EmptyString.

Inductive error_name :=
  | PlainError | TypeError | SyntaxError
  | JsonWebTokenError | TokenExpiredError | NotBeforeError.

Record js_error := mkError { name : error_name; message : string }.

(** A value that a [catch] clause receives: an [Error] instance or
    anything else that was thrown. *)
Inductive thrown :=
  | ThrownError (e : js_error)
  | ThrownValue.

Inductive result (E A : Type) : Type :=
  | Ok (a : A)
  | Err (e : E).
Arguments Ok {E A} a.
Arguments Err {E A} e.

End JS.
Export JS.

(** ** The [jsonwebtoken] package *)

Module jsonwebtoken.

Inductive hs_alg := HS256 | HS384 | HS512.

Definition alg_name (a : hs_alg) : string :=
  match a with HS256 => "HS256" | HS384 => "HS384" | HS512 => "HS512" end.

Definition hs_alg_eqb (a b : hs_alg) : bool :=
  match a, b with
  | HS256, HS256 | HS384, HS384 | HS512, HS512 => true
  | _, _ => false
  end.

(** The value of [header.alg], when it names an HMAC algorithm. *)
Definition hs_alg_of (v : option jsval) : option hs_alg :=
  match v with
  | Some (JStr s) =>
      if s =? "HS256" then Some HS256
      else if s =? "HS384" then Some HS384
      else if s =? "HS512" then Some HS512
      else None
  | _ => None
  end.

(** What [decode] yields for the payload segment: a JSON object, [null],
    or something none of whose claims is defined (a string, a number, a
    boolean, an array). *)
Inductive payload :=
  | PObject (o : jsobj)
  | PNull
  | POpaque.

Definition claim (p : payload) (k : string) : option jsval :=
  match p with
  | PObject o => o !! k
  | _ => None
  end.

Definition b64url_char (a : ascii) : bool :=
  let n := nat_of_ascii a in
  ((65 <=? n)%nat && (n <=? 90)%nat)
  || ((97 <=? n)%nat && (n <=? 122)%nat)
  || ((48 <=? n)%nat && (n <=? 57)%nat)
  || (n =? 45)%nat || (n =? 95)%nat.

Definition is_b64url (s : string) : bool := forallb_string b64url_char s.

(** The primitives under [jws]: the codec of a segment and the HMAC tag.

    - [b64json o] is [base64url(JSON.stringify(o))];
    - [header_of seg] is what [jws] reads as the header of a token whose
      first segment is [seg]: [None] when the segment does not parse or
      parses to a falsy value, an object without keys when it parses to
      another value that is not an object;
    - [payload_of jwt seg] is the payload [decode] returns for the second
      segment, [jwt] telling whether the header has [typ: 'JWT'];
      [Err msg] when [JSON.parse] throws a [SyntaxError] with that
      message;
    - [hmac a key input] is the base64url HMAC-SHA tag of [input].

    The laws say that an encoded object decodes to itself, that segments
    are written in the base64url alphabet, and that a tag has at least the
    43 characters of a SHA-256 digest. *)
Class Jose := {
  b64json : jsobj → string;
  header_of : string → option jsobj;
  payload_of : bool → string → result string payload;
  hmac : hs_alg → string → string → string;
  header_of_b64json : ∀ o, header_of (b64json o) = Some o;
  payload_of_b64json : ∀ jwt o, payload_of jwt (b64json o) = Ok (PObject o);
  b64json_alphabet : ∀ o, is_b64url (b64json o) = true;
  b64json_nonempty : ∀ o, b64json o ≠ "";
  hmac_alphabet : ∀ a k m, is_b64url (hmac a k m) = true;
  hmac_length : ∀ a k m, (43 ≤ String.length (hmac a k m))%nat
}.

(** *** [ms] and [timespan] *)

Definition digit_of (a : ascii) : option Z :=
  let n := nat_of_ascii a in
  if ((48 <=? n)%nat && (n <=? 57)%nat)%bool then Some (Z.of_nat n - 48)%Z else None.

(** Milliseconds in one unit, for the one-letter units. *)
Definition unit_ms (u : string) : option Z :=
  if u =? "s" then Some 1000%Z
  else if u =? "m" then Some 60000%Z
  else if u =? "h" then Some 3600000%Z
  else if u =? "d" then Some 86400000%Z
  else if u =? "w" then Some 604800000%Z
  else None.

Fixpoint ms_from (acc : Z) (s : string) : option Z :=
  match s with
  | EmptyString => Some acc
  | String a t =>
      match digit_of a with
      | Some d => ms_from (10 * acc + d)%Z t
      | None => (λ u, acc * u)%Z <$> unit_ms s
      end
  end.

(** [ms(str)] for a decimal count, alone (milliseconds) or followed by a
    one-letter unit, the form of every time span in the module. *)
Definition ms (s : string) : option Z :=
  match s with
  | EmptyString => None
  | String a _ => match digit_of a with Some _ => ms_from 0 s | None => None end
  end.

(** [timespan(time, iat)] for a string [time]. *)
Definition timespan (time : string) (iat : Z) : option Z :=
  (λ milliseconds, iat + milliseconds / 1000)%Z <$> ms time.

(** *** [sign] *)

Record SignOptions := {
  expiresIn : option string;
  algorithm : option hs_alg;
  sign_issuer : option string;
  sign_audience : option string
}.

Definition is_number (v : option jsval) : bool :=
  match v with Some (JNum _) => true | _ => false end.

Definition defined (v : option jsval) : bool :=
  match v with Some _ => true | None => false end.

Definition plain (msg : string) : js_error := mkError PlainError msg.

(** [validatePayload]: [iat], [exp] and [nbf] are numbers when present.
    (When several are not, the package reports the first in the key order
    of the object; the embedding reports them in this fixed order.) *)
Definition validatePayload (payload : jsobj) : option js_error :=
  let bad k := defined (payload !! k) && negb (is_number (payload !! k)) in
  let msg k := plain (dq ++ k ++ dq ++ " should be a number of seconds") in
  if bad "iat" then Some (msg "iat")
  else if bad "exp" then Some (msg "exp")
  else if bad "nbf" then Some (msg "nbf")
  else None.

(** [payload[claim] = value] for an option that is given; an error when
    the payload has the claim already. *)
Definition option_to_payload (key claim_name : string) (value : option string)
    (payload : jsobj) : result js_error jsobj :=
  match value with
  | None => Ok payload
  | Some v =>
      if defined (payload !! claim_name)
      then Err (plain ("Bad " ++ dq ++ "options." ++ key ++ dq
                       ++ " option. The payload already has an " ++ dq
                       ++ claim_name ++ dq ++ " property."))
      else Ok (<[claim_name := JStr v]> payload)
  end.

Section sign.
Context `{Jose}.

(** [jws.sign({header, payload, secret})] *)
Definition jws_sign (header payload : jsobj) (a : hs_alg) (secret : string) : string :=
  let securedInput := b64json header ++ "." ++ b64json payload in
  securedInput ++ "." ++ hmac a secret securedInput.

(** [jwt.sign(payload, secretOrPrivateKey, options)] for an object payload
    and a secret that is a string (and not a key in PEM form), at clock
    time [now] (seconds).  The callback form reports the same error or
    token. *)
Definition sign (payload : jsobj) (secretOrPrivateKey : string)
    (options : SignOptions) (now : Z) : result js_error string :=
  let alg := default HS256 (algorithm options) in
  let header : jsobj := {[ "alg" := JStr (alg_name alg); "typ" := JStr "JWT" ]} in
  if secretOrPrivateKey =? "" then Err (plain "secretOrPrivateKey must have a value")
  else match validatePayload payload with
  | Some e => Err e
  | None =>
    if defined (payload !! "exp") && bool_decide (is_Some (expiresIn options))
    then Err (plain ("Bad " ++ dq ++ "options.expiresIn" ++ dq
                     ++ " option the payload already has an " ++ dq ++ "exp"
                     ++ dq ++ " property."))
    else
      let timestamp :=
        match payload !! "iat" with
        | Some (JNum n) => if (n =? 0)%Z then now else n
        | _ => now
        end in
      let payload := <["iat" := JNum timestamp]> payload in
      let with_exp :=
        match expiresIn options with
        | None => Ok payload
        | Some time =>
            match timespan time timestamp with
            | Some e => Ok (<["exp" := JNum e]> payload)
            | None => Err (plain (dq ++ "expiresIn" ++ dq
                ++ " should be a number of seconds or string representing a timespan eg: "
                ++ dq ++ "1d" ++ dq ++ ", " ++ dq ++ "20h" ++ dq ++ ", 60"))
            end
        end in
      match with_exp with
      | Err e => Err e
      | Ok payload =>
        match option_to_payload "audience" "aud" (sign_audience options) payload with
        | Err e => Err e
        | Ok payload =>
          match option_to_payload "issuer" "iss" (sign_issuer options) payload with
          | Err e => Err e
          | Ok payload => Ok (jws_sign header payload alg secretOrPrivateKey)
          end
        end
      end
  end.

End sign.

(** *** [decode] and [verify] *)

Record VerifyOptions := {
  algorithms : option (list hs_alg);
  issuer : option string;
  audience : option string;
  clockTolerance : option Z
}.

Definition HS_ALGS : list hs_alg := [HS256; HS384; HS512].

Definition jwt_error (msg : string) : js_error := mkError JsonWebTokenError msg.

Definition nonempty (s : string) : bool := negb (s =? "").

(** [JWS_REGEX.test] on a string that [split('.')] cut into the three
    given parts. *)
Definition JWS_REGEX_test (p0 p1 p2 : string) : bool :=
  nonempty p0 && is_b64url p0 && nonempty p1 && is_b64url p1 && is_b64url p2.

(** Does a claim that may be a string or an array of strings contain [x]? *)
Definition audience_matches (x : string) (aud : option jsval) : bool :=
  match aud with
  | Some (JStr s) => s =? x
  | Some (JArr l) =>
      existsb (λ v, match v with JStr s => s =? x | _ => false end) l
  | _ => false
  end.

Section verify.
Context `{Jose}.

(** [decode(jwtString, {complete: true})] restricted to header and
    payload: [Ok None] is [null], [Err] a [SyntaxError] from the payload. *)
Definition decode (p0 p1 p2 : string) : result js_error (option (jsobj * payload)) :=
  if negb (JWS_REGEX_test p0 p1 p2) then Ok None
  else match header_of p0 with
  | None => Ok None
  | Some header =>
      let jwt := match header !! "typ" with Some (JStr t) => t =? "JWT" | _ => false end in
      match payload_of jwt p1 with
      | Err msg => Err (mkError SyntaxError msg)
      | Ok p => Ok (Some (header, p))
      end
  end.

(** [jwt.decode(token)]: the payload, without any check of the signature;
    [None] is [null] or a [SyntaxError]. *)
Definition jwt_decode (token : string) : option payload :=
  match split "." token with
  | [p0; p1; p2] =>
      match decode p0 p1 p2 with
      | Ok (Some (_, p)) => Some p
      | _ => None
      end
  | _ => None
  end.

(** The claim checks of [verify], after the signature has been accepted. *)
Definition verify_claims (p : payload) (options : VerifyOptions)
    (clockTimestamp : Z) : result js_error payload :=
  let tolerance := default 0%Z (clockTolerance options) in
  match p with
  | PNull => Err (mkError TypeError "Cannot read properties of null (reading 'nbf')")
  | _ =>
    let check_nbf :=
      match claim p "nbf" with
      | None => None
      | Some (JNum nbf) =>
          if (clockTimestamp + tolerance <? nbf)%Z
          then Some (mkError NotBeforeError "jwt not active") else None
      | Some _ => Some (jwt_error "invalid nbf value")
      end in
    let check_exp :=
      match claim p "exp" with
      | None => None
      | Some (JNum exp) =>
          if (exp + tolerance <=? clockTimestamp)%Z
          then Some (mkError TokenExpiredError "jwt expired") else None
      | Some _ => Some (jwt_error "invalid exp value")
      end in
    let check_aud :=
      match audience options with
      | Some a =>
          if nonempty a && negb (audience_matches a (claim p "aud"))
          then Some (jwt_error ("jwt audience invalid. expected: " ++ a)) else None
      | None => None
      end in
    let check_iss :=
      match issuer options with
      | Some i =>
          if nonempty i
             && negb (match claim p "iss" with Some (JStr s) => s =? i | _ => false end)
          then Some (jwt_error ("jwt issuer invalid. expected: " ++ i)) else None
      | None => None
      end in
    match check_nbf, check_exp, check_aud, check_iss with
    | Some e, _, _, _ => Err e
    | None, Some e, _, _ => Err e
    | None, None, Some e, _ => Err e
    | None, None, None, Some e => Err e
    | None, None, None, None => Ok p
    end
  end.

(** [jwt.verify(jwtString, secretOrPublicKey, options)] for a secret that
    is a string (and not a key in PEM form), at clock time
    [clockTimestamp]: the error thrown (or handed to the callback) or the
    decoded payload.  Without [options.algorithms] a secret stands for
    [HS_ALGS]. *)
Definition verify (jwtString secretOrPublicKey : string)
    (options : VerifyOptions) (clockTimestamp : Z) : result js_error payload :=
  if jwtString =? "" then Err (jwt_error "jwt must be provided")
  else match split "." jwtString with
  | [p0; p1; p2] =>
    match decode p0 p1 p2 with
    | Err e => Err e
    | Ok None => Err (jwt_error "invalid token")
    | Ok (Some (header, p)) =>
      let hasSignature := negb (blank p2) in
      if negb hasSignature && nonempty secretOrPublicKey
      then Err (jwt_error "jwt signature is required")
      else if hasSignature && negb (nonempty secretOrPublicKey)
      then Err (jwt_error "secret or public key must be provided")
      else if negb hasSignature && negb (bool_decide (is_Some (algorithms options)))
      then Err (jwt_error ("please specify " ++ dq ++ "none" ++ dq ++ " in " ++ dq
                           ++ "algorithms" ++ dq ++ " to verify unsigned tokens"))
      else
        let allowed := default HS_ALGS (algorithms options) in
        match hs_alg_of (header !! "alg") with
        | None => Err (jwt_error "invalid algorithm")
        | Some a =>
          if negb (existsb (hs_alg_eqb a) allowed)
          then Err (jwt_error "invalid algorithm")
          else if negb (p2 =? hmac a secretOrPublicKey (p0 ++ "." ++ p1))
          then Err (jwt_error "invalid signature")
          else verify_claims p options clockTimestamp
        end
    end
  | _ => Err (jwt_error "jwt malformed")
  end.

(** *** Notions used to state the properties *)

(** A token cut by [split] into parts that carry a tag of [secret] under
    an algorithm of [allowed], and whose payload segment decodes to [p]. *)
Definition validly_signed (secret : string) (allowed : list hs_alg)
    (token : string) (p : payload) : Prop :=
  ∃ p0 p1 p2 header a,
    split "." token = [p0; p1; p2]
    ∧ JWS_REGEX_test p0 p1 p2 = true
    ∧ header_of p0 = Some header
    ∧ payload_of (match header !! "typ" with Some (JStr t) => t =? "JWT" | _ => false end) p1
      = Ok p
    ∧ hs_alg_of (header !! "alg") = Some a
    ∧ existsb (hs_alg_eqb a) allowed = true
    ∧ p2 = hmac a secret (p0 ++ "." ++ p1).

Definition jwt_header (a : hs_alg) : jsobj :=
  {[ "alg" := JStr (alg_name a); "typ" := JStr "JWT" ]}.

End verify.

End jsonwebtoken.

(** ** [lib/jwt]: the token service, the interceptor and the role gate *)

Module Jwt.
Import jsonwebtoken.

(** *** The secrets, fixed when the module is loaded *)

(** [process.env], as far as the module reads it. *)
Record process_env := {
  env_JWT_SECRET : option string;
  env_NODE_ENV : option string
}.

(** The module-level constants. *)
Record constants := {
  JWT_SECRET : string;
  VALIDATED_JWT_SECRET : string
}.

Definition fallback_secret : string := "super-secret-key-for-workshop-demo-only".

(** [process.env.JWT_SECRET || "super-secret-key-for-workshop-demo-only"] *)
Definition init_JWT_SECRET (env : process_env) : string :=
  match env_JWT_SECRET env with
  | Some s => if s =? "" then fallback_secret else s
  | None => fallback_secret
  end.

Definition validateJWTSecret (env : process_env) : result js_error string :=
  match env_JWT_SECRET env with
  | None => Err (plain "JWT_SECRET environment variable is required for security")
  | Some secret =>
      if secret =? ""
      then Err (plain "JWT_SECRET environment variable is required for security")
      else if (String.length secret <? 32)%nat
      then Err (plain "JWT_SECRET must be at least 32 characters long for security")
      else Ok secret
  end.

(** Loading the module: the two constants, or the error that the
    top-level call of [validateJWTSecret] throws. *)
Definition load (env : process_env) : result js_error constants :=
  let secret := init_JWT_SECRET env in
  if match env_NODE_ENV env with Some mode => mode =? "test" | None => false end
  then Ok {| JWT_SECRET := secret; VALIDATED_JWT_SECRET := secret |}
  else match validateJWTSecret env with
       | Ok validated => Ok {| JWT_SECRET := secret; VALIDATED_JWT_SECRET := validated |}
       | Err e => Err e
       end.

(** *** Requests, responses and handlers *)

Inductive body :=
  | JSON_stringify (o : list (string * string))
  | Text (s : string).

Record Response := {
  status : Z;
  response_headers : gmap string string;
  response_body : body
}.

(** A request: its headers (under lower-case names), the rest of it, and
    the [user] that [Object.assign(request, { user })] attaches. *)
Record Request := {
  headers : gmap string string;
  url : string;
  request_body : string;
  user : option payload
}.

Definition assign_user (request : Request) (u : payload) : Request :=
  {| headers := headers request; url := url request;
     request_body := request_body request; user := Some u |}.

Inductive outcome :=
  | Returns (r : Response)
  | Throws (t : thrown).

Definition AuthenticatedHandler := Request → outcome.

(** The calls an interceptor makes, in order. *)
Inductive event :=
  | VerifyCall (token : string)
  | HandlerCall (request : Request).

(** The input of [generateTokenSecure]: [Omit<JWTPayload, 'iat' | 'exp'>]. *)
Record JWTPayload := {
  userId : string;
  email : string;
  role : option string
}.

Definition object_of (payload : JWTPayload) : jsobj :=
  let o : jsobj := {[ "userId" := JStr (userId payload); "email" := JStr (email payload) ]} in
  match role payload with
  | Some r => <["role" := JStr r]> o
  | None => o
  end.

Definition secure_sign_options (expires : string) : SignOptions :=
  {| expiresIn := Some expires; algorithm := Some HS256;
     sign_issuer := Some "your-app-name"; sign_audience := Some "your-app-users" |}.

Definition secure_verify_options : VerifyOptions :=
  {| algorithms := Some [HS256]; issuer := Some "your-app-name";
     audience := Some "your-app-users"; clockTolerance := Some 30%Z |}.

Definition legacy_verify_options : VerifyOptions :=
  {| algorithms := None; issuer := None; audience := None; clockTolerance := None |}.

(** The 401 responses of the interceptor. *)
Definition unauthorized (error message : string) : Response :=
  {| status := 401;
     response_headers :=
       {[ "Content-Type" := "application/json"; "WWW-Authenticate" := "Bearer" ]};
     response_body := JSON_stringify [("error", error); ("message", message)] |}.

(** The [catch] clause of the interceptor. *)
Definition on_error (t : thrown) : Response :=
  match t with
  | ThrownError error =>
      if includes (message error) "expired"
      then unauthorized "Token expired" "Please refresh your token and try again"
      else if includes (message error) "Invalid token"
      then unauthorized "Invalid token" "Token verification failed"
      else unauthorized "Authentication failed" "Unable to authenticate request"
  | ThrownValue => unauthorized "Authentication failed" "Unable to authenticate request"
  end.

Definition forbidden (roles : list string) : Response :=
  {| status := 403;
     response_headers := {[ "Content-Type" := "application/json" ]};
     response_body :=
       JSON_stringify [("error", "Insufficient permissions");
                       ("message", "Access denied. Required roles: " ++ join ", " roles)] |}.

Section service.
Context `{Jose}.
Variable m : constants.

(** The payload is an object; [jwt.sign] with [expiresIn] refuses every
    payload that is not. *)
Definition generateToken (payload : jsobj) (now : Z) : result js_error string :=
  sign payload (JWT_SECRET m)
       {| expiresIn := Some "24h"; algorithm := None;
          sign_issuer := None; sign_audience := None |} now.

Definition generateTokenSecure (payload : JWTPayload) (now : Z) : result js_error string :=
  if (userId payload =? "") || (email payload =? "")
  then Err (plain "Token generation error: Invalid payload: userId and email are required")
  else match sign (object_of payload) (VALIDATED_JWT_SECRET m) (secure_sign_options "15m") now with
       | Err error => Err (plain ("JWT generation failed: " ++ message error))
       | Ok token => Ok token
       end.

(** The argument is [payload.userId]. *)
Definition generateRefreshToken (userId : string) (now : Z) : result js_error string :=
  if userId =? ""
  then Err (plain
    "Refresh token generation error: Invalid payload: userId is required for refresh token")
  else match sign {[ "userId" := JStr userId; "type" := JStr "refresh" ]}
                  (VALIDATED_JWT_SECRET m) (secure_sign_options "7d") now with
       | Err error => Err (plain ("Refresh token generation failed: " ++ message error))
       | Ok token => Ok token
       end.

Definition verifyToken (token : string) (now : Z) : result js_error payload :=
  verify token (JWT_SECRET m) legacy_verify_options now.

(** A [TypeError] is thrown inside the promise executor, so the promise
    rejects with it as it is; the other errors of [jwt.verify] reach the
    callback. *)
Definition verifyTokenSecure (token : string) (now : Z) : result js_error payload :=
  if token =? ""
  then Err (plain "Token verification error: Invalid token: token must be a non-empty string")
  else if (String.length token <? 10)%nat
  then Err (plain "Token verification error: Invalid token: token too short")
  else match verify token (VALIDATED_JWT_SECRET m) secure_verify_options now with
       | Err error =>
           match name error with
           | TypeError => Err error
           | TokenExpiredError => Err (plain "Token has expired")
           | JsonWebTokenError => Err (plain "Invalid token format")
           | NotBeforeError => Err (plain "Token not active yet")
           | _ => Err (plain ("Token verification failed: " ++ message error))
           end
       | Ok decoded =>
           if negb (truthy (claim decoded "userId")) || negb (truthy (claim decoded "email"))
           then Err (plain "Invalid token payload: missing required fields")
           else Ok decoded
       end.

Definition authMiddleware (handler : AuthenticatedHandler) (request : Request)
    (now : Z) : list event * outcome :=
  match headers request !! "authorization" with
  | None =>
      ([], Returns (unauthorized "Authentication required" "Authorization header is missing"))
  | Some authHeader =>
      if authHeader =? ""
      then ([], Returns (unauthorized "Authentication required"
                                      "Authorization header is missing"))
      else if negb (startsWith authHeader "Bearer ")
      then ([], Returns (unauthorized "Invalid authentication format"
                                      "Authorization header must start with 'Bearer '"))
      else
        let token := substring_from 7 authHeader in
        if (token =? "") || (String.length token <? 10)%nat
        then ([], Returns (unauthorized "Invalid token" "Token is malformed or too short"))
        else match verifyTokenSecure token now with
             | Err error => ([VerifyCall token], Returns (on_error (ThrownError error)))
             | Ok user =>
                 let authenticatedRequest := assign_user request user in
                 ([VerifyCall token; HandlerCall authenticatedRequest],
                  match handler authenticatedRequest with
                  | Returns response => Returns response
                  | Throws error => Returns (on_error error)
                  end)
             end
  end.

(** The handler that [requireRole(roles)] hands to [authMiddleware]. *)
Definition roleMiddleware_handler (roles : list string) (handler : AuthenticatedHandler)
    : AuthenticatedHandler :=
  λ request,
    match user request with
    | None => Throws (ThrownError (mkError TypeError
                "Cannot read properties of undefined (reading 'role')"))
    | Some u =>
        if negb (truthy (claim u "role")) || negb (array_includes roles (claim u "role"))
        then Returns (forbidden roles)
        else handler request
    end.

Definition requireRole (roles : list string) (handler : AuthenticatedHandler)
    : Request → Z → list event * outcome :=
  authMiddleware (roleMiddleware_handler roles handler).

End service.

(** *** Notions used to state the properties *)

Section notions.
Context `{Jose}.

(** The claims of a token of [generateTokenSecure] or
    [generateRefreshToken], minted at [now] with a life of [ttl] seconds. *)
Definition secure_claims (o : jsobj) (now ttl : Z) : jsobj :=
  <["iss" := JStr "your-app-name"]>
    (<["aud" := JStr "your-app-users"]>
      (<["exp" := JNum (now + ttl)]> (<["iat" := JNum now]> o))).

(** The claims of a token of [generateToken] whose clock reading is [iat]. *)
Definition legacy_claims (o : jsobj) (iat : Z) : jsobj :=
  <["exp" := JNum (iat + 86400)]> (<["iat" := JNum iat]> o).

(** The two verification paths. *)
Inductive path := Legacy | Secure.






End notions.

End Jwt.

(** ** The login route: the payload it signs *)

Module Login.

(** [{ userId: user.user_id, role: userDetails.role }]; a role that is
    [undefined] leaves no key. *)
Definition tokenPayload (user_id : jsval) (role : option jsval) : jsobj :=
  let o : jsobj := {[ "userId" := user_id ]} in
  match role with
  | Some r => <["role" := r]> o
  | None => o
  end.

End Login.

(** ** Facts about the string operations *)

Section string_facts.

Lemma b64url_char_not_dot a : jsonwebtoken.b64url_char a = true → Ascii.eqb a "." = false.
Proof. destruct a as [[] [] [] [] [] [] [] []]; vm_compute; intros E; try reflexivity; discriminate E. Qed.

Lemma b64url_char_not_space a : jsonwebtoken.b64url_char a = true → is_space a = false.
Proof. destruct a as [[] [] [] [] [] [] [] []]; vm_compute; intros E; try reflexivity; discriminate E. Qed.

Lemma split_b64url s :
  jsonwebtoken.is_b64url s = true → split "." s = [s].
Proof.
  induction s as [|a s IH]; simpl; [done|].
  intros [Ha Hs]%andb_prop.
  rewrite (b64url_char_not_dot _ Ha), (IH Hs). done.
Qed.

Lemma split_b64url_dot s t :
  jsonwebtoken.is_b64url s = true → split "." (s ++ String "." t) = s :: split "." t.
Proof.
  induction s as [|a s IH]; simpl; [done|].
  intros [Ha Hs]%andb_prop.
  rewrite (b64url_char_not_dot _ Ha), (IH Hs). done.
Qed.

Lemma split_three a b c :
  jsonwebtoken.is_b64url a = true → jsonwebtoken.is_b64url b = true →
  jsonwebtoken.is_b64url c = true →
  split "." (a ++ "." ++ b ++ "." ++ c) = [a; b; c].
Proof.
  intros Ha Hb Hc.
  change (a ++ "." ++ b ++ "." ++ c) with (a ++ String "." (b ++ String "." c)).
  by rewrite !split_b64url_dot, split_b64url.
Qed.

Lemma blank_b64url s :
  jsonwebtoken.is_b64url s = true → s ≠ "" → blank s = false.
Proof.
  destruct s as [|a s]; [done|]. simpl.
  intros [Ha _]%andb_prop _. unfold blank. simpl.
  by rewrite (b64url_char_not_space _ Ha).
Qed.

Lemma length_append (s t : string) :
  String.length (s ++ t) = (String.length s + String.length t)%nat.
Proof. induction s as [|a s IH]; simpl; [done|]. by rewrite IH. Qed.

Lemma forallb_string_append p (s t : string) :
  forallb_string p (s ++ t) = forallb_string p s && forallb_string p t.
Proof.
  induction s as [|a s IH]; [done|].
  change (p a && forallb_string p (s ++ t) = p a && forallb_string p s && forallb_string p t).
  by rewrite IH, andb_assoc.
Qed.

Lemma prefix_append (pre s : string) : String.prefix pre (pre ++ s) = true.
Proof.
  induction pre as [|a pre IH]; simpl; [by destruct s|].
  destruct (ascii_dec a a); [done|congruence].
Qed.

Lemma prefix_split (pre s : string) :
  String.prefix pre s = true → s = pre ++ substring_from (String.length pre) s.
Proof.
  revert s. induction pre as [|a pre IH]; intros s; simpl; [by destruct s|].
  destruct s as [|b s]; simpl; [done|].
  destruct (ascii_dec a b) as [->|]; [|done].
  intros Hp.
  change (String b s = String b (pre ++ substring_from (String.length pre) s)).
  f_equal. by apply IH.
Qed.

End string_facts.

(** ** A reference instance of the primitives

    An instance of [Jose] that can be run: a segment is the binary
    numeral, written with the letters [A], [B] and [C], of the code that
    the countable encoding assigns to the object, and a tag is a run of
    padding followed by the numeral of a checksum of algorithm, key and
    input.  It shows that the laws of [Jose] can be met together and gives
    the examples something to run on; it has no cryptographic strength. *)

Module Reference.
Import jsonwebtoken.

Fixpoint jsval_to_tree (v : jsval) : gen_tree (bool + Z + string) :=
  match v with
  | JNull => GenNode 0 []
  | JBool b => GenLeaf (inl (inl b))
  | JNum n => GenLeaf (inl (inr n))
  | JStr s => GenLeaf (inr s)
  | JArr l => GenNode 1 (map jsval_to_tree l)
  end.

Fixpoint tree_to_jsval (t : gen_tree (bool + Z + string)) : jsval :=
  match t with
  | GenLeaf (inl (inl b)) => JBool b
  | GenLeaf (inl (inr n)) => JNum n
  | GenLeaf (inr s) => JStr s
  | GenNode 0 _ => JNull
  | GenNode _ l => JArr (map tree_to_jsval l)
  end.

Lemma tree_to_jsval_to_tree : ∀ v, tree_to_jsval (jsval_to_tree v) = v.
Proof.
  fix IH 1. intros [| | | |l]; simpl; try done.
  f_equal. induction l as [|x l IHl]; simpl; [done|]. by rewrite IH, IHl.
Qed.

#[global] Instance jsval_eq_dec : EqDecision jsval.
Proof.
  intros x y. destruct (decide (jsval_to_tree x = jsval_to_tree y)) as [E|N].
  - left. by rewrite <- (tree_to_jsval_to_tree x), <- (tree_to_jsval_to_tree y), E.
  - right. by intros ->.
Defined.

#[global] Instance jsval_countable : Countable jsval :=
  inj_countable' jsval_to_tree tree_to_jsval tree_to_jsval_to_tree.

Fixpoint numeral (p : positive) : string :=
  match p with
  | xH => "C"
  | xO q => String "A" (numeral q)
  | xI q => String "B" (numeral q)
  end.

Fixpoint of_numeral (s : string) : option positive :=
  match s with
  | EmptyString => None
  | String a t =>
      if Ascii.eqb a "C" then (match t with EmptyString => Some xH | _ => None end)
      else if Ascii.eqb a "A" then xO <$> of_numeral t
      else if Ascii.eqb a "B" then xI <$> of_numeral t
      else None
  end.

Definition object_of_segment (seg : string) : option jsobj :=
  of_numeral seg ≫= countable.decode.

Definition padding : string := "AAAAAAAAAAAAAAAAAAAAAAAAAAAAAAAAAAAAAAAAAA".

(** A 32-bit checksum of a string. *)
Fixpoint checksum (acc : N) (s : string) : N :=
  match s with
  | EmptyString => acc
  | String a t => checksum ((acc * 31 + N_of_ascii a) mod 4294967296)%N t
  end.

Definition tag (a : hs_alg) (key input : string) : string :=
  padding ++ numeral (N.succ_pos (checksum 0 (alg_name a ++ ":" ++ key ++ ":" ++ input))).

Lemma of_numeral_numeral p : of_numeral (numeral p) = Some p.
Proof. induction p as [p IH|p IH|]; simpl; [by rewrite IH..|done]. Qed.

Lemma numeral_alphabet p : is_b64url (numeral p) = true.
Proof.
  unfold is_b64url.
  induction p as [p IH|p IH|]; simpl forallb_string; [by rewrite IH..|done].
Qed.

Lemma numeral_nonempty p : numeral p ≠ "".
Proof. by destruct p. Qed.

Lemma object_of_segment_numeral (o : jsobj) : object_of_segment (numeral (countable.encode o)) = Some o.
Proof. unfold object_of_segment. rewrite of_numeral_numeral. simpl. apply decode_encode. Qed.

#[global, refine] Instance reference : Jose := {|
  b64json o := numeral (countable.encode o);
  header_of := object_of_segment;
  payload_of _ seg :=
    match object_of_segment seg with
    | Some o => Ok (PObject o)
    | None => Ok POpaque
    end;
  hmac := tag
|}.
Proof.
  - apply object_of_segment_numeral.
  - intros _ o. by rewrite object_of_segment_numeral.
  - intros o. apply numeral_alphabet.
  - intros o. apply numeral_nonempty.
  - intros a k i. unfold tag, is_b64url. rewrite forallb_string_append.
    by rewrite (numeral_alphabet _).
  - intros a k i. unfold tag. rewrite length_append.
    pose proof (numeral_nonempty
                  (N.succ_pos (checksum 0 (alg_name a ++ ":" ++ k ++ ":" ++ i)))).
    destruct (numeral _); simpl; [done|lia].
Defined.

End Reference.

(** ** Example configurations, tokens and requests *)

Module Example.
Import jsonwebtoken Jwt.

(** A test run without a secret in the environment. *)
Definition test_env : process_env :=
  {| env_JWT_SECRET := None; env_NODE_ENV := Some "test" |}.

(** A deployment without a secret, and one with a secret of 32 characters. *)
Definition bare_env : process_env :=
  {| env_JWT_SECRET := None; env_NODE_ENV := Some "production" |}.

Definition production_env : process_env :=
  {| env_JWT_SECRET := Some "0123456789abcdef0123456789abcdef";
     env_NODE_ENV := Some "production" |}.

Definition test_constants : constants :=
  {| JWT_SECRET := fallback_secret; VALIDATED_JWT_SECRET := fallback_secret |}.

Definition production_constants : constants :=
  {| JWT_SECRET := "0123456789abcdef0123456789abcdef";
     VALIDATED_JWT_SECRET := "0123456789abcdef0123456789abcdef" |}.

Definition alice : JWTPayload :=
  {| userId := "42"; email := "alice@example.com"; role := Some "user" |}.

(** A user whose role is the empty string. *)
Definition nobody : JWTPayload :=
  {| userId := "7"; email := "nobody@example.com"; role := Some "" |}.

(** The token that [generateTokenSecure] mints at time 1000 in a test run. *)
Definition token_of (input : JWTPayload) : string :=
  jws_sign (H := Reference.reference) (jwt_header HS256)
    (secure_claims (object_of input) 1000 900) HS256 fallback_secret.

Definition bearer (token : string) : Request :=
  {| headers := {[ "authorization" := "Bearer " ++ token ]};
     url := "/api/profile"; request_body := ""; user := None |}.

Definition with_header (value : option string) : Request :=
  {| headers := match value with Some v => {[ "authorization" := v ]} | None => ∅ end;
     url := "/api/profile"; request_body := ""; user := None |}.

(** The calls and the status of an answer. *)
Definition summary (answer : list event * outcome) : list event * option Z :=
  (answer.1, match answer.2 with Returns r => Some (status r) | Throws _ => None end).

Definition ok_response : Response :=
  {| status := 200; response_headers := ∅; response_body := Text "Success" |}.

Definition ok_handler : AuthenticatedHandler := λ _, Returns ok_response.

Definition failing_handler : AuthenticatedHandler :=
  λ _, Throws (ThrownError (plain "Handler failed")).

End Example.

(** ** Running the service on the reference primitives *)

Section runs.
Import jsonwebtoken Jwt Example.

Example run_ms :
  ms "24h" = Some 86400000%Z ∧ ms "15m" = Some 900000%Z ∧ ms "7d" = Some 604800000%Z.
Proof. by vm_compute. Qed.

Example run_split :
  split "." "a.b.c" = ["a"; "b"; "c"] ∧ split "." "a..b" = ["a"; ""; "b"]
  ∧ split "." "" = [""] ∧ split "." "abc" = ["abc"].
Proof. by vm_compute. Qed.

Example run_includes :
  includes "Token has expired" "expired" = true
  ∧ includes "Invalid token payload: missing required fields" "Invalid token" = true
  ∧ includes "Token not active yet" "Invalid token" = false.
Proof. by vm_compute. Qed.

(** Loading the module in a test run, in a deployment without a secret
    and in one with a secret of 32 characters. *)
Example run_load :
  load test_env = Ok test_constants
  ∧ load bare_env = Err (plain "JWT_SECRET environment variable is required for security")
  ∧ load production_env = Ok production_constants.
Proof. by vm_compute. Qed.

(** Headers that never reach the verifier, and one that does. *)
Example run_scheme :
  map (λ h, summary (authMiddleware test_constants ok_handler (with_header h) 1000))
      [None; Some ""; Some "Token abc"; Some "bearer abc"; Some "Bearer";
       Some "Bearer "; Some "Bearer abc"]
  = [([], Some 401%Z); ([], Some 401%Z); ([], Some 401%Z); ([], Some 401%Z);
     ([], Some 401%Z); ([], Some 401%Z); ([], Some 401%Z)]
  ∧ summary (authMiddleware test_constants ok_handler
               (with_header (Some "Bearer abc.def.ghi")) 1000)
    = ([VerifyCall "abc.def.ghi"], Some 401%Z).
Proof. by vm_compute. Qed.

(** Sign [{ userId: "42", email, role: "admin" }] at time 1000 and verify
    the token at once. *)
Example run_end_to_end :
  match generateTokenSecure test_constants
          {| userId := "42"; email := "root@example.com"; role := Some "admin" |} 1000 with
  | Ok token =>
      match verifyTokenSecure test_constants token 1000 with
      | Ok (PObject o) => Some (o !! "userId", o !! "role", o !! "iat", o !! "exp")
      | _ => None
      end
  | Err _ => None
  end
  = Some (Some (JStr "42"), Some (JStr "admin"), Some (JNum 1000), Some (JNum 1900)).
Proof. by vm_compute. Qed.

(** The token of [alice] expires at 1900: it is accepted until 1929 and
    refused from 1930 on. *)
Example run_expiry :
  verifyTokenSecure test_constants (token_of alice) 1929
  = Ok (PObject (secure_claims (object_of alice) 1000 900))
  ∧ verifyTokenSecure test_constants (token_of alice) 1930 = Err (plain "Token has expired")
  ∧ verifyTokenSecure test_constants (token_of alice) 1931 = Err (plain "Token has expired").
Proof. by vm_compute. Qed.

(** A token of the login route lives for a day on the legacy path and is
    refused on the hardened one. *)
Example run_login_token :
  match generateToken test_constants
          (Login.tokenPayload (JNum 7) (Some (JStr "user"))) 1000 with
  | Ok token =>
      Some (match verifyToken test_constants token 87399 with
            | Ok (PObject o) => Some (o !! "userId", o !! "email", o !! "exp")
            | _ => None
            end,
            verifyToken test_constants token 87400,
            verifyTokenSecure test_constants token 1000,
            (authMiddleware test_constants ok_handler (bearer token) 1000).2)
  | Err _ => None
  end
  = Some (Some (Some (JNum 7), None, Some (JNum 87400)),
          Err (mkError TokenExpiredError "jwt expired"),
          Err (plain "Invalid token format"),
          Returns (unauthorized "Invalid token" "Token verification failed")).
Proof. by vm_compute. Qed.

(** A token under another secret, and a token that names the algorithm
    [none], are refused on both paths. *)
Example run_refused :
  let unsigned :=
    b64json {[ "alg" := JStr "none"; "typ" := JStr "JWT" ]} ++ "."
    ++ b64json (secure_claims (object_of alice) 1000 900) ++ "." ++ "c2lnbmF0dXJl" in
  verifyTokenSecure production_constants (token_of alice) 1000
  = Err (plain "Invalid token format")
  ∧ verifyToken production_constants (token_of alice) 1000
    = Err (jwt_error "invalid signature")
  ∧ verifyTokenSecure test_constants unsigned 1000 = Err (plain "Invalid token format")
  ∧ verifyToken test_constants unsigned 1000 = Err (jwt_error "invalid algorithm").
Proof. by vm_compute. Qed.

End runs.

(** ** Facts about [sign] and [verify] *)

Section jose_facts.
Import jsonwebtoken.
Context `{Jose}.

Lemma hmac_nonempty a k i : hmac a k i ≠ "".
Proof.
  intros E. pose proof (hmac_length a k i) as L. rewrite E in L. simpl in L. lia.
Qed.

Lemma split_join s : String.concat "." (split "." s) = s.
Proof.
  induction s as [|a s IH]; [done|]. simpl.
  destruct (Ascii.eqb_spec a ".") as [->|Hne].
  - change (String.concat "." ("" :: split "." s)) with
      (match split "." s with [] => "" | _ :: _ => "" ++ "." ++ String.concat "." (split "." s) end).
    destruct (split "." s) eqn:E; [by destruct s; simpl in E; try destruct (Ascii.eqb _ _); try destruct (split _ _)|].
    by rewrite IH.
  - destruct (split "." s) as [|w ws] eqn:E.
    + by destruct s; simpl in E; try destruct (Ascii.eqb _ _); try destruct (split _ _).
    + rewrite <- IH. simpl. by destruct ws.
Qed.

Lemma validly_signed_length secret allowed token p :
  validly_signed secret allowed token p → (43 ≤ String.length token)%nat.
Proof.
  intros (p0 & p1 & p2 & header & a & Hs & _ & _ & _ & _ & _ & ->).
  rewrite <- (split_join token), Hs.
  change (String.concat "." [p0; p1; hmac a secret (p0 ++ "." ++ p1)])
    with (p0 ++ "." ++ p1 ++ "." ++ hmac a secret (p0 ++ "." ++ p1)).
  rewrite !length_append. pose proof (hmac_length a secret (p0 ++ "." ++ p1)). lia.
Qed.

Lemma long_nonempty (s : string) : (1 ≤ String.length s)%nat → (s =? "") = false.
Proof. destruct s; simpl; [lia|done]. Qed.

(** [verify] accepts the signature of a validly signed token and goes on
    to the claim checks. *)
Lemma verify_validly_signed secret options token p now :
  secret ≠ "" →
  validly_signed secret (default HS_ALGS (algorithms options)) token p →
  verify token secret options now = verify_claims p options now.
Proof.
  intros Hsecret Hv. pose proof (validly_signed_length _ _ _ _ Hv) as Hlen.
  destruct Hv as (p0 & p1 & p2 & header & a & Hs & Hre & Hh & Hp & Ha & Hin & ->).
  unfold verify. rewrite long_nonempty by lia. rewrite Hs.
  unfold decode. rewrite Hre, Hh. simpl. rewrite Hp.
  assert (blank (hmac a secret (p0 ++ "." ++ p1)) = false) as ->
    by (apply blank_b64url; [apply hmac_alphabet|apply hmac_nonempty]).
  assert (nonempty secret = true) as ->
    by (unfold nonempty; by apply negb_true_iff, String.eqb_neq).
  simpl. rewrite Ha, Hin. simpl. by rewrite String.eqb_refl.
Qed.

Lemma hs_alg_of_name a : hs_alg_of (Some (JStr (alg_name a))) = Some a.
Proof. by destruct a. Qed.

(** What [jws_sign] produces is validly signed. *)
Lemma jws_sign_validly_signed header payload a secret allowed :
  header !! "alg" = Some (JStr (alg_name a)) →
  existsb (hs_alg_eqb a) allowed = true →
  validly_signed secret allowed (jws_sign header payload a secret) (PObject payload).
Proof.
  intros Halg Hin.
  exists (b64json header), (b64json payload),
    (hmac a secret (b64json header ++ "." ++ b64json payload)), header, a.
  pose proof (b64json_alphabet header). pose proof (b64json_alphabet payload).
  pose proof (hmac_alphabet a secret (b64json header ++ "." ++ b64json payload)).
  split_and!; try done.
  - unfold jws_sign.
    set (sig := hmac _ _ _) in *.
    replace ((b64json header ++ "." ++ b64json payload) ++ "." ++ sig)
      with (b64json header ++ "." ++ b64json payload ++ "." ++ sig).
    + by apply split_three.
    + generalize (b64json header). intros s. induction s as [|c s IH]; [done|].
      change (String c (s ++ "." ++ b64json payload ++ "." ++ sig)
              = String c ((s ++ "." ++ b64json payload) ++ "." ++ sig)).
      by rewrite IH.
  - unfold JWS_REGEX_test, nonempty.
    rewrite !andb_true_iff, !negb_true_iff. split_and!; try done.
    + apply String.eqb_neq, b64json_nonempty.
    + apply String.eqb_neq, b64json_nonempty.
  - apply header_of_b64json.
  - apply payload_of_b64json.
  - by rewrite Halg, hs_alg_of_name.
Qed.

Lemma verify_claims_Ok p options now u :
  verify_claims p options now = Ok u → u = p.
Proof.
  unfold verify_claims. destruct p; try done;
    repeat (match goal with |- context [match ?x with _ => _ end] => destruct x end;
            try done); by intros [= <-].
Qed.

(** Whatever [verify] accepts is validly signed and passes the claim
    checks. *)
Lemma verify_Ok secret options token now u :
  verify token secret options now = Ok u →
  validly_signed secret (default HS_ALGS (algorithms options)) token u
  ∧ verify_claims u options now = Ok u.
Proof.
  unfold verify. destruct (token =? ""); [done|].
  destruct (split "." token) as [|p0 [|p1 [|p2 [|]]]] eqn:Hs; try done.
  destruct (decode p0 p1 p2) as [[[header p]|]|] eqn:Hd; try done.
  destruct (negb (negb (blank p2)) && nonempty secret); [done|].
  destruct (negb (blank p2) && negb (nonempty secret)); [done|].
  destruct (negb (negb (blank p2)) && negb (bool_decide (is_Some (algorithms options))));
    [done|].
  destruct (hs_alg_of (header !! "alg")) as [a|] eqn:Ha; [|done].
  destruct (existsb (hs_alg_eqb a) (default HS_ALGS (algorithms options))) eqn:Hin; [|done].
  destruct (String.eqb_spec p2 (hmac a secret (p0 ++ "." ++ p1))) as [->|]; [|done].
  simpl. intros Hc. pose proof (verify_claims_Ok _ _ _ _ Hc) as ->. split; [|done].
  unfold decode in Hd.
  destruct (JWS_REGEX_test p0 p1 _) eqn:Hre; [|done]. simpl in Hd.
  destruct (header_of p0) as [h|] eqn:Hh; [|done].
  destruct (payload_of _ p1) as [q|] eqn:Hp; [|done].
  injection Hd as <- <-.
  by exists p0, p1, (hmac a secret (p0 ++ "." ++ p1)), h, a.
Qed.

(** [jwt.decode] reads back the payload of a validly signed token. *)
Lemma jwt_decode_validly_signed secret allowed token p :
  validly_signed secret allowed token p → jwt_decode token = Some p.
Proof.
  intros (p0 & p1 & p2 & header & a & Hs & Hre & Hh & Hp & _).
  unfold jwt_decode, decode. by rewrite Hs, Hre, Hh, Hp.
Qed.

(** A token whose header names an algorithm outside the accepted list is
    refused for its algorithm, whatever tag it carries. *)
Lemma verify_other_algorithm secret options header payload a k now :
  secret ≠ "" →
  header !! "alg" = Some (JStr (alg_name a)) →
  existsb (hs_alg_eqb a) (default HS_ALGS (algorithms options)) = false →
  verify (jws_sign header payload a k) secret options now
  = Err (jwt_error "invalid algorithm").
Proof.
  intros Hsecret Halg Hout.
  destruct (jws_sign_validly_signed header payload a k [a] Halg) as
    (p0 & p1 & p2 & h & a' & Hs & Hre & Hh & Hp & Ha & Hin & ->).
  { destruct a; done. }
  assert (43 ≤ String.length (jws_sign header payload a k))%nat as Hlen.
  { apply (validly_signed_length k [a] _ (PObject payload)).
    apply jws_sign_validly_signed; [done|by destruct a]. }
  assert (a' = a) as -> by (destruct a, a'; done).
  unfold verify. rewrite long_nonempty by lia. rewrite Hs.
  unfold decode. rewrite Hre, Hh. simpl. rewrite Hp.
  assert (blank (hmac a k (p0 ++ "." ++ p1)) = false) as ->
    by (apply blank_b64url; [apply hmac_alphabet|apply hmac_nonempty]).
  assert (nonempty secret = true) as ->
    by (unfold nonempty; by apply negb_true_iff, String.eqb_neq).
  simpl. by rewrite Ha, Hout.
Qed.

End jose_facts.

(** ** Facts about the token service *)

Section service_facts.
Import jsonwebtoken Jwt.
Context `{Jose}.

Lemma load_nonempty env m :
  load env = Ok m → JWT_SECRET m ≠ "" ∧ VALIDATED_JWT_SECRET m ≠ "".
Proof.
  assert (init_JWT_SECRET env ≠ "") as Hinit.
  { unfold init_JWT_SECRET. destruct (env_JWT_SECRET env) as [s|]; [|done].
    destruct (s =? "") eqn:E; [done|]. by apply String.eqb_neq. }
  unfold load, validateJWTSecret.
  destruct (match env_NODE_ENV env with Some mode => mode =? "test" | None => false end).
  - by intros [= <-].
  - destruct (env_JWT_SECRET env) as [s|] eqn:Es; [|done].
    destruct (s =? "") eqn:E; [done|].
    destruct (String.length s <? 32)%nat; [done|].
    intros [= <-]. simpl. split; [done|]. by apply String.eqb_neq.
Qed.

Lemma sign_secure (o : jsobj) secret time ttl now :
  secret ≠ "" →
  o !! "iat" = None → o !! "exp" = None → o !! "nbf" = None →
  o !! "aud" = None → o !! "iss" = None →
  ms time = Some (1000 * ttl)%Z →
  sign o secret (secure_sign_options time) now
  = Ok (jws_sign (jwt_header HS256) (secure_claims o now ttl) HS256 secret).
Proof.
  intros Hs Hiat Hexp Hnbf Haud Hiss Hms.
  unfold sign, validatePayload, timespan, option_to_payload. simpl.
  apply String.eqb_neq in Hs. rewrite Hs, Hiat, Hexp, Hnbf, Hms. simpl.
  rewrite !lookup_insert_ne, Haud by done. simpl.
  rewrite !lookup_insert_ne, Hiss by done.
  unfold secure_claims. do 5 f_equal. rewrite Z.mul_comm, Z.div_mul by done. done.
Qed.

Lemma verify_claims_secure (o : jsobj) now ttl now' :
  o !! "nbf" = None → (now' < now + ttl + 30)%Z →
  verify_claims (PObject (secure_claims o now ttl)) secure_verify_options now'
  = Ok (PObject (secure_claims o now ttl)).
Proof.
  intros Hnbf Hlt. unfold verify_claims, secure_claims, claim. simpl.
  rewrite !lookup_insert_ne, Hnbf by done.
  rewrite lookup_insert_eq.
  destruct (now + ttl + 30 <=? now')%Z eqn:E; [apply Z.leb_le in E; lia|].
  rewrite (lookup_insert_ne _ "iss" "aud") by done.
  by rewrite !lookup_insert_eq.
Qed.

Lemma object_of_lookup (input : JWTPayload) :
  object_of input !! "userId" = Some (JStr (userId input))
  ∧ object_of input !! "email" = Some (JStr (email input))
  ∧ object_of input !! "role" = JStr <$> role input
  ∧ object_of input !! "iat" = None ∧ object_of input !! "exp" = None
  ∧ object_of input !! "nbf" = None ∧ object_of input !! "aud" = None
  ∧ object_of input !! "iss" = None.
Proof. unfold object_of. destruct (role input); done. Qed.

Lemma secure_claims_lookup (o : jsobj) now ttl k :
  k ≠ "iss" → k ≠ "aud" → k ≠ "exp" → k ≠ "iat" →
  secure_claims o now ttl !! k = o !! k.
Proof. intros. unfold secure_claims. by rewrite !lookup_insert_ne. Qed.

(** The token that [generateTokenSecure] mints at [now], and what
    [verifyTokenSecure] makes of it until thirty seconds past its expiry. *)
Lemma secure_roundtrip m (input : JWTPayload) now now' :
  VALIDATED_JWT_SECRET m ≠ "" → userId input ≠ "" → email input ≠ "" →
  (now' < now + 900 + 30)%Z →
  let token := jws_sign (jwt_header HS256) (secure_claims (object_of input) now 900)
                        HS256 (VALIDATED_JWT_SECRET m) in
  generateTokenSecure m input now = Ok token
  ∧ verifyTokenSecure m token now' = Ok (PObject (secure_claims (object_of input) now 900)).
Proof.
  intros Hs Hu He Hlt token.
  destruct (object_of_lookup input) as (Lu & Le & Lr & Liat & Lexp & Lnbf & Laud & Liss).
  assert (validly_signed (VALIDATED_JWT_SECRET m) [HS256] token
            (PObject (secure_claims (object_of input) now 900))) as Hv
    by (by apply jws_sign_validly_signed).
  split.
  - unfold generateTokenSecure.
    apply String.eqb_neq in Hu, He. rewrite Hu, He. simpl.
    by rewrite (sign_secure _ _ "15m" 900).
  - unfold verifyTokenSecure.
    pose proof (validly_signed_length _ _ _ _ Hv) as Hlen.
    rewrite long_nonempty by lia.
    destruct (String.length token <? 10)%nat eqn:E; [apply Nat.ltb_lt in E; lia|].
    rewrite (verify_validly_signed _ secure_verify_options _ _ _ Hs Hv).
    rewrite verify_claims_secure by done. unfold claim.
    rewrite !secure_claims_lookup, Lu, Le by done. simpl.
    apply String.eqb_neq in Hu, He. by rewrite Hu, He.
Qed.

Lemma generateToken_Ok m (o : jsobj) now token :
  generateToken m o now = Ok token →
  ∃ iat, token = jws_sign (jwt_header HS256) (legacy_claims o iat) HS256 (JWT_SECRET m)
         ∧ (o !! "iat" = None → iat = now).
Proof.
  unfold generateToken, sign. simpl.
  destruct (JWT_SECRET m =? ""); [done|].
  destruct (validatePayload o); [done|].
  destruct (defined (o !! "exp")); [done|]. simpl.
  intros [= <-]. eexists. split; [reflexivity|]. by intros ->.
Qed.

Lemma generateToken_fresh m (o : jsobj) now :
  JWT_SECRET m ≠ "" →
  o !! "iat" = None → o !! "exp" = None → o !! "nbf" = None →
  generateToken m o now
  = Ok (jws_sign (jwt_header HS256) (legacy_claims o now) HS256 (JWT_SECRET m)).
Proof.
  intros Hs Hiat Hexp Hnbf. unfold generateToken, sign, validatePayload. simpl.
  apply String.eqb_neq in Hs. by rewrite Hs, Hiat, Hexp, Hnbf.
Qed.

Lemma generateRefreshToken_Ok m userId now :
  VALIDATED_JWT_SECRET m ≠ "" → userId ≠ "" →
  generateRefreshToken m userId now
  = Ok (jws_sign (jwt_header HS256)
          (secure_claims {[ "userId" := JStr userId; "type" := JStr "refresh" ]} now 604800)
          HS256 (VALIDATED_JWT_SECRET m)).
Proof.
  intros Hs Hu. unfold generateRefreshToken.
  apply String.eqb_neq in Hu. rewrite Hu.
  by rewrite (sign_secure _ _ "7d" 604800).
Qed.

(** The two secrets of a loaded module are one. *)
Lemma load_one_secret env m : load env = Ok m → JWT_SECRET m = VALIDATED_JWT_SECRET m.
Proof.
  unfold load, validateJWTSecret, init_JWT_SECRET.
  destruct (match env_NODE_ENV env with Some mode => mode =? "test" | None => false end);
    [by intros [= <-]|].
  destruct (env_JWT_SECRET env) as [s|]; [|done].
  destruct (s =? ""); [done|]. destruct (String.length s <? 32)%nat; [done|].
  by intros [= <-].
Qed.

(** [verifyTokenSecure] accepts no token whose payload has no email. *)
Lemma verifyTokenSecure_needs_email m token now :
  (∀ p, jwt_decode token = Some p → claim p "email" = None) →
  ∃ e, verifyTokenSecure m token now = Err e.
Proof.
  intros Hlacks. unfold verifyTokenSecure. destruct (token =? ""); [by eexists|].
  destruct (String.length token <? 10)%nat; [by eexists|].
  destruct (verify token (VALIDATED_JWT_SECRET m) secure_verify_options now)
    as [u|e] eqn:Hu; [|destruct (name e); by eexists].
  destruct (verify_Ok _ _ _ _ _ Hu) as [Hv _].
  rewrite (Hlacks u (jwt_decode_validly_signed _ _ _ _ Hv)).
  simpl. rewrite orb_true_r. by eexists.
Qed.




(** *** The interceptor *)

Lemma verifyTokenSecure_long m token now u :
  verifyTokenSecure m token now = Ok u → (10 ≤ String.length token)%nat.
Proof.
  unfold verifyTokenSecure. destruct (token =? ""); [done|].
  destruct (String.length token <? 10)%nat eqn:E; [done|].
  intros _. apply Nat.ltb_ge in E. lia.
Qed.

(** The interceptor on a header that starts with the scheme. *)
Lemma authMiddleware_bearer m handler request now token :
  headers request !! "authorization" = Some ("Bearer " ++ token) →
  authMiddleware m handler request now =
    if (token =? "") || (String.length token <? 10)%nat
    then ([], Returns (unauthorized "Invalid token" "Token is malformed or too short"))
    else match verifyTokenSecure m token now with
         | Err error => ([VerifyCall token], Returns (on_error (ThrownError error)))
         | Ok u =>
             ([VerifyCall token; HandlerCall (assign_user request u)],
              match handler (assign_user request u) with
              | Returns response => Returns response
              | Throws error => Returns (on_error error)
              end)
         end.
Proof.
  intros Hh. unfold authMiddleware. rewrite Hh.
  change (("Bearer " ++ token) =? "") with false. cbv iota.
  unfold startsWith. rewrite prefix_append. cbv [negb].
  by change (substring_from 7 ("Bearer " ++ token)) with token.
Qed.

(** The interceptor on a verified token. *)
Lemma authMiddleware_verified m handler request now token u :
  headers request !! "authorization" = Some ("Bearer " ++ token) →
  verifyTokenSecure m token now = Ok u →
  authMiddleware m handler request now =
    ([VerifyCall token; HandlerCall (assign_user request u)],
     match handler (assign_user request u) with
     | Returns response => Returns response
     | Throws error => Returns (on_error error)
     end).
Proof.
  intros Hh Hv. rewrite (authMiddleware_bearer _ _ _ _ _ Hh), Hv.
  pose proof (verifyTokenSecure_long _ _ _ _ Hv) as Hl.
  rewrite long_nonempty by lia.
  destruct (String.length token <? 10)%nat eqn:E; [apply Nat.ltb_lt in E; lia|done].
Qed.

Lemma on_error_unauthorized t : ∃ error message, on_error t = unauthorized error message.
Proof.
  destruct t as [e|]; simpl; [|by eexists _, _].
  destruct (includes (message e) "expired"); [by eexists _, _|].
  destruct (includes (message e) "Invalid token"); by eexists _, _.
Qed.

Local Ltac answer_401 :=
  eexists; split; [reflexivity|left; eexists _, _; reflexivity].

(** Every answer of the interceptor is one of its 401 responses or the
    response that the handler returned for the request with the verified
    identity attached. *)
Lemma authMiddleware_answers m handler request now :
  ∃ response, (authMiddleware m handler request now).2 = Returns response
    ∧ ((∃ error message, response = unauthorized error message)
       ∨ (∃ token u,
            headers request !! "authorization" = Some ("Bearer " ++ token)
            ∧ verifyTokenSecure m token now = Ok u
            ∧ handler (assign_user request u) = Returns response)).
Proof.
  destruct (headers request !! "authorization") as [authHeader|] eqn:Hh;
    [|unfold authMiddleware; rewrite Hh; answer_401].
  destruct (startsWith authHeader "Bearer ") eqn:Hp.
  - apply (prefix_split "Bearer ") in Hp.
    change (String.length "Bearer ") with 7%nat in Hp.
    set (token := substring_from 7 authHeader) in *.
    rewrite Hp in Hh. rewrite (authMiddleware_bearer _ _ _ _ _ Hh).
    destruct ((token =? "") || (String.length token <? 10)%nat); [answer_401|].
    destruct (verifyTokenSecure m token now) as [u|e] eqn:Hv.
    + destruct (handler (assign_user request u)) as [r|t] eqn:Hr.
      * eexists; split; [done|]. right. exists token, u.
        split_and!; [by f_equal|done|done].
      * eexists; split; [done|]. left. apply on_error_unauthorized.
    + eexists; split; [done|]. left. apply (on_error_unauthorized (ThrownError e)).
  - unfold authMiddleware. rewrite Hh, Hp.
    destruct (authHeader =? ""); answer_401.
Qed.


Lemma array_includes_elem_of roles s :
  array_includes roles (Some (JStr s)) = true ↔ s ∈ roles.
Proof.
  unfold array_includes. rewrite existsb_exists. split.
  - intros (x & Hin & ->%String.eqb_eq). by apply list_elem_of_In.
  - intros Hin. exists s. split; [by apply list_elem_of_In|apply String.eqb_refl].
Qed.

(** The role gate lets a request through exactly when the role is a
    string that is not empty and is one of [roles]. *)
Lemma role_check roles u :
  negb (truthy (claim u "role")) || negb (array_includes roles (claim u "role")) = false
  ↔ ∃ s, claim u "role" = Some (JStr s) ∧ s ≠ "" ∧ s ∈ roles.
Proof.
  rewrite orb_false_iff, !negb_false_iff. split.
  - intros [Ht Hi]. destruct (claim u "role") as [[| | |s|]|] eqn:E; try done.
    exists s. split_and!; [done| |by apply array_includes_elem_of].
    simpl in Ht. intros ->. done.
  - intros (s & -> & Hs & Hin). split; [|by apply array_includes_elem_of].
    simpl. by apply negb_true_iff, String.eqb_neq.
Qed.

End service_facts.

(** ** The claims *)

Section claims.
Import jsonwebtoken Jwt.
Context `{Jose}.

(** C1. A token that [generateTokenSecure] signs for claims with a
    subject id that is not empty, an email that is not empty and an
    optional role verifies, at any time before its expiry, to a payload
    whose [userId], [email] and [role] are those that were signed. *)
Theorem C1_sign_verify_roundtrip env m (input : JWTPayload) now now' :
  load env = Ok m →
  userId input ≠ "" → email input ≠ "" →
  (now' < now + 900)%Z →
  ∃ token claims,
    generateTokenSecure m input now = Ok token
    ∧ verifyTokenSecure m token now' = Ok (PObject claims)
    ∧ claims !! "exp" = Some (JNum (now + 900))
    ∧ claims !! "userId" = Some (JStr (userId input))
    ∧ claims !! "email" = Some (JStr (email input))
    ∧ claims !! "role" = JStr <$> role input.
Proof.
  intros Hload Hu He Hlt.
  destruct (load_nonempty _ _ Hload) as [_ Hs].
  destruct (secure_roundtrip m input now now' Hs Hu He ltac:(lia)) as [Hg Hv].
  destruct (object_of_lookup input) as (Lu & Le & Lr & _).
  eexists _, _. split; [exact Hg|]. split; [exact Hv|].
  rewrite (secure_claims_lookup _ _ _ "userId"), (secure_claims_lookup _ _ _ "email"),
    (secure_claims_lookup _ _ _ "role") by done.
  split_and!; try done.
  unfold secure_claims. rewrite !lookup_insert_ne by done. by rewrite lookup_insert_eq.
Qed.

(** C2, as the code has it.  [verifyTokenSecure] accepts a token only if
    its header names HS256, while the legacy [verifyToken] also accepts a
    token that is signed with HS384 or HS512: the same HS384 token is
    refused by the first as an invalid token and verified by the second. *)
Theorem C2_legacy_accepts_other_algorithms env m (o : jsobj) now :
  load env = Ok m →
  o !! "exp" = None → o !! "nbf" = None →
  let token := jws_sign (jwt_header HS384) o HS384 (JWT_SECRET m) in
  (∀ token' u p0 p1 p2 header,
     verifyTokenSecure m token' now = Ok u →
     split "." token' = [p0; p1; p2] → header_of p0 = Some header →
     header !! "alg" = Some (JStr "HS256"))
  ∧ jwt_header HS384 !! "alg" = Some (JStr "HS384")
  ∧ verifyTokenSecure m token now = Err (plain "Invalid token format")
  ∧ verifyToken m token now = Ok (PObject o).
Proof.
  intros Hload Hexp Hnbf token.
  destruct (load_nonempty _ _ Hload) as [Hs Hvs].
  assert (validly_signed (JWT_SECRET m) HS_ALGS token (PObject o)) as Hv
    by (by apply jws_sign_validly_signed).
  split_and!; [|done| |].
  - intros token' u p0 p1 p2 header. unfold verifyTokenSecure.
    destruct (token' =? ""); [done|].
    destruct (String.length token' <? 10)%nat; [done|].
    destruct (verify token' _ _ now) as [p|e] eqn:Hok; [|by destruct (name e)].
    intros _ Hsplit Hheader.
    destruct (verify_Ok _ secure_verify_options _ now _ Hok)
      as [(q0 & q1 & q2 & h & a & Hs' & _ & Hh & _ & Ha & Hin & _) _].
    rewrite Hsplit in Hs'. injection Hs' as <- <- <-.
    rewrite Hheader in Hh. injection Hh as <-.
    destruct a; try done. clear Hin. unfold hs_alg_of in Ha.
    destruct (header !! "alg") as [[| | |s|]|]; try done.
    destruct (s =? "HS256") eqn:E; [apply String.eqb_eq in E; by subst|].
    by repeat case_match.
  - unfold verifyTokenSecure.
    pose proof (validly_signed_length _ _ _ _ Hv) as Hlen.
    rewrite long_nonempty by lia.
    destruct (String.length token <? 10)%nat eqn:E; [apply Nat.ltb_lt in E; lia|].
    unfold token. by rewrite verify_other_algorithm.
  - unfold verifyToken.
    rewrite (verify_validly_signed _ legacy_verify_options _ _ _ Hs Hv).
    unfold verify_claims, claim. simpl. by rewrite Hnbf, Hexp.
Qed.

(** C3, as the code has it.  When the token verifies and the wrapped
    handler throws, the interceptor catches what was thrown and answers
    with a 401 response of its own, chosen by the message of the error:
    [Token expired] when the message contains [expired], otherwise
    [Invalid token] when it contains [Invalid token], and
    [Authentication failed] for every other error and for a thrown value
    that is not an error; nothing reaches the caller of the
    interceptor. *)
Theorem C3_handler_error_is_caught m handler request now token u t :
  headers request !! "authorization" = Some ("Bearer " ++ token) →
  verifyTokenSecure m token now = Ok u →
  handler (assign_user request u) = Throws t →
  let answered error message :=
    authMiddleware m handler request now
    = ([VerifyCall token; HandlerCall (assign_user request u)],
       Returns {| status := 401;
                  response_headers :=
                    {[ "Content-Type" := "application/json";
                       "WWW-Authenticate" := "Bearer" ]};
                  response_body :=
                    JSON_stringify [("error", error); ("message", message)] |}) in
  match t with
  | ThrownError e =>
      if includes (message e) "expired"
      then answered "Token expired" "Please refresh your token and try again"
      else if includes (message e) "Invalid token"
      then answered "Invalid token" "Token verification failed"
      else answered "Authentication failed" "Unable to authenticate request"
  | ThrownValue =>
      answered "Authentication failed" "Unable to authenticate request"
  end.
Proof.
  intros Hh Hv Ht answered. subst answered. cbv beta.
  rewrite (authMiddleware_verified _ _ _ _ _ _ Hh Hv), Ht.
  destruct t as [e|]; [|done]. simpl.
  destruct (includes (message e) "expired"); [done|].
  by destruct (includes (message e) "Invalid token").
Qed.

(** C4. The interceptor answers 401 without calling the verifier when
    the [Authorization] header is missing or is one of [""],
    ["Token abc"], ["bearer abc"] and ["Bearer"]; it calls the verifier
    exactly when the header is ["Bearer "] followed by a candidate token
    of at least ten characters, and then on that candidate. *)
Theorem C4_scheme_enforcement m handler request now :
  let h := headers request !! "authorization" in
  let calls := (authMiddleware m handler request now).1 in
  (h ∈ [None; Some ""; Some "Token abc"; Some "bearer abc"; Some "Bearer"] →
     ∃ error message,
       authMiddleware m handler request now = ([], Returns (unauthorized error message)))
  ∧ (∀ token, VerifyCall token ∈ calls
       ↔ h = Some ("Bearer " ++ token) ∧ (10 ≤ String.length token)%nat)
  ∧ (calls = [] →
       ∃ error message,
         authMiddleware m handler request now = ([], Returns (unauthorized error message)))
  ∧ (∀ error message, status (unauthorized error message) = 401%Z).
Proof.
  intros h calls. subst calls.
  assert (∀ token, h = Some ("Bearer " ++ token) →
            (10 ≤ String.length token)%nat →
            ∃ rest out, authMiddleware m handler request now
                        = (VerifyCall token :: rest, out)) as Hcall.
  { intros token Hh Hl. rewrite (authMiddleware_bearer _ _ _ _ _ Hh).
    rewrite long_nonempty by lia.
    destruct (String.length token <? 10)%nat eqn:E; [apply Nat.ltb_lt in E; lia|].
    simpl. destruct (verifyTokenSecure m token now); by eexists _, _. }
  assert ((∃ error message,
             authMiddleware m handler request now
             = ([], Returns (unauthorized error message)))
          ∨ (∃ token rest out,
               h = Some ("Bearer " ++ token) ∧ (10 ≤ String.length token)%nat
               ∧ authMiddleware m handler request now = (VerifyCall token :: rest, out)
               ∧ ∀ token', VerifyCall token' ∈ rest → False)) as Hcases.
  { destruct h as [authHeader|] eqn:Hh; subst h;
      [|left; unfold authMiddleware; rewrite Hh; by eexists _, _].
    destruct (startsWith authHeader "Bearer ") eqn:Hp.
    - apply (prefix_split "Bearer ") in Hp.
      change (String.length "Bearer ") with 7%nat in Hp.
      set (token := substring_from 7 authHeader) in *.
      rewrite Hp in Hh. rewrite (authMiddleware_bearer _ _ _ _ _ Hh).
      destruct (token =? "") eqn:E0; [left; by eexists _, _|].
      destruct (String.length token <? 10)%nat eqn:E; [left; by eexists _, _|].
      right. apply Nat.ltb_ge in E. exists token. simpl.
      destruct (verifyTokenSecure m token now); eexists _, _;
        (split_and!; [by f_equal|exact E|reflexivity|]);
        intros token' Hin;
        repeat (apply elem_of_cons in Hin as [?|Hin]; [done|]);
        by apply elem_of_nil in Hin.
    - left. unfold authMiddleware. rewrite Hh, Hp.
      destruct (authHeader =? ""); by eexists _, _. }
  split_and!.
  - intros Hin. destruct Hcases as [?|(token & rest & out & Hh & Hl & _)]; [done|].
    exfalso. fold h in Hh. rewrite Hh in Hin.
    repeat (apply elem_of_cons in Hin as [Hin|Hin];
            [first [discriminate Hin
                   |injection Hin as Hin; apply (f_equal String.length) in Hin;
                    rewrite length_append in Hin; simpl in Hin; lia]|]).
    by apply elem_of_nil in Hin.
  - intros token. split.
    + destruct Hcases as [(e & msg & ->)|(token' & rest & out & Hh & Hl & -> & Hrest)];
        simpl; [by intros ?%elem_of_nil|].
      intros [[= ->]|Hin]%elem_of_cons; [done|by destruct (Hrest _ Hin)].
    + intros [Hh Hl]. destruct (Hcall _ Hh Hl) as (rest & out & ->). simpl. by left.
  - destruct Hcases as [?|(token & rest & out & _ & _ & -> & _)]; [done|]. done.
  - done.
Qed.


(** C6, as the code has it.  For a request whose token verifies, the
    role gate answers 403 unless the role claim is a string that is not
    empty and is one of the acceptable roles; in that case it calls the
    wrapped handler on the request with the identity attached, as the
    interceptor alone would.  A role ["user"] is refused under
    [["admin"]] and let through under [["user"; "admin"]]. *)
Theorem C6_role_gate m (roles : list string) handler request now token u :
  headers request !! "authorization" = Some ("Bearer " ++ token) →
  verifyTokenSecure m token now = Ok u →
  let accepted (roles : list string) :=
    ∃ s, claim u "role" = Some (JStr s) ∧ s ≠ "" ∧ s ∈ roles in
  let calls := [VerifyCall token; HandlerCall (assign_user request u)] in
  status (forbidden roles) = 403%Z
  ∧ (¬ accepted roles →
       requireRole m roles handler request now = (calls, Returns (forbidden roles)))
  ∧ (accepted roles →
       requireRole m roles handler request now = authMiddleware m handler request now
       ∧ authMiddleware m handler request now
         = (calls, match handler (assign_user request u) with
                   | Returns response => Returns response
                   | Throws error => Returns (on_error error)
                   end))
  ∧ (claim u "role" = Some (JStr "user") →
       requireRole m ["admin"] handler request now = (calls, Returns (forbidden ["admin"]))
       ∧ requireRole m ["user"; "admin"] handler request now
         = authMiddleware m handler request now).
Proof.
  intros Hh Hv accepted calls.
  assert (∀ roles, ¬ accepted roles →
            requireRole m roles handler request now = (calls, Returns (forbidden roles)))
    as Hno.
  { intros rs Hn. unfold requireRole.
    rewrite (authMiddleware_verified _ _ _ _ _ _ Hh Hv).
    unfold roleMiddleware_handler. simpl.
    destruct (_ || _) eqn:E; [done|]. by apply role_check in E. }
  assert (∀ roles, accepted roles →
            requireRole m roles handler request now = authMiddleware m handler request now)
    as Hyes.
  { intros rs Hy. unfold requireRole.
    rewrite !(authMiddleware_verified _ _ _ _ _ _ Hh Hv).
    unfold roleMiddleware_handler. simpl.
    apply role_check in Hy. by rewrite Hy. }
  split_and!; [done|apply Hno| |].
  - intros Hy. split; [by apply Hyes|by apply authMiddleware_verified].
  - intros Hr. split.
    + apply Hno. intros (s & Hs & _ & Hin). rewrite Hr in Hs. injection Hs as <-.
      apply list_elem_of_singleton in Hin. done.
    + apply Hyes. exists "user". split_and!; [done|done|by left].
Qed.

(** C7, as the code has it.  Outside a test run ([NODE_ENV] other than
    ["test"]) loading the module throws when [JWT_SECRET] is absent, empty
    or shorter than 32 characters, and a module that loads holds the
    secret of the environment in both constants.  In a test run nothing
    is validated: both constants hold the secret of the environment when
    it is set and not empty, however short it is, and the built-in
    default when it is absent or empty. *)
Theorem C7_secret_validation env :
  let test := match env_NODE_ENV env with Some mode => mode =? "test" | None => false end in
  (test = false →
     match env_JWT_SECRET env with
     | None => True
     | Some s => (String.length s < 32)%nat
     end →
     ∃ message, load env = Err (plain message))
  ∧ (test = false → ∀ m, load env = Ok m →
       ∃ s, env_JWT_SECRET env = Some s ∧ (32 ≤ String.length s)%nat
            ∧ JWT_SECRET m = s ∧ VALIDATED_JWT_SECRET m = s)
  ∧ (test = true →
       (∀ s, env_JWT_SECRET env = Some s → s ≠ "" →
          load env = Ok {| JWT_SECRET := s; VALIDATED_JWT_SECRET := s |})
       ∧ (env_JWT_SECRET env = None ∨ env_JWT_SECRET env = Some "" →
          load env
          = Ok {| JWT_SECRET := "super-secret-key-for-workshop-demo-only";
                  VALIDATED_JWT_SECRET := "super-secret-key-for-workshop-demo-only" |})).
Proof.
  intros test. subst test. unfold load, validateJWTSecret, init_JWT_SECRET.
  destruct (match env_NODE_ENV env with Some _ => _ | None => _ end).
  - split_and!; [done|done|]. intros _. split.
    + intros s -> Hs. apply String.eqb_neq in Hs. by rewrite Hs.
    + by intros [->| ->].
  - split_and!; [| |done].
    + intros _. destruct (env_JWT_SECRET env) as [s|]; [|by eexists].
      intros Hlt. destruct (s =? ""); [by eexists|].
      apply Nat.ltb_lt in Hlt. rewrite Hlt. by eexists.
    + intros _ m. destruct (env_JWT_SECRET env) as [s|]; [|done].
      destruct (s =? "") eqn:E; [done|].
      destruct (String.length s <? 32)%nat eqn:El; [done|].
      intros [= <-]. exists s. apply Nat.ltb_ge in El. done.
Qed.

(** C8, as the code has it.  Every token carries [exp = iat + ttl] for
    a life that its signer fixes: 900 seconds for [generateTokenSecure],
    604800 seconds for [generateRefreshToken], but 86400 seconds, a whole
    day, for the legacy [generateToken], which is more than a tenth of the
    life of a refresh token. *)
Theorem C8_token_lifetimes env m :
  load env = Ok m →
  (∀ (o : jsobj) now,
     o !! "iat" = None → o !! "exp" = None → o !! "nbf" = None →
     ∃ token, generateToken m o now = Ok token)
  ∧ (∀ (o : jsobj) now token,
       generateToken m o now = Ok token →
       ∃ iat (claims : jsobj),
         jwt_decode token = Some (PObject claims)
         ∧ claims !! "iat" = Some (JNum iat)
         ∧ claims !! "exp" = Some (JNum (iat + 86400)))
  ∧ (∀ (input : JWTPayload) now token,
       generateTokenSecure m input now = Ok token →
       ∃ claims : jsobj,
         jwt_decode token = Some (PObject claims)
         ∧ claims !! "iat" = Some (JNum now)
         ∧ claims !! "exp" = Some (JNum (now + 900)))
  ∧ (∀ userId now token,
       generateRefreshToken m userId now = Ok token →
       ∃ claims : jsobj,
         jwt_decode token = Some (PObject claims)
         ∧ claims !! "iat" = Some (JNum now)
         ∧ claims !! "exp" = Some (JNum (now + 604800)))
  ∧ (604800 < 10 * 86400)%Z.
Proof.
  intros Hload. destruct (load_nonempty _ _ Hload) as [Hs Hvs].
  assert (∀ (o : jsobj) secret ttl iat,
            ∃ claims : jsobj,
              jwt_decode (jws_sign (jwt_header HS256) (secure_claims o iat ttl) HS256 secret)
              = Some (PObject claims)
              ∧ claims !! "iat" = Some (JNum iat)
              ∧ claims !! "exp" = Some (JNum (iat + ttl))) as Hsecure.
  { intros o secret ttl iat. eexists. split.
    - apply (jwt_decode_validly_signed secret [HS256]).
      by apply jws_sign_validly_signed.
    - unfold secure_claims.
      split; repeat (rewrite lookup_insert_ne by done); by rewrite lookup_insert_eq. }
  split_and!; [| | | |done].
  - intros o now Hiat Hexp Hnbf. eexists. by apply generateToken_fresh.
  - intros o now token (iat & -> & _)%generateToken_Ok.
    exists iat. eexists. split.
    + apply (jwt_decode_validly_signed (JWT_SECRET m) [HS256]).
      by apply jws_sign_validly_signed.
    + unfold legacy_claims.
      split; repeat (rewrite lookup_insert_ne by done); by rewrite lookup_insert_eq.
  - intros input now token. unfold generateTokenSecure.
    destruct (_ || _); [done|].
    destruct (object_of_lookup input) as (_ & _ & _ & Liat & Lexp & Lnbf & Laud & Liss).
    rewrite (sign_secure _ _ "15m" 900) by done. intros [= <-]. apply Hsecure.
  - intros userId now token. unfold generateRefreshToken.
    destruct (userId =? ""); [done|].
    rewrite (sign_secure _ _ "7d" 604800) by done. intros [= <-]. apply Hsecure.
Qed.

(** C9, as the code has it.  Every answer of the interceptor and of the
    role gate that does not come from the wrapped handler has a body of
    the shape [{ error, message }]: with status 401 it carries
    [WWW-Authenticate: Bearer]; with status 403, the role gate's refusal
    of a verified request, it carries [Content-Type] only. *)
Theorem C9_failure_responses m roles handler request now :
  let envelope (r : Response) :=
    ∃ kind text, response_body r = JSON_stringify [("error", kind); ("message", text)] in
  let challenge_401 (r : Response) :=
    status r = 401%Z ∧ envelope r
    ∧ response_headers r !! "WWW-Authenticate" = Some "Bearer" in
  let handled (r : Response) :=
    ∃ token u,
      headers request !! "authorization" = Some ("Bearer " ++ token)
      ∧ verifyTokenSecure m token now = Ok u
      ∧ handler (assign_user request u) = Returns r in
  (∃ r, (authMiddleware m handler request now).2 = Returns r
        ∧ (challenge_401 r ∨ handled r))
  ∧ (∃ r, (requireRole m roles handler request now).2 = Returns r
          ∧ (challenge_401 r
             ∨ (r = forbidden roles ∧ status r = 403%Z ∧ envelope r
                ∧ response_headers r !! "WWW-Authenticate" = None
                ∧ response_headers r !! "Content-Type" = Some "application/json"
                ∧ ∃ token u,
                    headers request !! "authorization" = Some ("Bearer " ++ token)
                    ∧ verifyTokenSecure m token now = Ok u)
             ∨ handled r)).
Proof.
  intros envelope challenge_401 handled.
  assert (∀ error message, challenge_401 (unauthorized error message)) as H401.
  { intros error message. split_and!; [done| |done]. by exists error, message. }
  split.
  - destruct (authMiddleware_answers m handler request now) as (r & Hr & Hcase).
    exists r. split; [done|].
    destruct Hcase as [(error & message & ->)|Hh]; [left; apply H401|by right].
  - unfold requireRole.
    destruct (authMiddleware_answers m (roleMiddleware_handler roles handler) request now)
      as (r & Hr & Hcase).
    exists r. split; [done|].
    destruct Hcase as [(error & message & ->)|(token & u & Hh & Hv & Hret)].
    + left. apply H401.
    + unfold roleMiddleware_handler in Hret. simpl in Hret.
      destruct (_ || _).
      * injection Hret as <-. right. left. split_and!; try done.
        -- by eexists _, _.
        -- by exists token, u.
      * right. right. by exists token, u.
Qed.


End claims.

(** ** The claims on the examples *)

Section examples.
Import jsonwebtoken Jwt Example.

(** The tokens of the examples are never unfolded. *)
Local Opaque jws_sign.

Let alice_claims : payload := PObject (secure_claims (object_of alice) 1000 900).
Let nobody_claims : payload := PObject (secure_claims (object_of nobody) 1000 900).

(** A token of the login route, minted in a test run at time 1000. *)
Let login_payload : jsobj := Login.tokenPayload (JNum 7) (Some (JStr "user")).
Let login_token : string :=
  jws_sign (jwt_header HS256) (legacy_claims login_payload 1000) HS256 fallback_secret.

Lemma token_of_verifies (input : JWTPayload) :
  userId input ≠ "" → email input ≠ "" →
  generateTokenSecure test_constants input 1000 = Ok (token_of input)
  ∧ verifyTokenSecure test_constants (token_of input) 1000
    = Ok (PObject (secure_claims (object_of input) 1000 900)).
Proof.
  intros Hu He.
  by apply (secure_roundtrip test_constants input 1000 1000).
Qed.

Lemma C1_witness :
  ∃ token claims,
    generateTokenSecure test_constants alice 1000 = Ok token
    ∧ verifyTokenSecure test_constants token 1899 = Ok (PObject claims)
    ∧ claims !! "exp" = Some (JNum (1000 + 900))
    ∧ claims !! "userId" = Some (JStr "42")
    ∧ claims !! "email" = Some (JStr "alice@example.com")
    ∧ claims !! "role" = Some (JStr "user").
Proof.
  apply (C1_sign_verify_roundtrip test_env test_constants alice 1000 1899);
    [reflexivity|discriminate|discriminate|lia].
Defined.

Lemma C2_witness :
  let o : jsobj := {[ "userId" := JStr "42" ]} in
  let token := jws_sign (jwt_header HS384) o HS384 fallback_secret in
  (∀ token' u p0 p1 p2 header,
     verifyTokenSecure test_constants token' 1000 = Ok u →
     split "." token' = [p0; p1; p2] → header_of p0 = Some header →
     header !! "alg" = Some (JStr "HS256"))
  ∧ jwt_header HS384 !! "alg" = Some (JStr "HS384")
  ∧ verifyTokenSecure test_constants token 1000 = Err (plain "Invalid token format")
  ∧ verifyToken test_constants token 1000 = Ok (PObject o).
Proof.
  apply (C2_legacy_accepts_other_algorithms test_env test_constants
           {[ "userId" := JStr "42" ]} 1000); reflexivity.
Defined.

(** C3 as it was claimed fails: the token verifies, the handler throws,
    and the interceptor answers 401 instead of letting the error through. *)
Lemma C3_counterexample :
  let request := bearer (token_of alice) in
  verifyTokenSecure test_constants (token_of alice) 1000 = Ok alice_claims
  ∧ failing_handler (assign_user request alice_claims)
    = Throws (ThrownError (plain "Handler failed"))
  ∧ (authMiddleware test_constants failing_handler request 1000).2
    = Returns (unauthorized "Authentication failed" "Unable to authenticate request")
  ∧ (authMiddleware test_constants failing_handler request 1000).2
    ≠ Throws (ThrownError (plain "Handler failed")).
Proof.
  intros request.
  destruct (token_of_verifies alice) as [_ Hv]; [done..|].
  assert (headers request !! "authorization" = Some ("Bearer " ++ token_of alice))
    as Hh by apply lookup_singleton_eq.
  pose proof (authMiddleware_verified test_constants failing_handler request 1000
                _ _ Hh Hv) as ->.
  split_and!; [exact Hv|reflexivity|reflexivity|discriminate].
Qed.

Lemma C3_witness :
  let request := bearer (token_of alice) in
  let calls := [VerifyCall (token_of alice); HandlerCall (assign_user request alice_claims)] in
  let answer error message :=
    Returns {| status := 401;
               response_headers :=
                 {[ "Content-Type" := "application/json";
                    "WWW-Authenticate" := "Bearer" ]};
               response_body :=
                 JSON_stringify [("error", error); ("message", message)] |} in
  authMiddleware test_constants failing_handler request 1000
  = (calls, answer "Authentication failed" "Unable to authenticate request")
  ∧ authMiddleware test_constants
      (λ _, Throws (ThrownError (plain "session expired"))) request 1000
    = (calls, answer "Token expired" "Please refresh your token and try again").
Proof.
  intros request calls answer. split.
  - refine (C3_handler_error_is_caught test_constants failing_handler
              (bearer (token_of alice)) 1000 (token_of alice) alice_claims
              (ThrownError (plain "Handler failed")) _ _ _);
      [apply lookup_singleton_eq|apply token_of_verifies; discriminate|reflexivity].
  - refine (C3_handler_error_is_caught test_constants
              (λ _, Throws (ThrownError (plain "session expired")))
              (bearer (token_of alice)) 1000 (token_of alice) alice_claims
              (ThrownError (plain "session expired")) _ _ _);
      [apply lookup_singleton_eq|apply token_of_verifies; discriminate|reflexivity].
Defined.


(** C6 as it was claimed fails: the role of the verified token is the
    empty string, which is one of the acceptable roles, and the gate
    answers 403 instead of calling the handler. *)
Lemma C6_counterexample :
  let request := bearer (token_of nobody) in
  verifyTokenSecure test_constants (token_of nobody) 1000 = Ok nobody_claims
  ∧ claim nobody_claims "role" = Some (JStr "")
  ∧ "" ∈ [""]
  ∧ (requireRole test_constants [""] ok_handler request 1000).2 = Returns (forbidden [""])
  ∧ status (forbidden [""]) = 403%Z
  ∧ ok_handler (assign_user request nobody_claims) = Returns ok_response.
Proof.
  intros request.
  destruct (token_of_verifies nobody) as [_ Hv]; [done..|].
  assert (headers request !! "authorization" = Some ("Bearer " ++ token_of nobody))
    as Hh by apply lookup_singleton_eq.
  unfold requireRole.
  pose proof (authMiddleware_verified test_constants
                (roleMiddleware_handler [""] ok_handler) request 1000 _ _ Hh Hv) as ->.
  split_and!; [exact Hv|reflexivity|by left|reflexivity|reflexivity|reflexivity].
Qed.

Lemma C6_witness :
  let request := bearer (token_of alice) in
  let calls := [VerifyCall (token_of alice); HandlerCall (assign_user request alice_claims)] in
  requireRole test_constants ["admin"] ok_handler request 1000
  = (calls, Returns (forbidden ["admin"]))
  ∧ requireRole test_constants ["user"; "admin"] ok_handler request 1000
    = authMiddleware test_constants ok_handler request 1000.
Proof.
  apply (C6_role_gate test_constants [] ok_handler (bearer (token_of alice)) 1000
           (token_of alice) alice_claims);
    [apply lookup_singleton_eq|apply token_of_verifies; discriminate|reflexivity].
Defined.

(** C7 as it was claimed fails: in a test run without a secret in the
    environment the module loads and both constants are the built-in
    default. *)
Lemma C7_counterexample :
  env_JWT_SECRET test_env = None
  ∧ load test_env
    = Ok {| JWT_SECRET := "super-secret-key-for-workshop-demo-only";
            VALIDATED_JWT_SECRET := "super-secret-key-for-workshop-demo-only" |}.
Proof. split; reflexivity. Qed.

Lemma C8_witness :
  (∃ token, generateToken test_constants login_payload 1000 = Ok token)
  ∧ (∃ iat (claims : jsobj),
       jwt_decode login_token = Some (PObject claims)
       ∧ claims !! "iat" = Some (JNum iat)
       ∧ claims !! "exp" = Some (JNum (iat + 86400)))
  ∧ (604800 < 10 * 86400)%Z.
Proof.
  destruct (C8_token_lifetimes test_env test_constants eq_refl)
    as (Hmint & Hlegacy & _ & _ & Hratio).
  split_and!.
  - apply Hmint; reflexivity.
  - apply (Hlegacy login_payload 1000%Z login_token).
    apply (generateToken_fresh test_constants); [discriminate|reflexivity..].
  - exact Hratio.
Defined.

(** C9 as it was claimed fails: the refusal of the role gate has status
    403 and no [WWW-Authenticate] header. *)
Lemma C9_counterexample :
  let request := bearer (token_of alice) in
  ∃ response,
    (requireRole test_constants ["admin"] ok_handler request 1000).2 = Returns response
    ∧ status response = 403%Z
    ∧ response_headers response !! "WWW-Authenticate" = None.
Proof.
  intros request. exists (forbidden ["admin"]).
  destruct (token_of_verifies alice) as [_ Hv]; [done..|].
  assert (headers request !! "authorization" = Some ("Bearer " ++ token_of alice))
    as Hh by apply lookup_singleton_eq.
  unfold requireRole.
  pose proof (authMiddleware_verified test_constants
                (roleMiddleware_handler ["admin"] ok_handler) request 1000 _ _ Hh Hv) as ->.
  split_and!; reflexivity.
Qed.




End examples.

(** * The collaborators and the callers of the token service

    The rest of the code that the token service touches: the database
    helpers it is used with ([lib/database]), the password check
    ([lib/crypto]), the login route that signs tokens, the routes that
    verify them ([/api/user/[id]], [/api/profile]) and the users list of
    the same file.  The database pool, [bcrypt], the parsing of a request
    body, of a URL and of a date are outside the code; they are the
    variables of the sections below.

    Conventions, beside those above: a character has a code below 256;
    the numbers that arithmetic is done on are doubles, embedded with
    their rounding; negative zero is not told from zero. *)

(** ** JavaScript built-ins *)

Module Builtins.

(** A length or a time value: an integer that a double holds exactly,
    or [None] for [undefined] and [NaN]. *)
Definition number := option Z.

(** A double whose value is an integer, an infinity or [NaN]. *)
Inductive double :=
  | NaN
  | Fin (z : Z)
  | Infinity (negative : bool).

(** The double that is nearest to an integer, ties going to the even
    mantissa of 53 bits; an infinity from 2^1024 on. *)
Definition nearest (z : Z) : double :=
  let a := Z.abs z in
  if (a <? 2 ^ 53)%Z then Fin z
  else
    let e := (Z.log2 a - 52)%Z in
    let q := (a / 2 ^ e)%Z in
    let r := (a mod 2 ^ e)%Z in
    let q' := if (2 ^ (e - 1) <? r)%Z || ((r =? 2 ^ (e - 1))%Z && Z.odd q)
              then (q + 1)%Z else q in
    if (1024 <=? Z.log2 (q' * 2 ^ e))%Z then Infinity (z <? 0)%Z
    else Fin (Z.sgn z * (q' * 2 ^ e))%Z.

Definition isNaN (x : double) : bool :=
  match x with NaN => true | _ => false end.

(** [a < b] *)
Definition below (a b : double) : bool :=
  match a, b with
  | NaN, _ | _, NaN => false
  | Fin x, Fin y => (x <? y)%Z
  | Infinity true, Infinity true => false
  | Infinity true, _ => true
  | _, Infinity true => false
  | Infinity false, _ => false
  | Fin _, Infinity false => true
  end.

(** [Math.max(a, b)] and [Math.min(a, b)]: [NaN] when an argument is. *)
Definition Math_max (a b : double) : double :=
  match a, b with
  | NaN, _ | _, NaN => NaN
  | _, _ => if below a b then b else a
  end.

Definition Math_min (a b : double) : double :=
  match a, b with
  | NaN, _ | _, NaN => NaN
  | _, _ => if below b a then b else a
  end.

(** [a - b] and [a * b]: the exact result, rounded. *)
Definition subtract (a b : double) : double :=
  match a, b with
  | NaN, _ | _, NaN => NaN
  | Fin x, Fin y => nearest (x - y)
  | Infinity s, Fin _ => Infinity s
  | Fin _, Infinity s => Infinity (negb s)
  | Infinity s, Infinity s' => if Bool.eqb s s' then NaN else Infinity s
  end.

Definition multiply (a b : double) : double :=
  match a, b with
  | NaN, _ | _, NaN => NaN
  | Fin x, Fin y => nearest (x * y)
  | Infinity s, Fin y | Fin y, Infinity s =>
      if (y =? 0)%Z then NaN else Infinity (xorb s (y <? 0)%Z)
  | Infinity s, Infinity s' => Infinity (xorb s s')
  end.

(** [Math.ceil(t / l)] for integers that are not zero.  The quotient is
    rounded to a mantissa [q'] of 53 bits before the ceiling is taken:
    it is [q' / 2^k], with [k] chosen so that [2^52 <= q' <= 2^53]. *)
Definition ceil_quotient (t l : Z) : Z :=
  let a := Z.abs t in
  let b := Z.abs l in
  let negative := xorb (t <? 0)%Z (l <? 0)%Z in
  let k0 := (52 - (Z.log2 a - Z.log2 b))%Z in
  let k := if (2 ^ 52 * (b * 2 ^ Z.max (- k0) 0) <=? a * 2 ^ Z.max k0 0)%Z
           then k0 else (k0 + 1)%Z in
  let num := (a * 2 ^ Z.max k 0)%Z in
  let den := (b * 2 ^ Z.max (- k) 0)%Z in
  let q := (num / den)%Z in
  let r := (num mod den)%Z in
  let q' := if (den <? 2 * r)%Z || ((2 * r =? den)%Z && Z.odd q)
            then (q + 1)%Z else q in
  if (k <=? 0)%Z
  then (if negative then - (q' * 2 ^ (- k)) else q' * 2 ^ (- k))%Z
  else (if negative then - (q' / 2 ^ k) else - ((- q') / 2 ^ k))%Z.

(** [Math.ceil(a / b)] *)
Definition Math_ceil_div (a b : double) : double :=
  match a, b with
  | NaN, _ | _, NaN => NaN
  | Fin t, Fin l =>
      if (l =? 0)%Z then (if (t =? 0)%Z then NaN else Infinity (t <? 0)%Z)
      else if (t =? 0)%Z then Fin 0
      else Fin (ceil_quotient t l)
  | Infinity s, Fin l => Infinity (xorb s (l <? 0)%Z)
  | Fin _, Infinity _ => Fin 0
  | Infinity _, Infinity _ => NaN
  end.

(** White space as [trim], [parseInt] and the class [\s] see it. *)
Definition is_whitespace (a : ascii) : bool :=
  let n := nat_of_ascii a in
  (n =? 32)%nat || ((9 <=? n)%nat && (n <=? 13)%nat) || (n =? 160)%nat.

Fixpoint trim_start (s : string) : string :=
  match s with
  | EmptyString => EmptyString
  | String a t => if is_whitespace a then trim_start t else s
  end.

Fixpoint trim_end (s : string) : string :=
  match s with
  | EmptyString => EmptyString
  | String a t =>
      match trim_end t with
      | EmptyString => if is_whitespace a then EmptyString else String a EmptyString
      | t' => String a t'
      end
  end.

(** [s.trim()] *)
Definition trim (s : string) : string := trim_end (trim_start s).

Definition lower_char (a : ascii) : ascii :=
  let n := nat_of_ascii a in
  if ((65 <=? n)%nat && (n <=? 90)%nat)
     || ((192 <=? n)%nat && (n <=? 222)%nat && negb (n =? 215)%nat)
  then ascii_of_nat (n + 32) else a.

(** [s.toLowerCase()] *)
Fixpoint toLowerCase (s : string) : string :=
  match s with
  | EmptyString => EmptyString
  | String a t => String (lower_char a) (toLowerCase t)
  end.

(** The value of a character as a digit of the radix (10 or 16). *)
Definition digit_value (radix : Z) (a : ascii) : option Z :=
  let n := nat_of_ascii a in
  if ((48 <=? n)%nat && (n <=? 57)%nat)%bool then Some (Z.of_nat n - 48)%Z
  else if (radix =? 16)%Z
  then if ((97 <=? n)%nat && (n <=? 102)%nat)%bool then Some (Z.of_nat n - 87)%Z
       else if ((65 <=? n)%nat && (n <=? 70)%nat)%bool then Some (Z.of_nat n - 55)%Z
       else None
  else None.

(** The number that the leading digits of [s] write. *)
Fixpoint digits_value (radix acc : Z) (s : string) : Z :=
  match s with
  | EmptyString => acc
  | String a t =>
      match digit_value radix a with
      | Some d => digits_value radix (acc * radix + d)%Z t
      | None => acc
      end
  end.

(** [parseInt(s)] without a radix: leading white space, a sign, [0x] or
    [0X] for hexadecimal, then the longest run of digits; [NaN] when
    there is no digit, and otherwise the double nearest to the number
    that the digits write. *)
Definition parseInt (s : string) : double :=
  let s := trim_start s in
  let '(sign, s) :=
    match s with
    | String a t =>
        if Ascii.eqb a "-" then ((-1)%Z, t)
        else if Ascii.eqb a "+" then (1%Z, t)
        else (1%Z, s)
    | EmptyString => (1%Z, s)
    end in
  let '(radix, s) :=
    match s with
    | String a (String x t) =>
        if Ascii.eqb a "0" && (Ascii.eqb x "x" || Ascii.eqb x "X")
        then (16%Z, t) else (10%Z, s)
    | _ => (10%Z, s)
    end in
  match s with
  | EmptyString => NaN
  | String a _ =>
      match digit_value radix a with
      | Some _ => nearest (sign * digits_value radix 0 s)
      | None => NaN
      end
  end.

(** The decimal numeral of an integer, as [String(n)] writes it. *)
Fixpoint decimal_digits (fuel : nat) (n : N) (acc : string) : string :=
  match fuel with
  | O => acc
  | S fuel' =>
      let acc' := String (ascii_of_N (48 + n mod 10)) acc in
      if (n / 10 =? 0)%N then acc' else decimal_digits fuel' (n / 10) acc'
  end.

Definition decimal (n : Z) : string :=
  match n with
  | Z0 => "0"
  | Zpos p => decimal_digits (Pos.size_nat p) (Npos p) ""
  | Zneg p => "-" ++ decimal_digits (Pos.size_nat p) (Npos p) ""
  end.

End Builtins.

(** ** Regular expressions *)

Module Regex.

(** A regular expression over character classes; [matches] decides a
    match of the whole string, which is what [/^...$/.test] asks for. *)
Inductive regex :=
  | Never
  | Empty
  | Class (p : ascii → bool)
  | Seq (r s : regex)
  | Alt (r s : regex)
  | Star (r : regex).

Fixpoint nullable (r : regex) : bool :=
  match r with
  | Never | Class _ => false
  | Empty | Star _ => true
  | Seq r s => nullable r && nullable s
  | Alt r s => nullable r || nullable s
  end.

(** The derivative: what may follow the character [a]. *)
Fixpoint derive (a : ascii) (r : regex) : regex :=
  match r with
  | Never | Empty => Never
  | Class p => if p a then Empty else Never
  | Seq r s =>
      if nullable r then Alt (Seq (derive a r) s) (derive a s)
      else Seq (derive a r) s
  | Alt r s => Alt (derive a r) (derive a s)
  | Star r => Seq (derive a r) (Star r)
  end.

Fixpoint matches (r : regex) (s : string) : bool :=
  match s with
  | EmptyString => nullable r
  | String a t => matches (derive a r) t
  end.

(** [r+], [r{n}] and between zero and [k] times [r]. *)
Definition Plus (r : regex) : regex := Seq r (Star r).

Fixpoint Times (n : nat) (r : regex) : regex :=
  match n with O => Empty | S n' => Seq r (Times n' r) end.

Fixpoint UpTo (k : nat) (r : regex) : regex :=
  match k with O => Empty | S k' => Alt Empty (Seq r (UpTo k' r)) end.

(** [r{n,m}] *)
Definition Between (n m : nat) (r : regex) : regex := Seq (Times n r) (UpTo (m - n) r).

(** [\d] and [\S] *)
Definition digit (a : ascii) : bool :=
  let n := nat_of_ascii a in ((48 <=? n)%nat && (n <=? 57)%nat)%bool.

Definition non_space (a : ascii) : bool := negb (Builtins.is_whitespace a).

Definition char (c : ascii) : regex := Class (Ascii.eqb c).

(** The strings of an expression. *)
Inductive lang : regex → string → Prop :=
  | lang_Empty : lang Empty ""
  | lang_Class p a : p a = true → lang (Class p) (String a "")
  | lang_Seq r s x y : lang r x → lang s y → lang (Seq r s) (x ++ y)
  | lang_Alt_l r s x : lang r x → lang (Alt r s) x
  | lang_Alt_r r s x : lang s x → lang (Alt r s) x
  | lang_Star_nil r : lang (Star r) ""
  | lang_Star_cons r x y : lang r x → lang (Star r) y → lang (Star r) (x ++ y).

End Regex.

(** ** Facts about regular expressions *)

Section regex_facts.
Import Regex.

Lemma append_nil_l (y : string) : "" ++ y = y.
Proof. done. Qed.

Lemma append_cons (a : ascii) (x y : string) : String a x ++ y = String a (x ++ y).
Proof. done. Qed.

Lemma append_nil_r (x : string) : x ++ "" = x.
Proof. induction x as [|a x IH]; [done|]. by rewrite append_cons, IH. Qed.

Lemma append_eq_nil (x y : string) : x ++ y = "" → x = "" ∧ y = "".
Proof. destruct x; [done|]. rewrite append_cons. done. Qed.

Lemma append_assoc (x y z : string) : (x ++ y) ++ z = x ++ y ++ z.
Proof. induction x as [|a x IH]; [done|]. by rewrite !append_cons, IH. Qed.

Lemma nullable_lang r : nullable r = true ↔ lang r "".
Proof.
  split.
  - induction r as [| |p|r IHr s IHs|r IHr s IHs|r IHr]; simpl; try done.
    + intros _. constructor.
    + intros [Hr Hs]%andb_prop. apply (lang_Seq r s "" ""); auto.
    + intros [Hr|Hs]%orb_prop; [apply lang_Alt_l|apply lang_Alt_r]; auto.
    + intros _. constructor.
  - intros Hl. remember "" as e eqn:He.
    induction Hl as [|p a Hp|r s x y Hx IHx Hy IHy|r s x Hx IHx|r s x Hx IHx|r|r x y Hx IHx Hy IHy];
      simpl; try done.
    + apply append_eq_nil in He as [-> ->]. by rewrite IHx, IHy.
    + by rewrite IHx.
    + by rewrite IHx, orb_true_r.
Qed.

Lemma derive_lang a r s : lang (derive a r) s ↔ lang r (String a s).
Proof.
  split.
  - revert s. induction r as [| |p|r IHr t IHt|r IHr t IHt|r IHr]; simpl; intros s Hl.
    + inversion Hl.
    + inversion Hl.
    + destruct (p a) eqn:Hp; inversion Hl; subst. by constructor.
    + assert (∀ w, lang (Seq (derive a r) t) w → lang (Seq r t) (String a w)) as Hseq.
      { intros w Hw. inversion Hw as [| |? ? x y Hx Hy| | | |]; subst.
        rewrite <- append_cons. constructor; auto. }
      destruct (nullable r) eqn:Hn; [|by apply Hseq].
      inversion Hl as [| | |? ? ? Hx|? ? ? Hx| |]; subst; [by apply Hseq|].
      rewrite <- (append_nil_l (String a s)). constructor; [by apply nullable_lang|auto].
    + inversion Hl; subst; [apply lang_Alt_l|apply lang_Alt_r]; auto.
    + inversion Hl as [| |? ? x y Hx Hy| | | |]; subst.
      rewrite <- append_cons. constructor; auto.
  - intros Hl. remember (String a s) as w eqn:Hw. revert s Hw.
    induction Hl as [|p b Hp|r t x y Hx IHx Hy IHy|r t x Hx IHx|r t x Hx IHx|r|r x y Hx IHx Hy IHy];
      intros s Hw; simpl; try done.
    + injection Hw as -> <-. rewrite Hp. constructor.
    + destruct x as [|b x].
      * rewrite append_nil_l in Hw. subst y.
        apply nullable_lang in Hx. rewrite Hx. apply lang_Alt_r. by apply IHy.
      * rewrite append_cons in Hw. injection Hw as -> <-.
        assert (lang (Seq (derive a r) t) (x ++ y)) by (constructor; auto).
        destruct (nullable r); [by apply lang_Alt_l|done].
    + apply lang_Alt_l; auto.
    + apply lang_Alt_r; auto.
    + destruct x as [|b x].
      * rewrite append_nil_l in Hw. by apply IHy.
      * rewrite append_cons in Hw. injection Hw as -> <-.
        constructor; auto.
Qed.

(** [matches] decides the language. *)
Lemma matches_lang r s : matches r s = true ↔ lang r s.
Proof.
  revert r. induction s as [|a s IH]; intros r; simpl.
  - apply nullable_lang.
  - rewrite IH. apply derive_lang.
Qed.

Lemma lang_Class_inv p s : lang (Class p) s ↔ ∃ a, s = String a "" ∧ p a = true.
Proof.
  split.
  - intros Hl. inversion Hl; subst. eauto.
  - intros (a & -> & Hp). by constructor.
Qed.

Lemma lang_Seq_inv r t s : lang (Seq r t) s ↔ ∃ x y, s = x ++ y ∧ lang r x ∧ lang t y.
Proof.
  split.
  - intros Hl. inversion Hl; subst. eauto.
  - intros (x & y & -> & Hx & Hy). by constructor.
Qed.

Lemma lang_Star_class p s : lang (Star (Class p)) s ↔ forallb_string p s = true.
Proof.
  split.
  - intros Hl. remember (Star (Class p)) as r eqn:Hr.
    induction Hl as [| | | | | |r x y Hx _ Hy IHy]; try done.
    injection Hr as ->. apply lang_Class_inv in Hx as (a & -> & Hp).
    rewrite append_cons, append_nil_l. simpl. by rewrite Hp, IHy.
  - induction s as [|a s IH]; simpl; [constructor|].
    intros [Hp Hs]%andb_prop.
    change (String a s) with (String a "" ++ s). constructor; [by constructor|auto].
Qed.

Lemma lang_Plus_class p s :
  lang (Plus (Class p)) s ↔ s ≠ "" ∧ forallb_string p s = true.
Proof.
  unfold Plus. rewrite lang_Seq_inv. split.
  - intros (x & y & -> & (a & -> & Hp)%lang_Class_inv & Hy%lang_Star_class).
    rewrite append_cons, append_nil_l. simpl. by rewrite Hp, Hy.
  - destruct s as [|a s]; [by intros [? _]|]. simpl.
    intros [_ [Hp Hs]%andb_prop]. exists (String a ""), s.
    split_and!; [done|by constructor|by apply lang_Star_class].
Qed.

Lemma lang_Times_class p n s :
  lang (Times n (Class p)) s ↔ String.length s = n ∧ forallb_string p s = true.
Proof.
  revert s. induction n as [|n IH]; intros s; simpl.
  - split.
    + intros Hl. by inversion Hl.
    + destruct s; [constructor|by intros [? _]].
  - rewrite lang_Seq_inv. split.
    + intros (x & y & -> & (a & -> & Hp)%lang_Class_inv & [Hn Hy]%IH).
      rewrite append_cons, append_nil_l. simpl. by rewrite Hp, Hy, Hn.
    + destruct s as [|a s]; [by intros [? _]|]. simpl.
      intros [[= Hn] [Hp Hs]%andb_prop]. exists (String a ""), s.
      split_and!; [done|by constructor|by apply IH].
Qed.

Lemma lang_UpTo_class p k s :
  lang (UpTo k (Class p)) s ↔ (String.length s ≤ k)%nat ∧ forallb_string p s = true.
Proof.
  revert s. induction k as [|k IH]; intros s; simpl.
  - split.
    + intros Hl. by inversion Hl.
    + destruct s; [constructor|]. simpl. intros [? _]. lia.
  - split.
    + intros Hl. inversion Hl as [| | |? ? ? Hx|? ? ? Hx| |]; subst.
      * inversion Hx. simpl. split; [lia|done].
      * apply lang_Seq_inv in Hx as (x & y & -> & (a & -> & Hp)%lang_Class_inv & [Hn Hy]%IH).
        rewrite append_cons, append_nil_l. simpl. rewrite Hp, Hy. split; [lia|done].
    + destruct s as [|a s]; [intros _; apply lang_Alt_l; constructor|]. simpl.
      intros [Hn [Hp Hs]%andb_prop]. apply lang_Alt_r.
      change (String a s) with (String a "" ++ s).
      constructor; [by constructor|apply IH; split; [lia|done]].
Qed.

Lemma split_at (n : nat) (s : string) :
  (n ≤ String.length s)%nat → ∃ x y, s = x ++ y ∧ String.length x = n.
Proof.
  revert s. induction n as [|n IH]; intros s Hn; [by exists "", s|].
  destruct s as [|a s]; simpl in Hn; [lia|].
  destruct (IH s ltac:(lia)) as (x & y & -> & Hx).
  exists (String a x), y. split; [done|]. simpl. by rewrite Hx.
Qed.

(** [Class p{n,m}] accepts the strings of [n] to [m] characters of the
    class. *)
Lemma matches_Between_class p n m s :
  (n ≤ m)%nat →
  matches (Between n m (Class p)) s = true
  ↔ (n ≤ String.length s ≤ m)%nat ∧ forallb_string p s = true.
Proof.
  intros Hnm. rewrite matches_lang. unfold Between. rewrite lang_Seq_inv. split.
  - intros (x & y & -> & [Hx Hpx]%lang_Times_class & [Hy Hpy]%lang_UpTo_class).
    rewrite length_append, forallb_string_append, Hpx, Hpy. split; [lia|done].
  - intros [Hlen Hp].
    destruct (split_at n s ltac:(lia)) as (x & y & -> & Hx).
    rewrite length_append in Hlen. rewrite forallb_string_append in Hp.
    apply andb_prop in Hp as [Hpx Hpy].
    exists x, y. split_and!; [done|by apply lang_Times_class|].
    apply lang_UpTo_class. split; [lia|done].
Qed.

End regex_facts.

(** ** Facts about doubles *)

Section double_facts.
Import Builtins.

Lemma nearest_exact (z : Z) : (Z.abs z < 2 ^ 53)%Z → nearest z = Fin z.
Proof. intros Hz. unfold nearest. by apply Z.ltb_lt in Hz as ->. Qed.

Lemma isNaN_nearest (z : Z) : isNaN (nearest z) = false.
Proof. unfold nearest. by repeat case_match. Qed.

(** Rounding keeps the sign. *)
Lemma nearest_nonneg (z : Z) :
  (0 ≤ z)%Z → nearest z = Infinity false ∨ ∃ v, nearest z = Fin v ∧ (0 ≤ v)%Z.
Proof.
  intros Hz. unfold nearest. cbv zeta.
  destruct (Z.abs z <? 2 ^ 53)%Z; [right; by exists z|].
  set (e := (Z.log2 (Z.abs z) - 52)%Z).
  set (q := (Z.abs z / 2 ^ e)%Z).
  set (q' := if _ : bool then (q + 1)%Z else q).
  assert (0 ≤ 2 ^ e)%Z as He by (apply Z.pow_nonneg; lia).
  assert (0 ≤ q)%Z as Hq by (apply Z_div_nonneg_nonneg; lia).
  assert (0 ≤ q')%Z as Hq' by (subst q'; case_match; lia).
  destruct (1024 <=? _)%Z.
  - left. f_equal. lia.
  - right. eexists. split; [done|]. nia.
Qed.

(** Where the dividend is a safe integer and the divisor is positive,
    the rounding of the quotient does not move its ceiling. *)
Lemma ceil_quotient_exact (t l : Z) :
  t ≠ 0%Z → (Z.abs t < 2 ^ 53)%Z → (1 ≤ l)%Z →
  ceil_quotient t l = (- ((- t) / l))%Z.
Proof.
  intros Ht0 Ht Hl. unfold ceil_quotient. cbv zeta.
  rewrite (Z.abs_eq l) by lia.
  replace (l <? 0)%Z with false by lia. rewrite xorb_false_r.
  assert (- (- t / l) = if (t <? 0)%Z then - (Z.abs t / l) else - (- Z.abs t / l))%Z
    as -> by (case_match; [rewrite Z.abs_neq by lia|rewrite Z.abs_eq by lia]; done).
  set (a := Z.abs t) in *. assert (0 < a)%Z as Ha by lia.
  generalize (t <? 0)%Z as negative. clearbody a. clear t Ht0.
  intros negative.
  pose proof (Z.log2_spec a ltac:(lia)) as Hlt.
  pose proof (Z.log2_spec l ltac:(lia)) as Hll.
  pose proof (Z.log2_nonneg a) as Hlt0.
  pose proof (Z.log2_nonneg l) as Hll0.
  assert (Z.log2 a < 53)%Z as Hlt53 by (apply Z.log2_lt_pow2; lia).
  set (k0 := (52 - (Z.log2 a - Z.log2 l))%Z).
  assert (0 ≤ k0)%Z as Hk0 by (subst k0; lia).
  rewrite (Z.max_l k0 0), (Z.max_r (- k0) 0) by lia.
  set (k := if _ : bool then k0 else (k0 + 1)%Z).
  assert (0 ≤ k ∧ 2 ^ 52 * l ≤ a * 2 ^ k)%Z as [Hk HP].
  { subst k. case_match eqn:Htest.
    - split; [done|]. apply Z.leb_le in Htest. lia.
    - split; [lia|].
      replace (k0 + 1)%Z with ((53 - Z.log2 a) + Z.log2 l)%Z by (subst k0; lia).
      rewrite Z.pow_add_r by lia.
      assert (2 ^ Z.log2 a * 2 ^ (53 - Z.log2 a) = 2 ^ 53)%Z as E
        by (rewrite <-Z.pow_add_r by lia; f_equal; lia).
      assert (2 * 2 ^ Z.log2 l = 2 ^ Z.succ (Z.log2 l))%Z as E'
        by (rewrite Z.pow_succ_r by lia; lia).
      assert (0 < 2 ^ (53 - Z.log2 a))%Z by (apply Z.pow_pos_nonneg; lia).
      assert (0 < 2 ^ Z.log2 l)%Z by (apply Z.pow_pos_nonneg; lia).
      set (A := (2 ^ Z.log2 a)%Z) in *. set (B := (2 ^ (53 - Z.log2 a))%Z) in *.
      set (C := (2 ^ Z.log2 l)%Z) in *.
      assert (2 ^ 53 ≤ a * B)%Z as H1 by (rewrite <-E; nia).
      clearbody A B C. clear E Hlt.
      assert (2 ^ 53 * C ≤ a * B * C)%Z as H2
        by (apply Z.mul_le_mono_nonneg_r; lia).
      replace (a * (B * C))%Z with (a * B * C)%Z by lia.
      lia. }
  clearbody k. clear k0 Hk0.
  rewrite (Z.max_l k 0), (Z.max_r (- k) 0) by lia.
  change (2 ^ 0)%Z with 1%Z. rewrite Z.mul_1_r.
  set (K := (2 ^ k)%Z) in *.
  assert (0 < K)%Z as HK by (apply Z.pow_pos_nonneg; lia).
  assert (l < 2 * K)%Z as HlK by nia.
  pose proof (Z.div_mod (a * K) l ltac:(lia)) as Hq.
  pose proof (Z.mod_pos_bound (a * K) l ltac:(lia)) as Hr.
  pose proof (Z.div_mod a l ltac:(lia)) as Hn.
  pose proof (Z.mod_pos_bound a l ltac:(lia)) as Hr0.
  set (q := (a * K / l)%Z) in *. set (r := ((a * K) mod l)%Z) in *.
  set (n := (a / l)%Z) in *. set (r0 := (a mod l)%Z) in *.
  set (q' := if _ : bool then (q + 1)%Z else q).
  assert ((- (- a / l)) = if (r0 =? 0)%Z then n else n + 1)%Z as ->.
  { case_match eqn:E0.
    - apply Z.eqb_eq in E0.
      assert (- a / l = - n)%Z as ->; [|lia].
      symmetry. apply (Z.div_unique _ _ _ 0); lia.
    - apply Z.eqb_neq in E0.
      assert (- a / l = - (n + 1))%Z as ->; [|lia].
      symmetry. apply (Z.div_unique _ _ _ (l - r0)); lia. }
  assert (if (r0 =? 0)%Z then q' = n * K else n * K < q' < (n + 1) * K)%Z as Hq'.
  { case_match eqn:E0.
    - apply Z.eqb_eq in E0.
      assert (a * K = l * (n * K) + 0)%Z as Hex by (rewrite Hn at 1; nia).
      assert (q = n * K)%Z as Eq
        by (symmetry; apply (Z.div_unique _ _ _ 0); [lia|exact Hex]).
      assert (r = 0)%Z as Er by (rewrite Eq in Hq; lia).
      subst q'. rewrite Er, Eq.
      replace (l <? 2 * 0)%Z with false by lia.
      replace (2 * 0 =? l)%Z with false by lia. done.
    - apply Z.eqb_neq in E0.
      assert (n * K ≤ q < (n + 1) * K)%Z as Hqn by nia.
      subst q'. case_match eqn:Hround.
      + split; [lia|].
        assert (q ≠ (n + 1) * K - 1)%Z; [|lia].
        intros Eq. rewrite Eq in Hq.
        assert (r = l - K * (l * (n + 1) - a))%Z as Er by lia.
        assert (K * 1 ≤ K * (l * (n + 1) - a))%Z
          by (apply Z.mul_le_mono_nonneg_l; lia).
        assert (2 * r < l)%Z as Hlow by lia.
        apply orb_true_iff in Hround as [Hround|Hround].
        * apply Z.ltb_lt in Hround. lia.
        * apply andb_true_iff in Hround as [Hround%Z.eqb_eq _]. lia.
      + split; [|lia].
        apply orb_false_iff in Hround as [Hround _].
        apply Z.ltb_ge in Hround.
        assert (q ≠ n * K)%Z; [|lia].
        intros Eq. rewrite Eq in Hq.
        assert (r = r0 * K)%Z as Er by (rewrite Hn in Hq; lia).
        assert (1 * K ≤ r0 * K)%Z by (apply Z.mul_le_mono_nonneg_r; lia).
        lia. }
  assert (q' / K = n)%Z as Hfloor.
  { case_match eqn:E0.
    - rewrite Hq'. apply Z.div_mul. lia.
    - symmetry. apply (Z.div_unique _ _ _ (q' - n * K)); lia. }
  destruct (k <=? 0)%Z eqn:Hk'.
  - apply Z.leb_le in Hk'. assert (k = 0)%Z as -> by lia.
    change (- 0)%Z with 0%Z. subst K. change (2 ^ 0)%Z with 1%Z in *.
    rewrite Z.div_1_r in Hfloor.
    destruct negative; [lia|]. case_match; lia.
  - destruct negative; [lia|]. case_match eqn:E0.
    + rewrite Hq'. replace (- (n * K))%Z with ((- n) * K)%Z by lia.
      rewrite Z.div_mul by lia. lia.
    + assert (- q' / K = - (n + 1))%Z as ->; [|lia].
      symmetry. apply (Z.div_unique _ _ _ ((n + 1) * K - q')); lia.
Qed.

Lemma ceil_div_exact (t l : Z) :
  (Z.abs t < 2 ^ 53)%Z → (1 ≤ l)%Z →
  Math_ceil_div (Fin t) (Fin l) = Fin (- ((- t) / l)).
Proof.
  intros Ht Hl. unfold Math_ceil_div.
  replace (l =? 0)%Z with false by lia.
  destruct (t =? 0)%Z eqn:E.
  - apply Z.eqb_eq in E as ->. done.
  - apply Z.eqb_neq in E. f_equal. by apply ceil_quotient_exact.
Qed.

End double_facts.

(** ** [lib/database]: queries, retries and transactions *)

Module Database.
Import Builtins.

(** *** The configuration of the pool *)

(** [process.env] *)
Definition env := gmap string string.

Definition requiredVars : list string := ["DB_USER"; "DB_HOST"; "DB_NAME"; "DB_PASSWORD"].

(** [!process.env[varName]] *)
Definition unset (e : env) (varName : string) : bool :=
  match e !! varName with
  | Some value => value =? ""
  | None => true
  end.

Definition production (e : env) : bool :=
  match e !! "NODE_ENV" with
  | Some mode => mode =? "production"
  | None => false
  end.

Definition validateEnvVars (e : env) : result js_error unit :=
  let missing := List.filter (unset e) requiredVars in
  if (0 <? List.length missing)%nat && production e
  then Err (jsonwebtoken.plain
              ("Missing required environment variables: " ++ join ", " missing))
  else Ok ().

(** [process.env[varName] || fallback] *)
Definition env_or (e : env) (varName fallback : string) : string :=
  match e !! varName with
  | Some value => if value =? "" then fallback else value
  | None => fallback
  end.

(** [ssl] is [Some false] for [{ rejectUnauthorized: false }] and [None]
    for [false]. *)
Record PoolConfig := {
  pool_user : string;
  pool_host : string;
  pool_database : string;
  pool_password : string;
  pool_port : double;
  pool_max : Z;
  pool_min : Z;
  idleTimeoutMillis : Z;
  connectionTimeoutMillis : Z;
  pool_ssl : option bool;
  keepAlive : bool;
  keepAliveInitialDelayMillis : Z
}.

Definition poolConfig (e : env) : PoolConfig :=
  {| pool_user := env_or e "DB_USER" "postgres";
     pool_host := env_or e "DB_HOST" "localhost";
     pool_database := env_or e "DB_NAME" "workshop_db";
     pool_password := env_or e "DB_PASSWORD" "admin123";
     pool_port := parseInt (env_or e "DB_PORT" "5432");
     pool_max := if production e then 20 else 10;
     pool_min := 2;
     idleTimeoutMillis := 10000;
     connectionTimeoutMillis := 5000;
     pool_ssl := if production e then Some false else None;
     keepAlive := true;
     keepAliveInitialDelayMillis := 10000 |}.

(** Loading the module: the configuration of the pool, or the error
    that the top-level call of [validateEnvVars] throws. *)
Definition load (e : env) : result js_error PoolConfig :=
  match validateEnvVars e with
  | Err error => Err error
  | Ok _ => Ok (poolConfig e)
  end.

(** *** Queries *)

(** What [pg] throws: an [Error] with a message and, for connection
    failures, a code; or any other value, of which the code only asks
    whether it is truthy. *)
Record pg_error := { pg_message : string; pg_code : option string }.

Inductive db_thrown :=
  | ThrownPg (e : pg_error)
  | ThrownOther (truthy : bool).

(** A query parameter; [None] is [undefined]. *)
Definition param := option jsval.

(** A call of [pool.query]. *)
Definition call := (string * list param)%type.

(** The pool: what [pool.query(query, params)] gives after the calls
    made so far. *)
Definition pool := list call → string → list param → result db_thrown (list jsobj).

Definition retryableErrors : list string :=
  ["ECONNRESET"; "ECONNREFUSED"; "ETIMEDOUT"; "connection terminated unexpectedly"].

Definition isRetryableError (error : db_thrown) : bool :=
  match error with
  | ThrownPg e =>
      existsb (λ errType,
                 includes (pg_message e) errType
                 || match pg_code e with Some c => c =? errType | None => false end)
              retryableErrors
  | ThrownOther _ => false
  end.

(** [Math.min(1000 * Math.pow(2, attempt - 1), 5000)] for an attempt that
    is at least 1, as the attempts of the loop are. *)
Definition backoff (attempt : Z) : Z := Z.min (1000 * 2 ^ (attempt - 1)) 5000.

(** [lastError || new Error('Query failed with unknown error')] *)
Definition last_or_unknown (lastError : option db_thrown) : db_thrown :=
  match lastError with
  | Some (ThrownPg e) => ThrownPg e
  | Some (ThrownOther true) => ThrownOther true
  | Some (ThrownOther false) | None =>
      ThrownPg {| pg_message := "Query failed with unknown error"; pg_code := None |}
  end.

(** What a retried query leaves: the calls made, the delays waited for
    (milliseconds) and the rows or the error thrown. *)
Record retried := {
  calls_made : list call;
  delays : list Z;
  settled : result db_thrown (list jsobj)
}.

Section queries.
Variable pool_query : pool.

(** [executeQuery(query, params)] after the calls of [log]: the log with
    this call, and the rows or the error thrown.  The message of a thrown
    [Error] is prefixed. *)
Definition executeQuery (log : list call) (query : string) (params : list param)
    : list call * result db_thrown (list jsobj) :=
  ((log ++ [(query, params)])%list,
   match pool_query log query params with
   | Ok result => Ok result
   | Err (ThrownPg error) =>
       Err (ThrownPg {| pg_message := "Database query failed: " ++ pg_message error;
                        pg_code := pg_code error |})
   | Err error => Err error
   end).

(** The loop of [executeQueryWithRetry] from [attempt] on; [fuel] bounds
    the iterations that are left. *)
Fixpoint retry_loop (fuel : nat) (attempt maxRetries : Z) (log : list call)
    (query : string) (params : list param) (waited : list Z)
    (lastError : option db_thrown) : retried :=
  match fuel with
  | O => {| calls_made := log; delays := waited;
            settled := Err (last_or_unknown lastError) |}
  | S fuel' =>
      if (attempt <=? maxRetries)%Z
      then
        match executeQuery log query params with
        | (log', Ok result) =>
            {| calls_made := log'; delays := waited; settled := Ok result |}
        | (log', Err error) =>
            if (attempt <? maxRetries)%Z && isRetryableError error
            then retry_loop fuel' (attempt + 1) maxRetries log' query params
                            (waited ++ [backoff attempt])%list (Some error)
            else {| calls_made := log'; delays := waited;
                    settled := Err (last_or_unknown (Some error)) |}
        end
      else {| calls_made := log; delays := waited;
              settled := Err (last_or_unknown lastError) |}
  end.

(** [executeQueryWithRetry(query, params, maxRetries)] for a whole number
    of retries. *)
Definition executeQueryWithRetry (log : list call) (query : string)
    (params : list param) (maxRetries : Z) : retried :=
  retry_loop (Z.to_nat maxRetries) 1 maxRetries log query params [] None.

End queries.

(** *** Transactions *)

(** What happens on the client of a transaction. *)
Inductive client_event :=
  | ClientQuery (text : string) (values : option (list param))
  | Release.

(** The client: what [client.query(text, values)] gives after the events
    so far. *)
Definition client :=
  list client_event → string → option (list param) → result db_thrown (list jsobj).

Section transactions.
Variable T : Type.
Variable client_query : client.

Definition run_query (log : list client_event) (text : string)
    (values : option (list param)) : list client_event * result db_thrown (list jsobj) :=
  ((log ++ [ClientQuery text values])%list, client_query log text values).

(** The [for] loop over the queries of a transaction. *)
Fixpoint run_all (log : list client_event) (queries : list (string * option (list param)))
    : list client_event * result db_thrown unit :=
  match queries with
  | [] => (log, Ok ())
  | (text, values) :: rest =>
      match run_query log text values with
      | (log', Ok _) => run_all log' rest
      | (log', Err error) => (log', Err error)
      end
  end.

(** The [catch] and [finally] clauses: roll back, release, and throw the
    error, or the error of the rollback when that throws. *)
Definition rollback_release (log : list client_event) (error : db_thrown)
    : list client_event * result db_thrown (option T) :=
  match run_query log "ROLLBACK" None with
  | (log', Ok _) => ((log' ++ [Release])%list, Err error)
  | (log', Err error') => ((log' ++ [Release])%list, Err error')
  end.

(** The [try] statement of [executeTransaction], on the client that
    [pool.connect()] gave.  The callback works on the client: it takes
    the events so far to the events after it and to its result.  Without
    a callback the result is [undefined], here [None]. *)
Definition with_client (queries : list (string * option (list param)))
    (callback : option (list client_event → list client_event * result db_thrown T))
    (log : list client_event) : list client_event * result db_thrown (option T) :=
  match run_query log "BEGIN" None with
  | (log, Err error) => rollback_release log error
  | (log, Ok _) =>
      match callback with
      | Some callback =>
          match callback log with
          | (log, Err error) => rollback_release log error
          | (log, Ok result) =>
              match run_query log "COMMIT" None with
              | (log, Err error) => rollback_release log error
              | (log, Ok _) => ((log ++ [Release])%list, Ok (Some result))
              end
          end
      | None =>
          match run_all log queries with
          | (log, Err error) => rollback_release log error
          | (log, Ok _) =>
              match run_query log "COMMIT" None with
              | (log, Err error) => rollback_release log error
              | (log, Ok _) => ((log ++ [Release])%list, Ok None)
              end
          end
      end
  end.

End transactions.

(** [executeTransaction(queries, callback)].  [pool.connect()] is awaited
    before the [try]: when it rejects, the rejection is thrown as it is
    and nothing is rolled back or released. *)
Definition executeTransaction (T : Type) (connect : result db_thrown client)
    (queries : list (string * option (list param)))
    (callback : option (list client_event → list client_event * result db_thrown T))
    (log : list client_event) : list client_event * result db_thrown (option T) :=
  match connect with
  | Err error => (log, Err error)
  | Ok client_query => with_client T client_query queries callback log
  end.

End Database.

(** ** Facts about [lib/database] *)

Section database_facts.
Import Builtins Database.

Lemma includes_after_prefix (message errType : string) :
  errType ∈ retryableErrors →
  includes ("Database query failed: " ++ message) errType = includes message errType.
Proof.
  unfold retryableErrors. intros Hin.
  repeat (apply elem_of_cons in Hin as [->|Hin]; [by cbn|]).
  by apply elem_of_nil in Hin.
Qed.

(** X1. The prefix that [executeQuery] puts before the message of an
    error does not change whether [isRetryableError] takes the error for
    a connection failure. *)
Theorem X1_prefix_keeps_retryable (error : pg_error) :
  isRetryableError
    (ThrownPg {| pg_message := "Database query failed: " ++ pg_message error;
                 pg_code := pg_code error |})
  = isRetryableError (ThrownPg error).
Proof.
  unfold isRetryableError. simpl pg_message. simpl pg_code.
  assert (∀ l, (∀ x, x ∈ l → x ∈ retryableErrors) →
    existsb (λ errType,
      includes ("Database query failed: " ++ pg_message error) errType
      || match pg_code error with Some c => c =? errType | None => false end) l
    = existsb (λ errType,
      includes (pg_message error) errType
      || match pg_code error with Some c => c =? errType | None => false end) l) as Hl.
  { induction l as [|x l IH]; intros Hin; [done|]. cbn [existsb].
    rewrite includes_after_prefix by (apply Hin; by left).
    rewrite IH; [done|]. intros y Hy. apply Hin. by right. }
  by apply Hl.
Qed.

(** [executeQuery] makes its one call and gives the rows of the pool or
    throws. *)
Lemma executeQuery_cases (pool_query : pool) (log : list call) (query : string)
    (params : list param) :
  (∃ rows, pool_query log query params = Ok rows
           ∧ executeQuery pool_query log query params
             = ((log ++ [(query, params)])%list, Ok rows))
  ∨ (∃ e, (∃ e0, pool_query log query params = Err e0)
          ∧ executeQuery pool_query log query params
            = ((log ++ [(query, params)])%list, Err e)).
Proof.
  unfold executeQuery.
  destruct (pool_query log query params) as [rows|[e|t]] eqn:Hq;
    [left; by exists rows|right; eexists; split; [by eexists|done]..].
Qed.

Section retry.
Variable pool_query : pool.
Variables (query : string) (params : list param) (maxRetries : Z).

(** The outcome of the call of [executeQuery] that comes after [j]
    earlier calls of the same query. *)
Definition outcome_after (log : list call) (j : nat) : result db_thrown (list jsobj) :=
  (executeQuery pool_query (log ++ replicate j (query, params))%list query params).2.

Lemma retry_loop_spec fuel attempt log waited lastError :
  (attempt + Z.of_nat fuel = maxRetries + 1)%Z →
  let R := retry_loop pool_query fuel attempt maxRetries log query params waited lastError in
  ∃ k : nat,
    (k ≤ fuel)%nat ∧ (fuel = 0 ∨ 1 ≤ k)%nat
    ∧ calls_made R = (log ++ replicate k (query, params))%list
    ∧ delays R = (waited ++ (backoff <$> seqZ attempt (Z.of_nat (k - 1))))%list
    ∧ (∀ j, (j + 1 < k)%nat →
         ∃ e, outcome_after log j = Err e ∧ isRetryableError e = true)
    ∧ match settled R with
      | Ok rows => ∃ j, k = S j ∧ outcome_after log j = Ok rows
      | Err e =>
          (k = 0%nat ∧ e = last_or_unknown lastError)
          ∨ (∃ j e0, k = S j ∧ outcome_after log j = Err e0
                     ∧ e = last_or_unknown (Some e0)
                     ∧ (k = fuel ∨ isRetryableError e0 = false))
      end.
Proof.
  revert attempt log waited lastError.
  induction fuel as [|fuel IH]; intros attempt log waited lastError Hfuel R.
  - exists 0%nat. subst R. simpl. rewrite !app_nil_r.
    split_and!; [done|by left|done|done|intros j ?; lia|by left].
  - subst R. cbn [retry_loop].
    destruct (attempt <=? maxRetries)%Z eqn:Hle; [|apply Z.leb_gt in Hle; lia].
    assert (outcome_after log 0 = (executeQuery pool_query log query params).2) as H0
      by (unfold outcome_after; simpl; by rewrite app_nil_r).
    destruct (executeQuery pool_query log query params) as [log' [rows|error]] eqn:Hq;
      assert (log' = (log ++ [(query, params)])%list) as ->
        by (unfold executeQuery in Hq; by injection Hq as <- _).
    + exists 1%nat. simpl. rewrite app_nil_r.
      split_and!; [lia|right; lia|done|done|intros j ?; lia|by exists 0%nat].
    + destruct ((attempt <? maxRetries)%Z && isRetryableError error) eqn:Hretry.
      * apply andb_prop in Hretry as [Hlt%Z.ltb_lt Hr].
        destruct (IH (attempt + 1)%Z (log ++ [(query, params)])%list
                    (waited ++ [backoff attempt])%list (Some error) ltac:(lia))
          as (k & Hk & Hk1 & Hcalls & Hdelays & Hearlier & Hsettled).
        assert (1 ≤ k)%nat as Hk1' by (destruct Hk1; lia).
        assert (∀ j, outcome_after (log ++ [(query, params)])%list j
                     = outcome_after log (S j)) as Hshift.
        { intros j. unfold outcome_after. simpl. by rewrite <- app_assoc. }
        exists (S k). split_and!; [lia|right; lia| | | |].
        -- rewrite Hcalls. simpl. by rewrite <- app_assoc.
        -- rewrite Hdelays, <- app_assoc. f_equal. simpl.
           replace (Z.of_nat (k - 0)) with (Z.succ (Z.of_nat (k - 1))) by lia.
           rewrite (seqZ_cons attempt), Z.pred_succ by lia.
           by replace (Z.succ attempt) with (attempt + 1)%Z by lia.
        -- intros [|j] Hj; [exists error; by rewrite H0|].
           rewrite <- Hshift. apply Hearlier. lia.
        -- destruct (settled _) as [rows|e].
           ++ destruct Hsettled as (j & -> & Hj). exists (S j). by rewrite <- Hshift.
           ++ destruct Hsettled as [[-> _]|(j & e0 & -> & Hj & -> & Hstop)]; [lia|].
              right. exists (S j), e0. rewrite <- Hshift.
              split_and!; [done..|]. destruct Hstop; [left; lia|by right].
      * exists 1%nat. simpl. rewrite app_nil_r.
        split_and!; [lia|right; lia|done|done|intros j ?; lia|].
        right. exists 0%nat, error. rewrite H0. split_and!; [done..|].
        apply andb_false_iff in Hretry as [Hlt%Z.ltb_ge|Hr]; [left; lia|by right].
Qed.

Lemma backoff_bounds (attempt : Z) :
  (1 ≤ attempt)%Z → (1000 ≤ backoff attempt ≤ 5000)%Z.
Proof.
  intros H. unfold backoff.
  assert (0 < 2 ^ (attempt - 1))%Z by (apply Z.pow_pos_nonneg; lia). lia.
Qed.

End retry.

(** X2. [executeQueryWithRetry] calls [executeQuery] with the same query
    and parameters [k] times in a row, with [k] at most [maxRetries]; it
    waits [backoff 1], ..., [backoff (k - 1)] between the calls; every
    call but the last threw a retryable error; and it returns the rows
    of the last call, or throws the error of the last call, which
    happens only when that error is not retryable or the retries are
    used up.  With no retries allowed it makes no call and throws
    [Query failed with unknown error]. *)
Theorem X2_retry_outcome (pool_query : pool) (log : list call) (query : string)
    (params : list param) (maxRetries : Z) :
  let R := executeQueryWithRetry pool_query log query params maxRetries in
  ∃ k : nat,
    (Z.of_nat k ≤ Z.max 0 maxRetries)%Z
    ∧ calls_made R = (log ++ replicate k (query, params))%list
    ∧ delays R = backoff <$> seqZ 1 (Z.of_nat (k - 1))
    ∧ (∀ j, (j + 1 < k)%nat →
         ∃ e, outcome_after pool_query query params log j = Err e
              ∧ isRetryableError e = true)
    ∧ match settled R with
      | Ok rows =>
          ∃ j, k = S j ∧ outcome_after pool_query query params log j = Ok rows
      | Err e =>
          (k = 0%nat ∧ (maxRetries ≤ 0)%Z
           ∧ e = ThrownPg {| pg_message := "Query failed with unknown error";
                             pg_code := None |})
          ∨ (∃ j e0, k = S j
               ∧ outcome_after pool_query query params log j = Err e0
               ∧ e = last_or_unknown (Some e0)
               ∧ (Z.of_nat k = maxRetries ∨ isRetryableError e0 = false))
      end.
Proof.
  intros R. subst R. unfold executeQueryWithRetry.
  destruct (Z.le_gt_cases maxRetries 0) as [Hle|Hgt].
  - replace (Z.to_nat maxRetries) with 0%nat by lia. simpl.
    exists 0%nat. rewrite app_nil_r.
    split_and!; [lia|done|done|intros j ?; lia|by left].
  - destruct (retry_loop_spec pool_query query params maxRetries
                (Z.to_nat maxRetries) 1 log [] None ltac:(lia))
      as (k & Hk & Hk1 & Hcalls & Hdelays & Hearlier & Hsettled).
    exists k. split_and!; [lia|done|done|done|].
    destruct (settled _) as [rows|e]; [done|].
    destruct Hsettled as [[-> _]|(j & e0 & -> & Hj & -> & Hstop)]; [lia|].
    right. exists j, e0. split_and!; [done..|].
    destruct Hstop; [left; lia|by right].
Qed.

(** X3. An error that is not retryable is never retried: when the first
    call throws one, [executeQueryWithRetry] makes that one call, waits
    for nothing and throws that error, whatever [maxRetries] allows. *)
Theorem X3_no_retry_of_other_errors (pool_query : pool) (log : list call)
    (query : string) (params : list param) (maxRetries : Z) (e : db_thrown) :
  (1 ≤ maxRetries)%Z →
  (executeQuery pool_query log query params).2 = Err e →
  isRetryableError e = false →
  executeQueryWithRetry pool_query log query params maxRetries
  = {| calls_made := (log ++ [(query, params)])%list; delays := [];
       settled := Err (last_or_unknown (Some e)) |}.
Proof.
  intros Hmax Hq He. unfold executeQueryWithRetry.
  destruct (Z.to_nat maxRetries) as [|fuel] eqn:Hfuel; [lia|].
  cbn [retry_loop].
  destruct (1 <=? maxRetries)%Z eqn:Hle; [|apply Z.leb_gt in Hle; lia].
  destruct (executeQuery pool_query log query params) as [log' [rows|error]] eqn:Hq';
    assert (log' = (log ++ [(query, params)])%list) as ->
      by (unfold executeQuery in Hq'; by injection Hq' as <- _);
    simpl in Hq; [done|].
  injection Hq as ->. by rewrite He, andb_false_r.
Qed.

(** X4. The waiting of [executeQueryWithRetry] is bounded: it waits
    fewer times than [maxRetries], each time between one and five
    seconds, the first time one second, and never less than the time
    before. *)
Theorem X4_backoff_bounded (pool_query : pool) (log : list call) (query : string)
    (params : list param) (maxRetries : Z) :
  let waits := delays (executeQueryWithRetry pool_query log query params maxRetries) in
  (Z.of_nat (List.length waits) < Z.max 1 maxRetries)%Z
  ∧ Forall (λ delay, 1000 ≤ delay ≤ 5000)%Z waits
  ∧ head waits ∈ [None; Some 1000%Z]
  ∧ (∀ i a b, waits !! i = Some a → waits !! S i = Some b → (a ≤ b)%Z).
Proof.
  intros waits. subst waits. unfold executeQueryWithRetry.
  assert (∃ k : nat, (Z.of_nat k < Z.max 1 maxRetries)%Z
          ∧ delays (retry_loop pool_query (Z.to_nat maxRetries) 1 maxRetries
                      log query params [] None)
            = backoff <$> seqZ 1 (Z.of_nat k)) as (k & Hk & ->).
  { destruct (Z.le_gt_cases maxRetries 0) as [Hle|Hgt].
    - replace (Z.to_nat maxRetries) with 0%nat by lia.
      exists 0%nat. split; [lia|done].
    - destruct (retry_loop_spec pool_query query params maxRetries
                  (Z.to_nat maxRetries) 1 log [] None ltac:(lia))
        as (k & Hk & Hk1 & _ & Hdelays & _).
      exists (k - 1)%nat. split; [lia|done]. }
  split_and!.
  - rewrite length_fmap, length_seqZ. lia.
  - apply Forall_fmap, Forall_forall. intros x [? ?]%elem_of_seqZ.
    apply backoff_bounds. lia.
  - destruct k as [|k]; [by left|].
    rewrite seqZ_cons by lia. right. by left.
  - intros i a b Ha Hb.
    apply list_lookup_fmap_Some in Ha as (x & -> & Hx).
    apply list_lookup_fmap_Some in Hb as (y & -> & Hy).
    apply lookup_seqZ in Hx as [-> ?]. apply lookup_seqZ in Hy as [-> ?].
    unfold backoff.
    assert (2 ^ (1 + Z.of_nat i - 1) ≤ 2 ^ (1 + Z.of_nat (S i) - 1))%Z
      by (apply Z.pow_le_mono_r; lia).
    lia.
Qed.

Section transaction_facts.
Variable T : Type.
Variable client_query : client.

Definition query_event (q : string * option (list param)) : client_event :=
  ClientQuery q.1 q.2.

Lemma rollback_release_spec (log : list client_event) (error : db_thrown) :
  rollback_release T client_query log error
  = ((log ++ [ClientQuery "ROLLBACK" None; Release])%list,
     Err match client_query log "ROLLBACK" None with
         | Ok _ => error
         | Err error' => error'
         end).
Proof.
  unfold rollback_release, run_query.
  destruct (client_query log "ROLLBACK" None); by rewrite <- app_assoc.
Qed.

Lemma run_all_spec (queries : list (string * option (list param)))
    (log : list client_event) :
  match run_all client_query log queries with
  | (log', Ok _) => log' = (log ++ (query_event <$> queries))%list
  | (log', Err e) =>
      ∃ i q, queries !! i = Some q
        ∧ log' = (log ++ (query_event <$> take (S i) queries))%list
        ∧ client_query (log ++ (query_event <$> take i queries))%list q.1 q.2 = Err e
  end.
Proof.
  revert log. induction queries as [|[text values] queries IH]; intros log.
  - simpl. by rewrite app_nil_r.
  - cbn [run_all]. unfold run_query.
    destruct (client_query log text values) as [rows|e] eqn:Hq.
    + specialize (IH (log ++ [ClientQuery text values])%list).
      destruct (run_all _ _ _) as [log' [[]|e]].
      * rewrite IH. by rewrite <- app_assoc.
      * destruct IH as (i & q & Hi & -> & He).
        exists (S i), q. split_and!; [done| |].
        -- by rewrite <- app_assoc.
        -- by rewrite <- ?app_assoc in He.
    + exists 0%nat, (text, values). simpl. by rewrite app_nil_r.
Qed.

End transaction_facts.

Ltac flatten_events :=
  repeat (change (query_event (?t, ?v)) with (ClientQuery t v));
  cbn [app]; rewrite <- ?app_assoc; cbn [app].

(** X5. When [pool.connect()] rejects, [executeTransaction] throws the
    rejection and nothing happens on a client: no ROLLBACK, no release.
    When it gives a client, then whatever the client and the callback
    do, [executeTransaction] ends with COMMIT and the release of the
    client when it returns, and with ROLLBACK and the release of the
    client when it throws; and the result of a callback is returned
    only when the callback returned it and the COMMIT after it
    succeeded. *)
Theorem X5_transaction_closed (T : Type) (connect : result db_thrown client)
    (queries : list (string * option (list param)))
    (callback : option (list client_event → list client_event * result db_thrown T))
    (log : list client_event) :
  let after := (executeTransaction T connect queries callback log).1 in
  let outcome := (executeTransaction T connect queries callback log).2 in
  match connect with
  | Err error => after = log ∧ outcome = Err error
  | Ok client_query =>
      (∃ before,
         after = (before ++ [ClientQuery (match outcome with
                                          | Ok _ => "COMMIT"
                                          | Err _ => "ROLLBACK"
                                          end) None; Release])%list)
      ∧ (∀ value, outcome = Ok value →
           match callback with
           | None => value = None
           | Some callback =>
               ∃ log0 log1 result rows,
                 callback log0 = (log1, Ok result) ∧ value = Some result
                 ∧ client_query log1 "COMMIT" None = Ok rows
           end)
  end.
Proof.
  cbn zeta. destruct connect as [client_query|error]; [|done].
  unfold executeTransaction, with_client, run_query.
  destruct (client_query log "BEGIN" None) as [?|e0];
    [|rewrite rollback_release_spec; split; [by eexists|done]].
  destruct callback as [callback|].
  - destruct (callback _) as [log1 [result|e1]] eqn:Hcb;
      [|rewrite rollback_release_spec; split; [by eexists|done]].
    destruct (client_query log1 "COMMIT" None) as [rows|e2] eqn:Hcommit;
      [|rewrite rollback_release_spec; split; [by eexists|done]].
    simpl. split.
    + exists log1. by rewrite <- app_assoc.
    + intros value [= <-]. by eexists _, _, _, _.
  - destruct (run_all _ _ _) as [log1 [[]|e1]];
      [|rewrite rollback_release_spec; split; [by eexists|done]].
    destruct (client_query log1 "COMMIT" None) as [rows|e2];
      [|rewrite rollback_release_spec; split; [by eexists|done]].
    simpl. split; [|by intros value [= <-]].
    exists log1. by rewrite <- app_assoc.
Qed.

(** X6. Without a callback, and once [pool.connect()] has given a
    client, [executeTransaction] runs BEGIN, the queries in their order
    and COMMIT.  It returns only when all of them succeeded.  It stops
    at the first that throws, runs ROLLBACK and nothing else of the
    list, and throws the error of that step, or the error of the
    ROLLBACK when that throws too.  When [pool.connect()] rejects, none
    of the steps runs and the rejection is thrown. *)
Theorem X6_transaction_all_or_rollback (T : Type) (connect : result db_thrown client)
    (queries : list (string * option (list param))) (log : list client_event) :
  let steps := (("BEGIN", None) :: queries ++ [("COMMIT", None)])%list in
  let after := (executeTransaction T connect queries None log).1 in
  match connect, (executeTransaction T connect queries None log).2 with
  | Err error, outcome => after = log ∧ outcome = Err error
  | Ok _, Ok value =>
      value = None
      ∧ after = (log ++ (query_event <$> steps) ++ [Release])%list
  | Ok client_query, Err e =>
      ∃ n step e0,
        steps !! n = Some step
        ∧ client_query (log ++ (query_event <$> take n steps))%list step.1 step.2
          = Err e0
        ∧ after = (log ++ (query_event <$> take (S n) steps)
                       ++ [ClientQuery "ROLLBACK" None; Release])%list
        ∧ e = match client_query (log ++ (query_event <$> take (S n) steps))%list
                      "ROLLBACK" None with
              | Ok _ => e0
              | Err e' => e'
              end
  end.
Proof.
  cbn zeta. destruct connect as [client_query|error]; [|done].
  unfold executeTransaction, with_client, run_query.
  destruct (client_query log "BEGIN" None) as [?|e0] eqn:Hbegin.
  - pose proof (run_all_spec client_query queries
                  (log ++ [ClientQuery "BEGIN" None])%list) as Hall.
    destruct (run_all _ _ _) as [log1 [[]|e1]].
    + subst log1.
      destruct (client_query _ "COMMIT" None) as [rows|e2] eqn:Hcommit.
      * cbn [fst snd]. split; [done|].
        rewrite fmap_cons, fmap_app. flatten_events. done.
      * rewrite rollback_release_spec. cbn [fst snd].
        exists (S (List.length queries)), ("COMMIT", None), e2.
        rewrite !firstn_cons, take_app_length, take_ge
          by (rewrite length_app; simpl; lia).
        rewrite !fmap_cons, fmap_app. flatten_events.
        rewrite <- ?app_assoc in Hcommit.
        split_and!; [|done|done|done].
        change (((queries ++ [("COMMIT", None)])%list !! List.length queries
                 : option (string * option (list param))) = Some ("COMMIT", None)).
        by rewrite lookup_app_r, Nat.sub_diag by lia.
    + destruct Hall as (i & q & Hi & -> & He).
      rewrite rollback_release_spec. cbn [fst snd].
      exists (S i), q, e1.
      assert (i < List.length queries)%nat by by eapply lookup_lt_Some.
      rewrite !firstn_cons, !take_app_le by lia.
      rewrite !fmap_cons. flatten_events.
      rewrite <- ?app_assoc in He.
      split_and!; [|done|done|done].
      change (((queries ++ [("COMMIT", None)])%list !! i
                 : option (string * option (list param))) = Some q).
      by rewrite lookup_app_l by lia.
  - rewrite rollback_release_spec. cbn [fst snd].
    exists 0%nat, ("BEGIN", None), e0.
    rewrite firstn_cons, !take_0, fmap_cons, fmap_nil, app_nil_r.
    by flatten_events.
Qed.

End database_facts.

(** ** Route handlers: what they share *)

Module Api.

(** The body that [NextResponse.json] serialises: a value, [Leaf None]
    being [undefined], or an object of named parts. *)
#[warnings="-register-all"]
Inductive json :=
  | Leaf (v : option jsval)
  | Obj (fields : list (string * json)).

Record NextResponse := { next_status : Z; next_body : json }.

(** [NextResponse.json({ message }, { status })] *)
Definition message_response (message : string) (status : Z) : NextResponse :=
  {| next_status := status;
     next_body := Obj [("message", Leaf (Some (JStr message)))] |}.

(** [NextResponse.json(body)] *)
Definition ok_response (body : json) : NextResponse :=
  {| next_status := 200; next_body := body |}.

(** The column [k] of a row. *)
Definition column (row : jsobj) (k : string) : json := Leaf (row !! k).

(** What [await request.json()] settles to: it rejects; or it gives
    [null]; or it gives another value, which is here the object of its
    properties (none for a value that is not an object). *)
Inductive parsed :=
  | Rejects
  | Null
  | Value (o : jsobj).

(** [v.length] of a value that is not [null] or [undefined]. *)
Definition length_of (v : option jsval) : Builtins.number :=
  match v with
  | Some (JStr s) => Some (Z.of_nat (String.length s))
  | Some (JArr l) => Some (Z.of_nat (List.length l))
  | _ => None
  end.

(** [a < b] on numbers, [undefined] and [NaN] comparing as [false]. *)
Definition less (a b : Builtins.number) : bool :=
  match a, b with
  | Some x, Some y => (x <? y)%Z
  | _, _ => false
  end.

(** [String(v)] *)
Fixpoint to_String (v : jsval) : string :=
  match v with
  | JNull => "null"
  | JBool b => if b then "true" else "false"
  | JNum n => Builtins.decimal n
  | JStr s => s
  | JArr l =>
      join "," (map (λ x, match x with JNull => "" | _ => to_String x end) l)
  end.

End Api.

(** ** [lib/crypto] *)

Module Crypto.

Section crypto.
(** [bcrypt.compare(password, hash)]: the boolean it resolves to, or the
    error it rejects with. *)
Variable bcrypt_compare : option jsval → option jsval → result thrown bool.
(** [bcrypt.hash(password, saltRounds)] *)
Variable bcrypt_hash : string → Z → result thrown string.

Definition hashPassword (password : string) : result thrown string :=
  bcrypt_hash password 12.

Definition comparePassword (password hash : option jsval) : bool :=
  match bcrypt_compare password hash with
  | Ok isValid => isValid
  | Err _ => false
  end.

End crypto.

End Crypto.

(** ** The login route: [POST /api/login] *)

Module LoginRoute.
Import jsonwebtoken Jwt Database Api.

Definition authQuery : string := "
      SELECT 
        a.id as auth_id,
        a.email,
        a.password,
        u.id as user_id,
        u.username,
        u.full_name
      FROM auth a
      INNER JOIN users u ON a.id = u.auth_id
      WHERE a.email = $1
    ".

Definition userDetailsQuery : string := "
      SELECT 
        u.birth_date,
        u.bio,
        u.long_bio,
        u.profile_json,
        u.address,
        u.phone_number,
        ur.role,
        ud.division_name
      FROM users u
      LEFT JOIN user_roles ur ON u.id = ur.user_id
      LEFT JOIN user_divisions ud ON u.id = ud.user_id
      WHERE u.id = $1
    ".

Definition logQuery : string := "INSERT INTO user_logs (user_id, action) VALUES ($1, $2)".

(** [{ userId: user.user_id, role: userDetails.role }] *)
Definition tokenPayload (user userDetails : jsobj) : jsobj :=
  match user !! "user_id" with
  | Some user_id => Login.tokenPayload user_id (userDetails !! "role")
  | None =>
      match userDetails !! "role" with
      | Some role => {[ "role" := role ]}
      | None => ∅
      end
  end.

Definition invalid_credentials : NextResponse :=
  message_response "Invalid credentials." 401.

Definition server_error : NextResponse :=
  message_response "Internal server error." 500.

Definition success (token : string) (user userDetails : jsobj) : NextResponse :=
  ok_response (Obj [
    ("message", Leaf (Some (JStr "Login successful!")));
    ("token", Leaf (Some (JStr token)));
    ("user", Obj [
      ("id", column user "user_id");
      ("authId", column user "auth_id");
      ("username", column user "username");
      ("fullName", column user "full_name");
      ("email", column user "email");
      ("role", column userDetails "role");
      ("division", column userDetails "division_name");
      ("bio", column userDetails "bio");
      ("longBio", column userDetails "long_bio");
      ("profileJson", column userDetails "profile_json");
      ("address", column userDetails "address");
      ("phoneNumber", column userDetails "phone_number");
      ("birthDate", column userDetails "birth_date")])]).

Section route.
Context `{Jose}.
Variable m : constants.
Variable pool_query : pool.
Variable bcrypt_compare : option jsval → option jsval → result thrown bool.

(** [POST(request)] at clock time [now], after the queries of [log]: the
    queries made and the response. *)
Definition POST (body : parsed) (now : Z) (log : list call)
    : list call * NextResponse :=
  match body with
  | Rejects | Null => (log, server_error)
  | Value o =>
    let email := o !! "email" in
    let password := o !! "password" in
    if negb (truthy email) || negb (truthy password)
    then (log, message_response "Email and password are required." 400)
    else if less (length_of password) (Some 6%Z)
    then (log, message_response "Password must be at least 6 characters." 400)
    else
      match executeQuery pool_query log authQuery [email] with
      | (log, Err _) => (log, server_error)
      | (log, Ok []) => (log, invalid_credentials)
      | (log, Ok (user :: _)) =>
        if negb (Crypto.comparePassword bcrypt_compare password (user !! "password"))
        then (log, invalid_credentials)
        else
          match executeQuery pool_query log userDetailsQuery [user !! "user_id"] with
          | (log, Err _) => (log, server_error)
          | (log, Ok rows) =>
            let userDetails := default ∅ (head rows) in
            match generateToken m (tokenPayload user userDetails) now with
            | Err _ => (log, server_error)
            | Ok token =>
              match executeQuery pool_query log logQuery
                      [user !! "user_id"; Some (JStr "login")] with
              | (log, Err _) => (log, server_error)
              | (log, Ok _) => (log, success token user userDetails)
              end
            end
          end
      end
  end.

End route.

End LoginRoute.

(** ** The user route: [GET /api/user/[id]] *)

Module UserByIdRoute.
Import jsonwebtoken Jwt Database Api Builtins.

Definition query : string := "
      SELECT 
        u.id,
        u.username,
        u.full_name,
        u.birth_date,
        u.bio,
        u.long_bio,
        u.profile_json,
        u.address,
        u.phone_number,
        u.created_at,
        u.updated_at,
        a.email,
        (SELECT role FROM user_roles WHERE user_id = u.id LIMIT 1) as role,
        (SELECT division_name FROM user_divisions WHERE user_id = u.id LIMIT 1) as division_name
      FROM users u
      INNER JOIN auth a ON u.auth_id = a.id
      WHERE u.id = $1
    ".

Definition found (user : jsobj) : NextResponse :=
  ok_response (Obj [
    ("user", Obj [
      ("id", column user "id");
      ("username", column user "username");
      ("fullName", column user "full_name");
      ("email", column user "email");
      ("birthDate", column user "birth_date");
      ("bio", column user "bio");
      ("longBio", column user "long_bio");
      ("profileJson", column user "profile_json");
      ("address", column user "address");
      ("phoneNumber", column user "phone_number");
      ("createdAt", column user "created_at");
      ("updatedAt", column user "updated_at");
      ("role", column user "role");
      ("division", column user "division_name")])]).

Section route.
Context `{Jose}.
Variable pool_query : pool.
(** [new URL(url).pathname], or [None] when the constructor throws. *)
Variable pathname : string → option string.

Definition getUserById (request : Request) (log : list call)
    : list call * NextResponse :=
  match pathname (url request) with
  | None => (log, message_response "Internal server error." 500)
  | Some path =>
    let userId := default "" (last (split "/" path)) in
    if (userId =? "") || isNaN (parseInt userId)
    then (log, message_response "Invalid user ID." 400)
    else
      match executeQuery pool_query log query [Some (JStr userId)] with
      | (log, Err _) => (log, message_response "Internal server error." 500)
      | (log, Ok []) => (log, message_response "User not found." 404)
      | (log, Ok (user :: _)) => (log, found user)
      end
  end.

(** [GET(request)]; [jwt] is what the import of [lib/jwt] inside the
    [try] block gives: the constants of the loaded module, or the error
    thrown while it loads. *)
Definition GET (jwt : result js_error constants) (request : Request) (now : Z)
    (log : list call) : list call * NextResponse :=
  match headers request !! "authorization" with
  | None => (log, message_response "No token provided" 401)
  | Some authHeader =>
    if negb (startsWith authHeader "Bearer ")
    then (log, message_response "No token provided" 401)
    else
      let token := substring_from 7 authHeader in
      match jwt with
      | Err _ => (log, message_response "Invalid token" 401)
      | Ok m =>
        match verifyToken m token now with
        | Err _ => (log, message_response "Invalid token" 401)
        | Ok decoded => getUserById (assign_user request decoded) log
        end
      end
  end.

End route.

End UserByIdRoute.

(** ** The profile route: [GET] and [PUT /api/profile] *)

Module ProfileRoute.
Import jsonwebtoken Jwt Database Api Builtins Regex.

Definition selectQuery : string := "
      SELECT 
        u.id,
        u.auth_id,
        u.username,
        u.full_name,
        u.bio,
        u.long_bio,
        u.profile_json,
        u.address,
        u.phone_number,
        u.birth_date,
        a.email,
        ur.role,
        ud.division_name,
        COALESCE(log_stats.log_count, 0) as log_count,
        COALESCE(role_stats.role_count, 0) as role_count,
        COALESCE(div_stats.division_count, 0) as division_count
      FROM users u
      LEFT JOIN auth a ON u.auth_id = a.id
      LEFT JOIN user_roles ur ON u.id = ur.user_id
      LEFT JOIN user_divisions ud ON u.id = ud.user_id
      LEFT JOIN (
        SELECT user_id, COUNT(*) as log_count 
        FROM user_logs 
        WHERE user_id = $1 
        GROUP BY user_id
      ) log_stats ON u.id = log_stats.user_id
      LEFT JOIN (
        SELECT user_id, COUNT(*) as role_count 
        FROM user_roles 
        WHERE user_id = $1 
        GROUP BY user_id
      ) role_stats ON u.id = role_stats.user_id
      LEFT JOIN (
        SELECT user_id, COUNT(*) as division_count 
        FROM user_divisions 
        WHERE user_id = $1 
        GROUP BY user_id
      ) div_stats ON u.id = div_stats.user_id
      WHERE u.id = $1
    ".

Definition updateQuery : string := "
      UPDATE users 
      SET 
        username = $1, 
        full_name = $2, 
        bio = $3, 
        long_bio = $4, 
        address = $5, 
        phone_number = $6, 
        profile_json = $7,
        updated_at = CURRENT_TIMESTAMP
      WHERE id = $8
      RETURNING id, username, full_name, bio, long_bio, profile_json, 
                address, phone_number, birth_date, updated_at
    ".

Definition metadataQuery : string := "
      SELECT 
        ur.role,
        ud.division_name,
        COALESCE(log_stats.log_count, 0) as log_count,
        COALESCE(role_stats.role_count, 0) as role_count
      FROM users u
      LEFT JOIN user_roles ur ON u.id = ur.user_id
      LEFT JOIN user_divisions ud ON u.id = ud.user_id
      LEFT JOIN (
        SELECT user_id, COUNT(*) as log_count 
        FROM user_logs 
        WHERE user_id = $1 
        GROUP BY user_id
      ) log_stats ON u.id = log_stats.user_id
      LEFT JOIN (
        SELECT user_id, COUNT(*) as role_count 
        FROM user_roles 
        WHERE user_id = $1 
        GROUP BY user_id
      ) role_stats ON u.id = role_stats.user_id
      WHERE u.id = $1
    ".

Definition logQuery : string := "INSERT INTO user_logs (user_id, action) VALUES ($1, $2)".

(** [/^\S+@\S+\.\S+$/] *)
Definition email_pattern : regex :=
  Seq (Plus (Class non_space))
    (Seq (char "@")
      (Seq (Plus (Class non_space))
        (Seq (char ".") (Plus (Class non_space))))).

(** [/^\d{10,15}$/] *)
Definition phone_pattern : regex := Between 10 15 (Class digit).

(** [pattern.test(v)] for a value that is not [undefined]: the value is
    turned into a string. *)
Definition test (pattern : regex) (v : option jsval) : bool :=
  match v with
  | Some v => matches pattern (to_String v)
  | None => false
  end.

Definition server_error : NextResponse :=
  message_response "Internal server error." 500.

(** [request.user.userId]; [None] when reading it throws, the user being
    [undefined] or [null]. *)
Definition userId_of (request : Request) : option (option jsval) :=
  match user request with
  | None | Some PNull => None
  | Some u => Some (claim u "userId")
  end.

Definition profile (userData : jsobj) : NextResponse :=
  ok_response (Obj [
    ("success", Leaf (Some (JBool true)));
    ("user", Obj [
      ("id", column userData "id");
      ("authId", column userData "auth_id");
      ("username", column userData "username");
      ("fullName", column userData "full_name");
      ("email", column userData "email");
      ("bio", column userData "bio");
      ("longBio", column userData "long_bio");
      ("profileJson", column userData "profile_json");
      ("address", column userData "address");
      ("phoneNumber", column userData "phone_number");
      ("birthDate", column userData "birth_date");
      ("role", column userData "role");
      ("division", column userData "division_name");
      ("logCount", column userData "log_count");
      ("roleCount", column userData "role_count");
      ("divisionCount", column userData "division_count")])]).

Definition updated (userId : option jsval) (updatedUser userMetadata : jsobj)
    : NextResponse :=
  ok_response (Obj [
    ("success", Leaf (Some (JBool true)));
    ("user", Obj [
      ("id", column updatedUser "id");
      ("authId", Leaf userId);
      ("username", column updatedUser "username");
      ("fullName", column updatedUser "full_name");
      ("bio", column updatedUser "bio");
      ("longBio", column updatedUser "long_bio");
      ("profileJson", column updatedUser "profile_json");
      ("address", column updatedUser "address");
      ("phoneNumber", column updatedUser "phone_number");
      ("birthDate", column updatedUser "birth_date");
      ("role", column userMetadata "role");
      ("division", column userMetadata "division_name");
      ("logCount", column userMetadata "log_count");
      ("roleCount", column userMetadata "role_count")])]).

(** [{ role: null, division_name: null, log_count: 0, role_count: 0 }] *)
Definition no_metadata : jsobj :=
  {[ "role" := JNull; "division_name" := JNull;
     "log_count" := JNum 0; "role_count" := JNum 0 ]}.

Definition validation_failed (errors : list (string * string)) : NextResponse :=
  {| next_status := 400;
     next_body := Obj [
       ("message", Leaf (Some (JStr "Validation failed")));
       ("errors", Obj (map (λ e, (e.1, Leaf (Some (JStr e.2)))) errors))] |}.

Section route.
Context `{Jose}.
Variable m : constants.
Variable pool_query : pool.
(** [await request.json()] for a request of the given body. *)
Variable request_json : string → parsed.
(** The time value of [new Date(v)]. *)
Variable Date_value : jsval → number.
(** The time value of the start of today. *)
Variable today : Z.
(** [JSON.stringify] of a value and of the body of a response. *)
Variable JSON_stringify : json → string.

Definition getProfile (request : Request) (log : list call)
    : list call * NextResponse :=
  match userId_of request with
  | None => (log, server_error)
  | Some userId =>
      match executeQuery pool_query log selectQuery [userId] with
      | (log, Err _) => (log, server_error)
      | (log, Ok []) => (log, message_response "User not found." 404)
      | (log, Ok (userData :: _)) => (log, profile userData)
      end
  end.

(** The [errors] object of [updateProfile], as the list of its entries
    in the order in which they are set. *)
Definition validate (o : jsobj) : list (string * string) :=
  ((if negb (truthy (o !! "username"))
       || less (length_of (o !! "username")) (Some 6%Z)
    then [("username", "Username must be at least 6 characters.")] else [])
   ++ (if negb (truthy (o !! "fullName"))
       then [("fullName", "Full name is required.")] else [])
   ++ (if negb (truthy (o !! "email")) || negb (test email_pattern (o !! "email"))
       then [("email", "Must be a valid email format.")] else [])
   ++ (if negb (truthy (o !! "phone")) || negb (test phone_pattern (o !! "phone"))
       then [("phone", "Phone must be 10-15 digits.")] else [])
   ++ (if truthy (o !! "birthDate")
          && less (Some today) (from_option Date_value None (o !! "birthDate"))
       then [("birthDate", "Birth date cannot be in the future.")] else [])
   ++ (if truthy (o !! "bio") && less (Some 160%Z) (length_of (o !! "bio"))
       then [("bio", "Bio must be 160 characters or less.")] else [])
   ++ (if truthy (o !! "longBio") && less (Some 2000%Z) (length_of (o !! "longBio"))
       then [("longBio", "Long bio must be 2000 characters or less.")] else []))%list.

(** [profileJson ? JSON.stringify(profileJson) : null] *)
Definition profileJson_param (o : jsobj) : param :=
  if truthy (o !! "profileJson")
  then Some (JStr (JSON_stringify (Leaf (o !! "profileJson"))))
  else Some JNull.

Definition updateProfile (request : Request) (log : list call)
    : list call * NextResponse :=
  match request_json (request_body request) with
  | Rejects | Null => (log, server_error)
  | Value o =>
    match validate o with
    | _ :: _ as errors => (log, validation_failed errors)
    | [] =>
      match userId_of request with
      | None => (log, server_error)
      | Some userId =>
        match executeQuery pool_query log updateQuery
                [o !! "username"; o !! "fullName"; o !! "bio"; o !! "longBio";
                 o !! "address"; o !! "phone"; profileJson_param o; userId] with
        | (log, Err _) => (log, server_error)
        | (log, Ok updateResult) =>
          match executeQuery pool_query log metadataQuery [userId] with
          | (log, Err _) => (log, server_error)
          | (log, Ok metadataResult) =>
            let userMetadata := default no_metadata (head metadataResult) in
            match executeQuery pool_query log logQuery
                    [userId; Some (JStr "update_profile")] with
            | (log, Err _) => (log, server_error)
            | (log, Ok _) =>
              match head updateResult with
              | None => (log, server_error)
              | Some updatedUser => (log, updated userId updatedUser userMetadata)
              end
            end
          end
        end
      end
    end
  end.

(** The [Response] that [NextResponse.json] builds. *)
Definition respond (r : NextResponse) : Response :=
  {| status := next_status r;
     response_headers := {[ "content-type" := "application/json" ]};
     response_body := Text (JSON_stringify (next_body r)) |}.

(** A route function as the handler that the interceptor calls, and the
    queries it makes when the interceptor calls it. *)
Definition as_handler (route : Request → list call → list call * NextResponse)
    (log : list call) : AuthenticatedHandler :=
  λ request, Returns (respond (route request log).2).

Definition queries_of (route : Request → list call → list call * NextResponse)
    (calls : list event) (log : list call) : list call :=
  fold_left (λ log e, match e with
                      | HandlerCall request => (route request log).1
                      | VerifyCall _ => log
                      end) calls log.

Definition intercepted (route : Request → list call → list call * NextResponse)
    (request : Request) (now : Z) (log : list call) : list call * outcome :=
  let answer := authMiddleware m (as_handler route log) request now in
  (queries_of route answer.1 log, answer.2).

(** [export const GET = authMiddleware(getProfile)] *)
Definition GET := intercepted getProfile.

(** [export const PUT = authMiddleware(updateProfile)] *)
Definition PUT := intercepted updateProfile.

End route.

End ProfileRoute.

(** ** The users route: [GET /api/users], up to its queries and its
    pagination *)

Module UsersRoute.
Import Api Builtins.

Definition validDivisions : list string :=
  ["engineering"; "marketing"; "sales"; "hr"; "finance"; "all"].

(** A value bound to a placeholder of a query. *)
Inductive bound :=
  | Name (s : string)
  | Number (n : double).

Definition select : string := "
      WITH user_stats AS (
        -- Pre-calculate user statistics in a single pass
        SELECT 
          user_id,
          COUNT(*) as log_count,
          COUNT(CASE WHEN action = 'login' THEN 1 END) as login_count,
          COUNT(CASE WHEN action = 'update_profile' THEN 1 END) as update_count,
          COUNT(CASE WHEN created_at > NOW() - INTERVAL '30 days' THEN 1 END) as recent_logs
        FROM user_logs 
        GROUP BY user_id
      ),
      user_counts AS (
        -- Calculate role and division counts efficiently
        SELECT 
          ur.user_id,
          COUNT(DISTINCT ur.role) as role_count
        FROM user_roles ur
        GROUP BY ur.user_id
      ),
      division_counts AS (
        SELECT 
          ud.user_id,
          COUNT(*) as division_count
        FROM user_divisions ud
        GROUP BY ud.user_id
      ),
      total_user_count AS (
        -- Calculate total users once
        SELECT COUNT(*) as total_users FROM users
      )
      SELECT 
        u.id,
        u.username,
        u.full_name,
        u.birth_date,
        u.bio,
        u.long_bio,
        u.profile_json,
        u.address,
        u.phone_number,
        u.created_at,
        u.updated_at,
        a.email,
        ur.role,
        ud.division_name,
        -- Best practice: Efficient aggregations using CTEs
        tuc.total_users,
        (SELECT COUNT(*) FROM users WHERE created_at > u.created_at) as newer_users,
        COALESCE(us.log_count, 0) as log_count,
        COALESCE(uc.role_count, 0) as role_count,
        COALESCE(dc.division_count, 0) as division_count,
        COALESCE(us.login_count, 0) as login_count,
        COALESCE(us.update_count, 0) as update_count,
        COALESCE(us.recent_logs, 0) as recent_logs,
        -- Best practice: Simplified string operations
        CONCAT(u.full_name, ' (', COALESCE(ur.role, 'no role'), ')') as display_name,
        COALESCE(NULLIF(u.bio, ''), 'No bio available') as bio_display,
        -- Best practice: Simplified JSON operations with proper null handling
        COALESCE(
          u.profile_json->'social_media'->>'instagram',
          'No Instagram'
        ) as instagram_handle
      FROM users u
      LEFT JOIN auth a ON u.auth_id = a.id
      LEFT JOIN user_roles ur ON u.id = ur.user_id
      LEFT JOIN user_divisions ud ON u.id = ud.user_id
      LEFT JOIN user_stats us ON u.id = us.user_id
      LEFT JOIN user_counts uc ON u.id = uc.user_id
      LEFT JOIN division_counts dc ON u.id = dc.user_id
      CROSS JOIN total_user_count tuc
    ".

Definition count : string := "
      SELECT COUNT(DISTINCT u.id) as total_count
      FROM users u
      LEFT JOIN user_divisions ud ON u.id = ud.user_id
    ".

Section plan.
(** [searchParams.get] *)
Variable get : string → option string.

(** [x || d] *)
Definition or_default (x : option string) (d : string) : string :=
  match x with
  | Some s => if s =? "" then d else s
  | None => d
  end.

(** [searchParams.get("division")?.trim() || null] *)
Definition divisionFilter : option string :=
  match get "division" with
  | Some s => if trim s =? "" then None else Some (trim s)
  | None => None
  end.

Definition sanitizedDivision : option string :=
  match divisionFilter with
  | Some d =>
      if existsb (String.eqb (toLowerCase d)) validDivisions
      then Some (toLowerCase d) else None
  | None => None
  end.

(** [sanitizedDivision && sanitizedDivision !== "all"] *)
Definition filtered : bool :=
  match sanitizedDivision with
  | Some d => negb (d =? "all")
  | None => false
  end.

Definition page : double := Math_max (Fin 1) (parseInt (or_default (get "page") "1")).

Definition limit : double :=
  Math_min (Fin 100) (Math_max (Fin 1) (parseInt (or_default (get "limit") "20"))).

Definition offset : double := multiply (subtract page (Fin 1)) limit.

Definition query : string :=
  select
  ++ (if filtered then " WHERE ud.division_name = $1" else "")
  ++ " 
      ORDER BY u.created_at DESC 
      LIMIT $" ++ (if filtered then "2" else "1") ++ " 
      OFFSET $" ++ (if filtered then "3" else "2").

Definition queryParams : list bound :=
  if filtered
  then [Name (default "" sanitizedDivision); Number limit; Number offset]
  else [Number limit; Number offset].

Definition countQuery : string :=
  count ++ (if filtered then " WHERE ud.division_name = $1" else "").

Definition countParams : list bound :=
  if filtered then [Name (default "" sanitizedDivision)] else [].

(** [parseInt(countResult.rows[0]?.total_count || "0")] *)
Definition totalCount (rows : list jsobj) : double :=
  let total_count := head rows ≫= (λ row, row !! "total_count") in
  parseInt (if truthy total_count
            then from_option to_String "" total_count
            else "0").

Definition totalPages (rows : list jsobj) : double :=
  Math_ceil_div (totalCount rows) limit.

(** The [pagination] object of the response. *)
Record pagination := {
  pagination_page : double;
  pagination_limit : double;
  total : double;
  pagination_totalPages : double;
  hasNextPage : bool;
  hasPrevPage : bool
}.

Definition pagination_of (rows : list jsobj) : pagination :=
  {| pagination_page := page;
     pagination_limit := limit;
     total := totalCount rows;
     pagination_totalPages := totalPages rows;
     hasNextPage := below page (totalPages rows);
     hasPrevPage := below (Fin 1) page |}.

(** [sanitizedDivision || "all"] *)
Definition filteredBy : string := default "all" sanitizedDivision.

End plan.

End UsersRoute.

(** ** Facts about the profile route *)

Section profile_facts.
Import jsonwebtoken Jwt Database Api Builtins Regex ProfileRoute.

Lemma lang_char c s : lang (char c) s ↔ s = String c "".
Proof.
  unfold char. rewrite lang_Class_inv. split.
  - by intros (a & -> & ->%Ascii.eqb_eq).
  - intros ->. exists c. by rewrite Ascii.eqb_refl.
Qed.

Lemma matches_email_pattern (s : string) :
  matches email_pattern s = true
  ↔ ∃ a b c, s = a ++ "@" ++ b ++ "." ++ c
      ∧ a ≠ "" ∧ b ≠ "" ∧ c ≠ ""
      ∧ forallb_string non_space a = true
      ∧ forallb_string non_space b = true
      ∧ forallb_string non_space c = true.
Proof.
  rewrite matches_lang. unfold email_pattern. split.
  - intros (a & r1 & -> & [Ha Hpa]%lang_Plus_class & H1)%lang_Seq_inv.
    apply lang_Seq_inv in H1 as (at_ & r2 & -> & ->%lang_char & H2).
    apply lang_Seq_inv in H2 as (b & r3 & -> & [Hb Hpb]%lang_Plus_class & H3).
    apply lang_Seq_inv in H3 as (dot & c & -> & ->%lang_char & [Hc Hpc]%lang_Plus_class).
    by exists a, b, c.
  - intros (a & b & c & -> & Ha & Hb & Hc & Hpa & Hpb & Hpc).
    apply lang_Seq_inv. exists a, ("@" ++ b ++ "." ++ c).
    split_and!; [done|by apply lang_Plus_class|].
    apply lang_Seq_inv. exists "@", (b ++ "." ++ c).
    split_and!; [done|by apply lang_char|].
    apply lang_Seq_inv. exists b, ("." ++ c).
    split_and!; [done|by apply lang_Plus_class|].
    apply lang_Seq_inv. exists ".", c.
    split_and!; [done|by apply lang_char|by apply lang_Plus_class].
Qed.

Section validation.
Context `{Jose}.
Variable Date_value : jsval → number.
Variable today : Z.

(** The fields of the body for which [validate] sets an error. *)
Definition rejected (o : jsobj) : list string := (validate Date_value today o).*1.

Lemma rejected_eq (o : jsobj) :
  rejected o
  = ((if negb (truthy (o !! "username"))
         || less (length_of (o !! "username")) (Some 6%Z)
      then ["username"] else [])
     ++ (if negb (truthy (o !! "fullName")) then ["fullName"] else [])
     ++ (if negb (truthy (o !! "email")) || negb (test email_pattern (o !! "email"))
         then ["email"] else [])
     ++ (if negb (truthy (o !! "phone")) || negb (test phone_pattern (o !! "phone"))
         then ["phone"] else [])
     ++ (if truthy (o !! "birthDate")
            && less (Some today) (from_option Date_value None (o !! "birthDate"))
         then ["birthDate"] else [])
     ++ (if truthy (o !! "bio") && less (Some 160%Z) (length_of (o !! "bio"))
         then ["bio"] else [])
     ++ (if truthy (o !! "longBio") && less (Some 2000%Z) (length_of (o !! "longBio"))
         then ["longBio"] else []))%list.
Proof.
  unfold rejected, validate. rewrite !fmap_app.
  repeat (f_equal; [by case_match|]). by case_match.
Qed.

Lemma elem_of_if_singleton (k x : string) (c : bool) :
  k ∈ (if c then [x] else []) ↔ k = x ∧ c = true.
Proof.
  destruct c.
  - rewrite list_elem_of_singleton. split; [by intros ->|by intros [-> _]].
  - split; [by intros ?%elem_of_nil|by intros [_ ?]].
Qed.

(** X7. [updateProfile] accepts a phone exactly when it is there, is not
    falsy and, written as a string, consists of ten to fifteen digits. *)
Theorem X7_phone_rule (o : jsobj) :
  "phone" ∉ rejected o
  ↔ ∃ v, o !! "phone" = Some v
     ∧ truthy (Some v) = true
     ∧ (10 ≤ String.length (to_String v) ≤ 15)%nat
     ∧ forallb_string digit (to_String v) = true.
Proof.
  rewrite rejected_eq, !elem_of_app, !elem_of_if_singleton.
  transitivity (negb (truthy (o !! "phone")) || negb (test phone_pattern (o !! "phone"))
                = false).
  { destruct (negb (truthy (o !! "phone")) || _).
    - split; [|done]. intros Hn. exfalso. apply Hn. do 3 right. by left.
    - split; [done|]. intros _ Hin.
      repeat (destruct Hin as [[? ?]|Hin]; [done|]). by destruct Hin. }
  rewrite orb_false_iff, !negb_false_iff. split.
  - intros [Ht Hm]. destruct (o !! "phone") as [v|]; [|done].
    apply (matches_Between_class digit 10 15) in Hm as [? ?]; [|lia].
    by exists v.
  - intros (v & -> & Ht & Hlen & Hd). split; [done|].
    by apply (matches_Between_class digit 10 15); [lia|].
Qed.

(** X8. [updateProfile] accepts an email exactly when it is there, is
    not falsy and, written as a string, is made of three parts that are
    not empty and hold no white space, the first two separated by [@]
    and the last two by a dot. *)
Theorem X8_email_rule (o : jsobj) :
  "email" ∉ rejected o
  ↔ ∃ v a b c, o !! "email" = Some v
     ∧ truthy (Some v) = true
     ∧ to_String v = a ++ "@" ++ b ++ "." ++ c
     ∧ a ≠ "" ∧ b ≠ "" ∧ c ≠ ""
     ∧ forallb_string non_space a = true
     ∧ forallb_string non_space b = true
     ∧ forallb_string non_space c = true.
Proof.
  rewrite rejected_eq, !elem_of_app, !elem_of_if_singleton.
  transitivity (negb (truthy (o !! "email")) || negb (test email_pattern (o !! "email"))
                = false).
  { destruct (negb (truthy (o !! "email")) || _).
    - split; [|done]. intros Hn. exfalso. apply Hn. do 2 right. by left.
    - split; [done|]. intros _ Hin.
      repeat (destruct Hin as [[? ?]|Hin]; [done|]). by destruct Hin. }
  rewrite orb_false_iff, !negb_false_iff. split.
  - intros [Ht Hm]. destruct (o !! "email") as [v|]; [|done].
    apply matches_email_pattern in Hm as (a & b & c & ?).
    by exists v, a, b, c.
  - intros (v & a & b & c & -> & Ht & Hs). split; [done|].
    apply matches_email_pattern. by exists a, b, c.
Qed.

End validation.

Section interception.
Context `{Jose}.
Variable m : constants.
Variable pool_query : pool.
Variable request_json : string → parsed.
Variable Date_value : jsval → number.
Variable today : Z.
Variable JSON_stringify : json → string.

Local Abbreviation intercepted := (intercepted m JSON_stringify).
Local Abbreviation updateProfile :=
  (updateProfile pool_query request_json Date_value today JSON_stringify).
Local Abbreviation getProfile := (getProfile pool_query).

Lemma verifyTokenSecure_userId token now u :
  verifyTokenSecure m token now = Ok u → truthy (claim u "userId") = true.
Proof.
  unfold verifyTokenSecure. destruct (token =? ""); [done|].
  destruct (String.length token <? 10)%nat; [done|].
  destruct (verify _ _ _ _) as [decoded|e]; [|by destruct (name e)].
  destruct (truthy (claim decoded "userId")) eqn:Hu; [|done].
  destruct (negb _ || negb _); [done|]. by intros [= <-].
Qed.

(** A route behind the interceptor: a 401 and no query, or the route
    run on the request with the verified identity. *)
Lemma intercepted_cases route request now log :
  (∃ error message,
     intercepted route request now log = (log, Returns (unauthorized error message)))
  ∨ (∃ token u,
       headers request !! "authorization" = Some ("Bearer " ++ token)
       ∧ verifyTokenSecure m token now = Ok u
       ∧ intercepted route request now log
         = ((route (assign_user request u) log).1,
            Returns (respond JSON_stringify (route (assign_user request u) log).2))).
Proof.
  unfold ProfileRoute.intercepted.
  destruct (headers request !! "authorization") as [authHeader|] eqn:Hh;
    [|unfold authMiddleware; rewrite Hh; left; by eexists _, _].
  destruct (startsWith authHeader "Bearer ") eqn:Hp.
  - apply (prefix_split "Bearer ") in Hp.
    change (String.length "Bearer ") with 7%nat in Hp.
    set (token := substring_from 7 authHeader) in *.
    rewrite Hp in Hh. rewrite (authMiddleware_bearer _ _ _ _ _ Hh).
    destruct ((token =? "") || (String.length token <? 10)%nat);
      [left; by eexists _, _|].
    destruct (verifyTokenSecure m token now) as [u|e] eqn:Hv.
    + right. exists token, u. split_and!; [by f_equal|done|done].
    + left. destruct (on_error_unauthorized (ThrownError e)) as (error & message & ->).
      by eexists _, _.
  - unfold authMiddleware. rewrite Hh, Hp.
    destruct (authHeader =? ""); left; by eexists _, _.
Qed.

(** The queries of [updateProfile] for the user [userId] and the body [o]. *)
Definition update_calls (o : jsobj) (userId : option jsval) : list call :=
  [(updateQuery,
    [o !! "username"; o !! "fullName"; o !! "bio"; o !! "longBio";
     o !! "address"; o !! "phone"; profileJson_param JSON_stringify o; userId]);
   (metadataQuery, [userId]);
   (logQuery, [userId; Some (JStr "update_profile")])].

Lemma updateProfile_queries request log :
  (updateProfile request log).1 = log
  ∨ ∃ o userId k,
      request_json (request_body request) = Value o
      ∧ rejected Date_value today o = []
      ∧ userId_of request = Some userId
      ∧ (1 ≤ k ≤ 3)%nat
      ∧ (updateProfile request log).1 = (log ++ take k (update_calls o userId))%list
      ∧ (next_status (updateProfile request log).2 = 200%Z → k = 3%nat).
Proof.
  unfold ProfileRoute.updateProfile.
  destruct (request_json (request_body request)) as [| |o] eqn:Hbody; [by left..|].
  destruct (validate Date_value today o) as [|e errors] eqn:Hvalid; [|by left].
  destruct (userId_of request) as [userId|] eqn:Huser; [|by left].
  right. exists o, userId.
  assert (rejected Date_value today o = []) as Hr by (unfold rejected; by rewrite Hvalid).
  destruct (executeQuery_cases pool_query log updateQuery
              [o !! "username"; o !! "fullName"; o !! "bio"; o !! "longBio";
               o !! "address"; o !! "phone"; profileJson_param JSON_stringify o;
               userId]) as [(updateResult & _ & ->)|(e1 & _ & ->)];
    cbv beta iota;
    [|exists 1%nat; split_and!; [done|done|done|lia|lia|done|done]].
  match goal with |- context [executeQuery pool_query ?l metadataQuery ?ps] =>
    destruct (executeQuery_cases pool_query l metadataQuery ps)
      as [(metadataResult & _ & ->)|(e2 & _ & ->)]
  end; cbv beta iota;
    [|exists 2%nat; split_and!; [done|done|done|lia|lia| |done];
      simpl; by rewrite <- app_assoc].
  exists 3%nat. split_and!; [done|done|done|lia|lia| |done].
  match goal with |- context [executeQuery pool_query ?l logQuery ?ps] =>
    destruct (executeQuery_cases pool_query l logQuery ps)
      as [(? & _ & ->)|(e3 & _ & ->)]
  end; cbv beta iota;
    [destruct (head updateResult)|]; simpl; by rewrite <- !app_assoc.
Qed.

(** X9. [PUT /api/profile] changes no other profile than the caller's:
    it makes no query at all, or the token of the request was verified,
    the body passed every rule, and the queries made are the first one,
    two or three of the update, the read of the metadata and the log
    entry, each bound to the [userId] of the verified token, which is
    not falsy.  A 200 is answered only after all three. *)
Theorem X9_profile_update_is_own (request : Request) (now : Z) (log : list call) :
  let answer := PUT m pool_query request_json Date_value today JSON_stringify
                    request now log in
  answer.1 = log
  ∨ ∃ token u o k,
      headers request !! "authorization" = Some ("Bearer " ++ token)
      ∧ verifyTokenSecure m token now = Ok u
      ∧ truthy (claim u "userId") = true
      ∧ request_json (request_body request) = Value o
      ∧ rejected Date_value today o = []
      ∧ (1 ≤ k ≤ 3)%nat
      ∧ answer.1 = (log ++ take k (update_calls o (claim u "userId")))%list
      ∧ (∀ response, answer.2 = Returns response → status response = 200%Z →
           k = 3%nat).
Proof.
  cbn zeta. unfold PUT.
  destruct (intercepted_cases updateProfile request now log)
    as [(error & message & ->)|(token & u & Hh & Hv & ->)]; [by left|].
  pose proof (verifyTokenSecure_userId _ _ _ Hv) as Hu.
  destruct (updateProfile_queries (assign_user request u) log)
    as [?|(o & userId & k & Hbody & Hr & Huser & Hk & Hcalls & Hok)]; [by left|].
  right. exists token, u, o, k.
  assert (userId = claim u "userId") as ->.
  { unfold userId_of in Huser. simpl in Huser. destruct u; by simplify_eq. }
  split_and!; [done..|lia|lia|done|].
  cbn [snd]. intros response [= <-]. apply Hok.
Qed.

(** X10. [GET /api/profile] reads no other profile than the caller's:
    it makes no query and answers 401, or the token of the request was
    verified and it makes the one query for the [userId] of the token,
    and answers 200 with the first row, 404 when there is none and 500
    when the query throws. *)
Theorem X10_profile_read_is_own (request : Request) (now : Z) (log : list call) :
  let answer := GET m pool_query JSON_stringify request now log in
  (answer.1 = log
   ∧ ∃ error message, answer.2 = Returns (unauthorized error message))
  ∨ ∃ token u,
      headers request !! "authorization" = Some ("Bearer " ++ token)
      ∧ verifyTokenSecure m token now = Ok u
      ∧ truthy (claim u "userId") = true
      ∧ answer.1 = (log ++ [(selectQuery, [claim u "userId"])])%list
      ∧ answer.2
        = Returns (respond JSON_stringify
            match pool_query log selectQuery [claim u "userId"] with
            | Err _ => message_response "Internal server error." 500
            | Ok [] => message_response "User not found." 404
            | Ok (userData :: _) => profile userData
            end).
Proof.
  cbn zeta. unfold GET.
  destruct (intercepted_cases getProfile request now log)
    as [(error & message & ->)|(token & u & Hh & Hv & ->)];
    [left; split; [done|by eexists _, _]|].
  pose proof (verifyTokenSecure_userId _ _ _ Hv) as Hu.
  right. exists token, u.
  assert (userId_of (assign_user request u) = Some (claim u "userId")) as Huser
    by (by destruct u).
  unfold ProfileRoute.getProfile. rewrite Huser.
  destruct (executeQuery_cases pool_query log selectQuery [claim u "userId"])
    as [(rows & -> & ->)|(e & [e0 ->] & ->)]; cbv beta iota.
  - by destruct rows.
  - done.
Qed.

(** X11. When the UPDATE of [updateProfile] returns no row and the two
    queries after it succeed, the log entry of the update is inserted
    all the same, and the answer is the 500 of the [catch] clause. *)
Theorem X11_update_without_row (request : Request) (log : list call) (o : jsobj)
    (userId : option jsval) (metadataResult inserted : list jsobj) :
  request_json (request_body request) = Value o →
  rejected Date_value today o = [] →
  userId_of request = Some userId →
  let calls := update_calls o userId in
  pool_query log updateQuery
    [o !! "username"; o !! "fullName"; o !! "bio"; o !! "longBio";
     o !! "address"; o !! "phone"; profileJson_param JSON_stringify o; userId]
  = Ok [] →
  pool_query (log ++ take 1 calls)%list metadataQuery [userId] = Ok metadataResult →
  pool_query (log ++ take 2 calls)%list logQuery [userId; Some (JStr "update_profile")]
  = Ok inserted →
  updateProfile request log
  = ((log ++ calls)%list, message_response "Internal server error." 500)
  ∧ (logQuery, [userId; Some (JStr "update_profile")]) ∈ calls.
Proof.
  intros Hbody Hr Huser calls Hupdate Hmeta Hlog. split.
  - unfold ProfileRoute.updateProfile. rewrite Hbody.
    assert (validate Date_value today o = []) as ->
      by (unfold rejected in Hr; by apply fmap_nil_inv in Hr).
    rewrite Huser. unfold executeQuery.
    rewrite Hupdate. cbv beta iota.
    match goal with |- context [pool_query ?l metadataQuery ?ps] =>
      change (pool_query l metadataQuery ps = Ok metadataResult) in Hmeta
    end.
    rewrite Hmeta. cbv beta iota.
    match goal with |- context [pool_query ?l logQuery ?ps] =>
      replace (pool_query l logQuery ps) with (Ok (E:=db_thrown) inserted)
        by (rewrite <- Hlog; f_equal; simpl; by rewrite <- app_assoc)
    end.
    cbv beta iota. simpl. by rewrite <- !app_assoc.
  - subst calls. unfold update_calls. do 2 right. by left.
Qed.

End interception.

End profile_facts.

(** ** Facts about the login route and the user route *)

Section login_facts.
Import jsonwebtoken Jwt Database Api Builtins LoginRoute.
Context `{Jose}.
Variable m : constants.
Variable pool_query : pool.
Variable bcrypt_compare : option jsval → option jsval → result thrown bool.

Local Abbreviation POST := (POST m pool_query bcrypt_compare).

Local Ltac next_query rows Hrows :=
  match goal with
  | |- context [executeQuery pool_query ?l ?q ?ps] =>
      destruct (executeQuery_cases pool_query l q ps)
        as [(rows & Hrows & ->)|(? & [? Hrows] & ->)];
      cbv beta iota
  end.

(** The body has an email and a password that [POST] lets through. *)
Definition presentable (o : jsobj) : bool :=
  truthy (o !! "email") && truthy (o !! "password")
  && negb (less (length_of (o !! "password")) (Some 6%Z)).

Lemma presentable_false o :
  presentable o = false
  ↔ truthy (o !! "email") = false ∨ truthy (o !! "password") = false
    ∨ less (length_of (o !! "password")) (Some 6%Z) = true.
Proof.
  unfold presentable. rewrite !andb_false_iff, negb_false_iff. tauto.
Qed.

Lemma POST_presentable o now log :
  presentable o = true →
  POST (Value o) now log
  = match executeQuery pool_query log authQuery [o !! "email"] with
    | (log, Err _) => (log, server_error)
    | (log, Ok []) => (log, invalid_credentials)
    | (log, Ok (user :: _)) =>
      if negb (Crypto.comparePassword bcrypt_compare (o !! "password") (user !! "password"))
      then (log, invalid_credentials)
      else
        match executeQuery pool_query log userDetailsQuery [user !! "user_id"] with
        | (log, Err _) => (log, server_error)
        | (log, Ok rows) =>
          let userDetails := default ∅ (head rows) in
          match generateToken m (tokenPayload user userDetails) now with
          | Err _ => (log, server_error)
          | Ok token =>
            match executeQuery pool_query log logQuery
                    [user !! "user_id"; Some (JStr "login")] with
            | (log, Err _) => (log, server_error)
            | (log, Ok _) => (log, success token user userDetails)
            end
          end
        end
    end.
Proof.
  unfold presentable. intros [[He Hp]%andb_prop Hl%negb_true_iff]%andb_prop.
  unfold LoginRoute.POST. by rewrite He, Hp, Hl.
Qed.

(** X12. [POST /api/login] answers 400 exactly when the body has no
    email or no password that is not falsy, or a password whose length
    is below six; it then has made no query. *)
Theorem X12_login_validates_first (body : parsed) (now : Z) (log : list call) :
  (next_status (POST body now log).2 = 400%Z
   ↔ ∃ o, body = Value o
        ∧ (truthy (o !! "email") = false ∨ truthy (o !! "password") = false
           ∨ less (length_of (o !! "password")) (Some 6%Z) = true))
  ∧ (next_status (POST body now log).2 = 400%Z → (POST body now log).1 = log).
Proof.
  destruct body as [| |o]; [split; [split; [done|by intros (? & ? & _)]|done]..|].
  destruct (presentable o) eqn:Hp.
  - assert (next_status (POST (Value o) now log).2 ≠ 400%Z) as Hne.
    { rewrite POST_presentable by done.
      next_query rows Hrows; [|done]. destruct rows as [|user rows]; [done|].
      destruct (negb _); [done|].
      next_query details Hdetails; [|done]. cbv zeta.
      destruct (generateToken _ _ _); [|done].
      by next_query inserted Hinserted. }
    split; [split; [done|]|done].
    intros (o' & [= <-] & Hbad%presentable_false). congruence.
  - pose proof Hp as Hbad%presentable_false.
    assert (∃ message, POST (Value o) now log = (log, message_response message 400))
      as [message ->].
    { unfold LoginRoute.POST. cbv zeta. unfold presentable in Hp.
      destruct (truthy (o !! "email")); [|by eexists].
      destruct (truthy (o !! "password")); [|by eexists].
      destruct (less _ _); [by eexists|done]. }
    split; [split; [by exists o|done]|done].
Qed.

(** X13. [POST /api/login] answers 401 exactly when the body is let
    through, the query for the email succeeds, and it returns no row or
    [bcrypt] does not confirm the password against the first row, which
    includes that [bcrypt] throws.  In all these cases the answer is the
    same, and the query for the email is the only one made. *)
Theorem X13_login_refusal (body : parsed) (now : Z) (log : list call) :
  (next_status (POST body now log).2 = 401%Z
   ↔ ∃ o rows, body = Value o ∧ presentable o = true
        ∧ pool_query log authQuery [o !! "email"] = Ok rows
        ∧ (rows = []
           ∨ ∃ user, head rows = Some user
               ∧ bcrypt_compare (o !! "password") (user !! "password") ≠ Ok true))
  ∧ (next_status (POST body now log).2 = 401%Z →
       ∃ o, body = Value o
         ∧ POST body now log
           = ((log ++ [(authQuery, [o !! "email"])])%list,
              message_response "Invalid credentials." 401)).
Proof.
  destruct body as [| |o]; [split; [split; [done|by intros (? & ? & ? & _)]|done]..|].
  destruct (presentable o) eqn:Hp.
  - rewrite POST_presentable by done.
    next_query rows Hrows.
    + destruct rows as [|user rows].
      { split; [split; [|done]|by exists o]. intros _. exists o, []. auto. }
      unfold Crypto.comparePassword.
      destruct (bcrypt_compare (o !! "password") (user !! "password"))
        as [[]|] eqn:Hb; cbn [negb];
        [|split; [split; [|done]|by exists o]; intros _; exists o, (user :: rows);
          split_and!; [done..|right; exists user; by rewrite Hb]..].
      assert (∀ answer : list call * NextResponse,
                next_status answer.2 ≠ 401%Z →
                (next_status answer.2 = 401%Z
                 ↔ ∃ o0 rows0, Value o = Value o0 ∧ presentable o0 = true
                     ∧ pool_query log authQuery [o0 !! "email"] = Ok rows0
                     ∧ (rows0 = []
                        ∨ ∃ user0, head rows0 = Some user0
                            ∧ bcrypt_compare (o0 !! "password") (user0 !! "password")
                              ≠ Ok true))
                ∧ (next_status answer.2 = 401%Z →
                     ∃ o0, Value o = Value o0
                       ∧ answer = ((log ++ [(authQuery, [o0 !! "email"])])%list,
                                   message_response "Invalid credentials." 401)))
        as Hother.
      { intros answer Hne. split; [split; [done|]|done].
        intros (o0 & rows0 & [= <-] & _ & Hrows0 & Hcase). exfalso.
        rewrite Hrows in Hrows0. injection Hrows0 as <-.
        destruct Hcase as [?|(user0 & [= <-] & Hb0)]; [done|]. by rewrite Hb in Hb0. }
      next_query details Hdetails; [|by apply Hother]. cbv zeta.
      destruct (generateToken _ _ _); [|by apply Hother].
      next_query inserted Hinserted; by apply Hother.
    + split; [split; [done|]|done].
      intros (o0 & rows0 & [= <-] & _ & Hrows0 & _). by rewrite Hrows in Hrows0.
  - assert (next_status (POST (Value o) now log).2 ≠ 401%Z) as Hne.
    { unfold presentable in Hp. unfold LoginRoute.POST.
      by destruct (truthy (o !! "email")), (truthy (o !! "password")),
        (less (length_of (o !! "password")) (Some 6%Z)). }
    split; [split; [done|]|done].
    intros (o0 & rows0 & [= <-] & Hp0 & _). congruence.
Qed.

Lemma tokenPayload_lookup (user userDetails : jsobj) (k : string) :
  k ≠ "userId" → k ≠ "role" → tokenPayload user userDetails !! k = None.
Proof.
  intros Hu Hr. unfold tokenPayload, Login.tokenPayload.
  destruct (user !! "user_id"), (userDetails !! "role"); by simplify_map_eq.
Qed.

Lemma tokenPayload_userId (user userDetails : jsobj) :
  tokenPayload user userDetails !! "userId" = user !! "user_id".
Proof.
  unfold tokenPayload, Login.tokenPayload.
  destruct (user !! "user_id"), (userDetails !! "role"); by simplify_map_eq.
Qed.

(** The token that [generateToken] mints for the payload of the login
    route, and what [verifyToken] makes of it before its expiry. *)
Lemma login_token_verifies (user userDetails : jsobj) (now now' : Z) (token : string) :
  generateToken m (tokenPayload user userDetails) now = Ok token →
  (now' < now + 86400)%Z →
  verifyToken m token now'
  = Ok (PObject (legacy_claims (tokenPayload user userDetails) now)).
Proof.
  intros Hg Hlt.
  assert (JWT_SECRET m ≠ "") as Hs.
  { unfold generateToken, sign in Hg.
    destruct (JWT_SECRET m =? "") eqn:E; [done|]. by apply String.eqb_neq. }
  apply generateToken_Ok in Hg as (iat & -> & Hiat).
  rewrite Hiat by (by apply tokenPayload_lookup).
  unfold verifyToken.
  rewrite (verify_validly_signed _ legacy_verify_options _
             (PObject (legacy_claims (tokenPayload user userDetails) now)) _ Hs)
    by (by apply jws_sign_validly_signed).
  unfold verify_claims, claim, legacy_claims. simpl.
  rewrite !lookup_insert_ne, tokenPayload_lookup by done.
  rewrite lookup_insert_eq.
  destruct (now + 86400 + 0 <=? now')%Z eqn:E; [apply Z.leb_le in E; lia|done].
Qed.

(** The part of a JSON object under a name. *)
Definition json_get (k : string) (b : json) : option json :=
  match b with
  | Obj fields => snd <$> List.find (λ f, f.1 =? k) fields
  | Leaf _ => None
  end.

Lemma POST_200 (body : parsed) (now : Z) (log : list call) :
  next_status (POST body now log).2 = 200%Z →
  ∃ o user rest rows token,
    body = Value o
    ∧ pool_query log authQuery [o !! "email"] = Ok (user :: rest)
    ∧ bcrypt_compare (o !! "password") (user !! "password") = Ok true
    ∧ pool_query (log ++ [(authQuery, [o !! "email"])])%list userDetailsQuery
        [user !! "user_id"] = Ok rows
    ∧ generateToken m (tokenPayload user (default ∅ (head rows))) now = Ok token
    ∧ POST body now log
      = ((log ++ [(authQuery, [o !! "email"]);
                  (userDetailsQuery, [user !! "user_id"]);
                  (logQuery, [user !! "user_id"; Some (JStr "login")])])%list,
         success token user (default ∅ (head rows))).
Proof.
  destruct body as [| |o]; [done..|].
  destruct (presentable o) eqn:Hp.
  - rewrite POST_presentable by done.
    next_query rows Hrows; [|done]. destruct rows as [|user rest]; [done|].
    unfold Crypto.comparePassword.
    destruct (bcrypt_compare (o !! "password") (user !! "password"))
      as [[]|] eqn:Hb; cbn [negb]; [|done..].
    next_query details Hdetails; [|done]. cbv zeta.
    destruct (generateToken _ _ _) as [token|] eqn:Hg; [|done].
    next_query inserted Hinserted; [|done]. intros _.
    exists o, user, rest, details, token.
    split_and!; [done..|by rewrite <- !app_assoc].
  - unfold presentable in Hp. unfold LoginRoute.POST. cbv zeta.
    by destruct (truthy (o !! "email")), (truthy (o !! "password")),
      (less (length_of (o !! "password")) (Some 6%Z)).
Qed.

(** X14. [POST /api/login] answers 200 only when [bcrypt] has confirmed
    the password of the body against the first row found for the email.
    It has then made its three queries in their order, and the token of
    the answer is the token that [generateToken] mints for the id and
    the role of that user; until 24 hours later [verifyToken] accepts
    it and gives back that id. *)
Theorem X14_login_success (body : parsed) (now : Z) (log : list call) :
  next_status (POST body now log).2 = 200%Z →
  ∃ o user rest rows token,
    body = Value o
    ∧ pool_query log authQuery [o !! "email"] = Ok (user :: rest)
    ∧ bcrypt_compare (o !! "password") (user !! "password") = Ok true
    ∧ pool_query (log ++ [(authQuery, [o !! "email"])])%list userDetailsQuery
        [user !! "user_id"] = Ok rows
    ∧ generateToken m (tokenPayload user (default ∅ (head rows))) now = Ok token
    ∧ POST body now log
      = ((log ++ [(authQuery, [o !! "email"]);
                  (userDetailsQuery, [user !! "user_id"]);
                  (logQuery, [user !! "user_id"; Some (JStr "login")])])%list,
         success token user (default ∅ (head rows)))
    ∧ ∀ now', (now' < now + 86400)%Z →
        ∃ claims : jsobj,
          verifyToken m token now' = Ok (PObject claims)
          ∧ claims !! "userId" = user !! "user_id".
Proof.
  intros (o & user & rest & rows & token & Hbody & Hrows & Hb & Hd & Hg & Hpost)%POST_200.
  exists o, user, rest, rows, token. split_and!; [done..|].
  intros now' Hlt. eexists. split; [by apply login_token_verifies|].
  unfold legacy_claims. rewrite !lookup_insert_ne by done.
  apply tokenPayload_userId.
Qed.

(** X15. Whoever logs in may read every user: a request that carries
    the token of a 200 answer of [POST /api/login], within 24 hours of
    it, passes the check of [GET /api/user/[id]], and the answer is that
    of [getUserById] for the id of the path, whatever the id of the
    token. *)
Theorem X15_login_opens_user_route (pathname : string → option string)
    (body : parsed) (now : Z) (log : list call) (token : string)
    (request : Request) (now' : Z) (log' : list call) :
  next_status (POST body now log).2 = 200%Z →
  json_get "token" (next_body (POST body now log).2)
  = Some (Leaf (Some (JStr token))) →
  headers request !! "authorization" = Some ("Bearer " ++ token) →
  (now' < now + 86400)%Z →
  UserByIdRoute.GET pool_query pathname (Ok m) request now' log'
  = UserByIdRoute.getUserById pool_query pathname request log'.
Proof.
  intros (o & user & rest & rows & token' & _ & _ & _ & _ & Hg & ->)%POST_200.
  simpl. intros [= <-] Hh Hlt.
  unfold UserByIdRoute.GET. rewrite Hh.
  unfold startsWith. rewrite prefix_append. cbn [negb].
  change (substring_from 7 ("Bearer " ++ token')) with token'.
  by rewrite (login_token_verifies _ _ _ _ _ Hg Hlt).
Qed.

End login_facts.

Section user_facts.
Import jsonwebtoken Jwt Database Api Builtins UserByIdRoute.
Context `{Jose}.
Variable pool_query : pool.
Variable pathname : string → option string.

Local Abbreviation getUserById := (getUserById pool_query pathname).
Local Abbreviation GET := (GET pool_query pathname).

(** [getUserById] does not read the identity attached to the request. *)
Lemma getUserById_assign_user request u log :
  getUserById (assign_user request u) log = getUserById request log.
Proof. done. Qed.

Lemma getUserById_status request log :
  next_status (getUserById request log).2 ≠ 401%Z.
Proof.
  unfold UserByIdRoute.getUserById.
  destruct (pathname (url request)); [|done].
  destruct (_ || _); [done|].
  destruct (executeQuery_cases pool_query log query
              [Some (JStr (default "" (last (split "/" s))))])
    as [(rows & _ & ->)|(? & _ & ->)]; [by destruct rows|done].
Qed.

(** X16. [GET /api/user/[id]] answers 401 exactly when the request has
    no [authorization] header that starts with the scheme, or the token
    module failed to load, or [verifyToken] refuses what follows the
    scheme; it then has made no query.  Otherwise the answer is that of
    [getUserById], whoever the token names. *)
Theorem X16_user_route_authenticates_first (jwt : result js_error constants)
    (request : Request) (now : Z) (log : list call) :
  let accepted :=
    ∃ token m u,
      headers request !! "authorization" = Some ("Bearer " ++ token)
      ∧ jwt = Ok m ∧ verifyToken m token now = Ok u in
  (next_status (GET jwt request now log).2 = 401%Z ↔ ¬ accepted)
  ∧ (next_status (GET jwt request now log).2 = 401%Z →
       (GET jwt request now log).1 = log)
  ∧ (accepted → GET jwt request now log = getUserById request log).
Proof.
  cbn zeta. unfold UserByIdRoute.GET.
  destruct (headers request !! "authorization") as [authHeader|] eqn:Hh;
    [|split_and!; [split; [by intros _ (? & ? & ? & ? & _)|done]|done|
                   by intros (? & ? & ? & ? & _)]].
  destruct (startsWith authHeader "Bearer ") eqn:Hp; cbn [negb].
  - apply (prefix_split "Bearer ") in Hp.
    change (String.length "Bearer ") with 7%nat in Hp.
    set (token := substring_from 7 authHeader) in *.
    assert (∀ token', Some authHeader = Some ("Bearer " ++ token') → token' = token)
      as Htoken.
    { intros token' [= Ht]. rewrite Hp in Ht. clear -Ht. simpl in Ht.
      by simplify_eq. }
    destruct jwt as [m|e].
    + destruct (verifyToken m token now) as [u|e] eqn:Hv.
      * rewrite getUserById_assign_user.
        split_and!; [split| |done].
        -- intros Hs. by apply getUserById_status in Hs.
        -- intros Hn. exfalso. apply Hn. exists token, m, u. by rewrite Hp at 1.
        -- intros Hs. by apply getUserById_status in Hs.
      * split_and!; [split; [|done]|done|].
        -- intros _ (token' & m' & u & ->%Htoken & [= <-] & Hv'). congruence.
        -- intros (token' & m' & u & ->%Htoken & [= <-] & Hv'). congruence.
    + split_and!; [split; [|done]|done|].
      * by intros _ (? & ? & ? & _ & ? & _).
      * by intros (? & ? & ? & _ & ? & _).
  - split_and!; [split; [|done]|done|].
    + intros _ (token' & ? & ? & [= ->] & _). unfold startsWith in Hp.
      by rewrite prefix_append in Hp.
    + intros (token' & ? & ? & [= ->] & _). unfold startsWith in Hp.
      by rewrite prefix_append in Hp.
Qed.

Lemma digit_not_whitespace a : Regex.digit a = true → is_whitespace a = false.
Proof.
  unfold Regex.digit, is_whitespace. cbv zeta.
  intros [?%Nat.leb_le ?%Nat.leb_le]%andb_prop.
  rewrite !orb_false_iff, andb_false_iff, !Nat.eqb_neq, !Nat.leb_gt. lia.
Qed.

Lemma digit_digit_value a : Regex.digit a = true → is_Some (digit_value 10 a).
Proof. unfold Regex.digit, digit_value. cbv zeta. by intros ->. Qed.

(** [parseInt] of a string that starts with a decimal digit, the digit
    not being a zero before [x] or [X]. *)
Lemma parseInt_leading_digit a rest :
  Regex.digit a = true →
  (a = "0"%char → startsWith rest "x" = false ∧ startsWith rest "X" = false) →
  isNaN (parseInt (String a rest)) = false.
Proof.
  intros Hd Hx. unfold parseInt.
  cbn [trim_start]. rewrite (digit_not_whitespace a Hd).
  destruct (Ascii.eqb_spec a "-") as [->|_]; [done|].
  destruct (Ascii.eqb_spec a "+") as [->|_]; [done|].
  destruct (digit_digit_value a Hd) as [d Hv].
  destruct rest as [|x t]; [rewrite Hv; apply isNaN_nearest|].
  destruct (Ascii.eqb_spec a "0") as [->|_]; cbn [andb];
    [|rewrite Hv; apply isNaN_nearest].
  destruct (Hx eq_refl) as [Hx1 Hx2]. unfold startsWith in Hx1, Hx2.
  destruct (Ascii.eqb_spec x "x") as [->|_]; [by destruct t; vm_compute in Hx1|].
  destruct (Ascii.eqb_spec x "X") as [->|_]; [by destruct t; vm_compute in Hx2|].
  cbn [orb]. rewrite Hv. apply isNaN_nearest.
Qed.

(** X17. [getUserById] takes for the id whatever follows the last slash
    of the path and asks of it no more than [parseInt] does: when it
    starts with a decimal digit (not a zero before [x] or [X]) the query
    is made, and it is bound to the whole of it, digits or not. *)
Theorem X17_leading_digit_suffices (request : Request) (path : string) (a : ascii)
    (rest : string) (log : list call) :
  pathname (url request) = Some path →
  last (split "/" path) = Some (String a rest) →
  Regex.digit a = true →
  (a = "0"%char → startsWith rest "x" = false ∧ startsWith rest "X" = false) →
  (getUserById request log).1
  = (log ++ [(query, [Some (JStr (String a rest))])])%list
  ∧ next_status (getUserById request log).2 ≠ 400%Z.
Proof.
  intros Hpath Hlast Hd Hx. unfold UserByIdRoute.getUserById.
  rewrite Hpath, Hlast. cbv zeta.
  change (default "" (Some (String a rest))) with (String a rest).
  change (String a rest =? "") with false.
  rewrite (parseInt_leading_digit a rest Hd Hx). cbn [orb].
  destruct (executeQuery_cases pool_query log query [Some (JStr (String a rest))])
    as [(rows & _ & ->)|(? & _ & ->)]; [by destruct rows|done].
Qed.

End user_facts.

(** ** Facts about the users route *)

Section users_facts.
Import Api Builtins UsersRoute.
Variable get : string → option string.

Lemma limit_range :
  limit get = NaN ∨ ∃ l, limit get = Fin l ∧ (1 ≤ l ≤ 100)%Z.
Proof.
  unfold limit. destruct (parseInt _) as [|n|[]]; simpl.
  - by left.
  - right. destruct (1 <? n)%Z eqn:E1; simpl.
    + destruct (n <? 100)%Z eqn:E2; eexists; (split; [done|]); lia.
    + exists 1%Z. split; [done|]. lia.
  - right. exists 1%Z. split; [done|]. lia.
  - right. exists 100%Z. split; [done|]. lia.
Qed.

Lemma page_range :
  page get = NaN ∨ page get = Infinity false ∨ ∃ p, page get = Fin p ∧ (1 ≤ p)%Z.
Proof.
  unfold page. destruct (parseInt _) as [|n|[]]; simpl.
  - by left.
  - right; right. destruct (1 <? n)%Z eqn:E1; eexists; (split; [done|]); lia.
  - right; right. exists 1%Z. split; [done|]. lia.
  - right; by left.
Qed.

Lemma limit_Fin (l : Z) : limit get = Fin l → (1 ≤ l ≤ 100)%Z.
Proof.
  intros Hl. destruct limit_range as [E|(n & E & Hn)]; rewrite E in Hl; [done|].
  by injection Hl as <-.
Qed.

Lemma page_Fin (p : Z) : page get = Fin p → (1 ≤ p)%Z.
Proof.
  intros Hp. destruct page_range as [E|[E|(n & E & Hn)]]; rewrite E in Hp; [done..|].
  by injection Hp as <-.
Qed.

Lemma offset_range :
  offset get = NaN ∨ offset get = Infinity false
  ∨ ∃ o, offset get = Fin o ∧ (0 ≤ o)%Z.
Proof.
  unfold offset.
  destruct limit_range as [->|(l & -> & Hl)];
    [left; by destruct (subtract _ _)|].
  destruct page_range as [->|[->|(p & -> & Hp)]].
  - by left.
  - right; left. simpl. replace (l =? 0)%Z with false by lia.
    by replace (l <? 0)%Z with false by lia.
  - right. cbn [subtract].
    destruct (nearest_nonneg (p - 1) ltac:(lia)) as [->|(v & -> & Hv)].
    + left. simpl. replace (l =? 0)%Z with false by lia.
      by replace (l <? 0)%Z with false by lia.
    + cbn [multiply]. destruct (nearest_nonneg (v * l) ltac:(nia)) as [->|(o & -> & Ho)];
        [by left|right; by exists o].
Qed.

(** X18. In [GET /api/users] the limit is [NaN] or a number from 1 to
    100; the page is [NaN], infinite or a number not below 1; the offset
    is [NaN], infinite or a number not below 0, so it is never negative.
    For a page up to 2^53 the offset is the product of the page less one
    and the limit, rounded, and it is that product itself wherever the
    product is below 2^53.  A parameter that is absent or empty gives
    page 1 and limit 20; and a parameter in which [parseInt] finds no
    number is not replaced by the default: the page, the limit and the
    offset bound to the query are then [NaN]. *)
Theorem X18_pagination_bounds :
  (limit get = NaN ∨ ∃ l, limit get = Fin l ∧ (1 ≤ l ≤ 100)%Z)
  ∧ (page get = NaN ∨ page get = Infinity false
     ∨ ∃ p, page get = Fin p ∧ (1 ≤ p)%Z)
  ∧ (offset get = NaN ∨ offset get = Infinity false
     ∨ ∃ o, offset get = Fin o ∧ (0 ≤ o)%Z)
  ∧ (∀ p l, page get = Fin p → limit get = Fin l →
       ((p ≤ 2 ^ 53)%Z → offset get = nearest ((p - 1) * l))
       ∧ (((p - 1) * l < 2 ^ 53)%Z → offset get = Fin ((p - 1) * l)))
  ∧ (get "page" = None ∨ get "page" = Some "" → page get = Fin 1)
  ∧ (get "limit" = None ∨ get "limit" = Some "" → limit get = Fin 20)
  ∧ (limit get = NaN ↔ parseInt (or_default (get "limit") "20") = NaN)
  ∧ (page get = NaN ↔ parseInt (or_default (get "page") "1") = NaN)
  ∧ (offset get = NaN ↔ page get = NaN ∨ limit get = NaN).
Proof.
  split_and!.
  - apply limit_range.
  - apply page_range.
  - apply offset_range.
  - intros p l Hp Hl.
    pose proof (limit_Fin l Hl) as Hlr. pose proof (page_Fin p Hp) as Hpr.
    unfold offset. rewrite Hp, Hl. cbn [subtract]. split; intros Hb.
    + rewrite nearest_exact by lia. done.
    + rewrite nearest_exact by nia. cbn [multiply].
      apply nearest_exact. nia.
  - unfold page. by intros [->| ->].
  - unfold limit. by intros [->| ->].
  - unfold limit. destruct (parseInt _) as [|n|[]]; simpl; [done| |done..].
    destruct (1 <? n)%Z; simpl; [|done]. by destruct (n <? 100)%Z.
  - unfold page. destruct (parseInt _) as [|n|[]]; simpl; [done| |done..].
    by destruct (1 <? n)%Z.
  - split.
    + intros Ho. unfold offset in Ho.
      destruct limit_range as [->|(l & Hl & Hlr)]; [by right|].
      destruct page_range as [->|[Hp|(p & Hp & Hpr)]]; [by left|..];
        exfalso; rewrite Hp, Hl in Ho; cbn [subtract] in Ho.
      * simpl in Ho. by replace (l =? 0)%Z with false in Ho by lia.
      * destruct (nearest_nonneg (p - 1) ltac:(lia)) as [E|(v & E & Hv)];
          rewrite E in Ho; simpl in Ho.
        -- by replace (l =? 0)%Z with false in Ho by lia.
        -- pose proof (isNaN_nearest (v * l)) as Hn. by rewrite Ho in Hn.
    + unfold offset. intros [->| ->]; [done|]. by destruct (subtract _ _).
Qed.

Definition where_clause : string := " WHERE ud.division_name = $1".

(** The two texts of the main query. *)
Definition unfiltered_query : string :=
  select ++ " 
      ORDER BY u.created_at DESC 
      LIMIT $1 
      OFFSET $2".

Definition filtered_query : string :=
  select ++ where_clause ++ " 
      ORDER BY u.created_at DESC 
      LIMIT $2 
      OFFSET $3".

Lemma sanitizedDivision_Some d :
  sanitizedDivision get = Some d
  ↔ d ∈ validDivisions ∧ ∃ s, get "division" = Some s ∧ toLowerCase (trim s) = d.
Proof.
  unfold sanitizedDivision, divisionFilter. split.
  - destruct (get "division") as [s|]; [|done].
    destruct (trim s =? ""); [done|].
    destruct (existsb _ _) eqn:He; [|done]. intros [= <-].
    split; [|by exists s].
    apply existsb_exists in He as (x & Hin & ->%String.eqb_eq).
    by apply list_elem_of_In.
  - intros [Hin (s & -> & <-)].
    destruct (String.eqb_spec (trim s) "") as [E|_].
    + rewrite E in Hin. exfalso. clear -Hin. unfold validDivisions in Hin.
      repeat (apply elem_of_cons in Hin as [?|Hin]; [done|]).
      by apply elem_of_nil in Hin.
    + assert (existsb (String.eqb (toLowerCase (trim s))) validDivisions = true) as ->;
        [|done].
      apply existsb_exists. exists (toLowerCase (trim s)).
      split; [by apply list_elem_of_In|apply String.eqb_refl].
Qed.

(** X19. What the request says of the division reaches the database
    only as a bound value, and only when, trimmed and in lower case, it
    is one of the five names: the text of the main query is one of two
    fixed texts and the text of the count one of two, and the
    placeholders of each text are as many as the values bound to it. *)
Theorem X19_division_is_bound :
  (∀ d, sanitizedDivision get = Some d
        ↔ d ∈ validDivisions
          ∧ ∃ s, get "division" = Some s ∧ toLowerCase (trim s) = d)
  ∧ ((∃ d, d ∈ ["engineering"; "marketing"; "sales"; "hr"; "finance"]
         ∧ sanitizedDivision get = Some d
         ∧ query get = filtered_query
         ∧ queryParams get = [Name d; Number (limit get); Number (offset get)]
         ∧ countQuery get = count ++ where_clause
         ∧ countParams get = [Name d])
     ∨ ((sanitizedDivision get = None ∨ sanitizedDivision get = Some "all")
        ∧ query get = unfiltered_query
        ∧ queryParams get = [Number (limit get); Number (offset get)]
        ∧ countQuery get = count
        ∧ countParams get = [])).
Proof.
  split; [apply sanitizedDivision_Some|].
  unfold query, queryParams, countQuery, countParams, filtered.
  destruct (sanitizedDivision get) as [d|] eqn:Hd.
  - pose proof Hd as [Hin _]%sanitizedDivision_Some.
    destruct (String.eqb_spec d "all") as [->|Hne]; cbn [negb].
    + right. split_and!; [by right|done|done| |done].
      by rewrite append_nil_r.
    + left. exists d. split_and!; [|done..].
      unfold validDivisions in Hin.
      repeat (apply elem_of_cons in Hin as [->|Hin]; [set_solver|]).
      by apply elem_of_nil in Hin.
  - right. split_and!; [by left|done|done| |done]. by rewrite append_nil_r.
Qed.

(** X20. With a page and a limit that are numbers and a total that is
    a safe integer (below 2^53 in size), the number of pages is the
    least that holds the total, and the answer announces a next page
    exactly when the pages up to the current one do not hold the
    total. *)
Theorem X20_next_page (rows : list jsobj) (p l t : Z) :
  page get = Fin p → limit get = Fin l → totalCount rows = Fin t →
  (- 2 ^ 53 < t < 2 ^ 53)%Z →
  ∃ n, pagination_totalPages (pagination_of get rows) = Fin n
    ∧ ((n - 1) * l < t ≤ n * l)%Z
    ∧ (hasNextPage (pagination_of get rows) = true ↔ (p * l < t)%Z)
    ∧ (hasPrevPage (pagination_of get rows) = true ↔ (1 < p)%Z).
Proof.
  intros Hp Hl Ht Hsafe.
  pose proof (limit_Fin l Hl) as Hrange.
  unfold pagination_of, totalPages. cbn [pagination_totalPages hasNextPage hasPrevPage].
  rewrite Hp, Hl, Ht. rewrite ceil_div_exact by lia.
  exists (- (- t / l))%Z.
  pose proof (Z.div_mod (- t) l ltac:(lia)) as Hdiv.
  pose proof (Z.mod_pos_bound (- t) l ltac:(lia)) as Hmod.
  split_and!; [done|nia|nia| |].
  - cbn [below]. rewrite Z.ltb_lt. nia.
  - cbn [below]. by rewrite Z.ltb_lt.
Qed.

End users_facts.

(** ** Facts about the configuration of the pool *)

Section config_facts.
Import Builtins.

Lemma filter_unset_nil (e : Database.env) :
  List.filter (Database.unset e) Database.requiredVars = []
  ↔ ∀ v, v ∈ Database.requiredVars → Database.unset e v = false.
Proof.
  split.
  - intros Hnil v Hin. destruct (Database.unset e v) eqn:Hu; [|done].
    assert (In v (List.filter (Database.unset e) Database.requiredVars)) as Hf
      by (apply filter_In; split; [by apply list_elem_of_In|done]).
    by rewrite Hnil in Hf.
  - intros Hall. induction Database.requiredVars as [|x l IH]; [done|]. simpl.
    rewrite (Hall x) by (by left). apply IH. intros v Hv. apply Hall. by right.
Qed.

Lemma env_or_set (e : Database.env) (v fallback : string) :
  Database.unset e v = false →
  e !! v = Some (Database.env_or e v fallback) ∧ Database.env_or e v fallback ≠ "".
Proof.
  unfold Database.unset, Database.env_or. destruct (e !! v) as [value|]; [|done].
  intros Hv. rewrite Hv. split; [done|]. by apply String.eqb_neq.
Qed.

(** X21. In production the database module loads exactly when the four
    required variables are set and not empty, and the pool then takes
    its user, host, database and password from them and none from the
    defaults.  Anywhere else it always loads, and a password that is not
    set becomes the default password. *)
Theorem X21_pool_configuration (e : Database.env) :
  (Database.production e = true →
     ((∃ c, Database.load e = Ok c)
      ↔ ∀ v, v ∈ Database.requiredVars → Database.unset e v = false)
     ∧ ∀ c, Database.load e = Ok c →
         e !! "DB_USER" = Some (Database.pool_user c)
         ∧ e !! "DB_HOST" = Some (Database.pool_host c)
         ∧ e !! "DB_NAME" = Some (Database.pool_database c)
         ∧ e !! "DB_PASSWORD" = Some (Database.pool_password c)
         ∧ Database.pool_password c ≠ ""
         ∧ Database.pool_ssl c = Some false)
  ∧ (Database.production e = false →
       Database.load e = Ok (Database.poolConfig e)
       ∧ (Database.unset e "DB_PASSWORD" = true →
            Database.pool_password (Database.poolConfig e) = "admin123")).
Proof.
  unfold Database.load, Database.validateEnvVars. split; intros Hprod; rewrite Hprod.
  - destruct (List.filter _ _) as [|x missing] eqn:Hf.
    + pose proof (proj1 (filter_unset_nil e) Hf) as Hall. simpl. split.
      * split; [done|by eexists].
      * intros c [= <-]. simpl. rewrite Hprod.
        destruct (env_or_set e "DB_USER" "postgres") as [? _]; [apply Hall; set_solver|].
        destruct (env_or_set e "DB_HOST" "localhost") as [? _]; [apply Hall; set_solver|].
        destruct (env_or_set e "DB_NAME" "workshop_db") as [? _]; [apply Hall; set_solver|].
        destruct (env_or_set e "DB_PASSWORD" "admin123") as [? ?]; [apply Hall; set_solver|].
        done.
    + simpl. split; [|done]. split; [by intros [c ?]|].
      intros Hall%filter_unset_nil. by rewrite Hall in Hf.
  - rewrite andb_false_r. split; [done|].
    unfold Database.unset, Database.poolConfig, Database.env_or. simpl.
    destruct (e !! "DB_PASSWORD") as [value|]; [|done]. by intros ->.
Qed.

End config_facts.

(** ** The refresh token on the two verification paths *)

Section refresh_facts.
Import jsonwebtoken Jwt.
Context `{Jose}.

(** The claim checks of the legacy path on the claims of the hardened
    path. *)
Lemma verify_claims_legacy (o : jsobj) now ttl now' :
  o !! "nbf" = None → (now' < now + ttl)%Z →
  verify_claims (PObject (secure_claims o now ttl)) legacy_verify_options now'
  = Ok (PObject (secure_claims o now ttl)).
Proof.
  intros Hnbf Hlt. unfold verify_claims, secure_claims, claim. simpl.
  rewrite !lookup_insert_ne, Hnbf by done.
  rewrite lookup_insert_eq.
  destruct (now + ttl + 0 <=? now')%Z eqn:E; [apply Z.leb_le in E; lia|done].
Qed.

(** X22. The refresh token of a loaded module is an access token on the
    legacy path: [verifyToken] accepts it for seven days, and so does
    [GET /api/user/[id]], which answers as [getUserById] does; while
    [verifyTokenSecure] never accepts it, its payload having no
    email. *)
Theorem X22_refresh_token_on_legacy_path (env : process_env) (m : constants)
    (userId : string) (now : Z) :
  Jwt.load env = Ok m → userId ≠ "" →
  ∃ token (claims : jsobj),
    generateRefreshToken m userId now = Ok token
    ∧ claims !! "type" = Some (JStr "refresh")
    ∧ claims !! "userId" = Some (JStr userId)
    ∧ (∀ now', (now' < now + 604800)%Z →
         verifyToken m token now' = Ok (PObject claims)
         ∧ ∀ pool_query pathname request log,
             headers request !! "authorization" = Some ("Bearer " ++ token) →
             UserByIdRoute.GET pool_query pathname (Ok m) request now' log
             = UserByIdRoute.getUserById pool_query pathname request log)
    ∧ (∀ now', ∃ e, verifyTokenSecure m token now' = Err e).
Proof.
  intros Hload Hu.
  pose proof (load_nonempty _ _ Hload) as [Hs Hvs].
  pose proof (load_one_secret _ _ Hload) as Hone.
  set (o := ({[ "userId" := JStr userId; "type" := JStr "refresh" ]} : jsobj)).
  set (claims := secure_claims o now 604800).
  set (token := jws_sign (jwt_header HS256) claims HS256 (VALIDATED_JWT_SECRET m)).
  assert (∀ allowed, existsb (hs_alg_eqb HS256) allowed = true →
            validly_signed (VALIDATED_JWT_SECRET m) allowed token (PObject claims))
    as Hsigned by (intros allowed Ha; by apply jws_sign_validly_signed).
  assert (∀ now', (now' < now + 604800)%Z →
            verifyToken m token now' = Ok (PObject claims)) as Hlegacy.
  { intros now' Hlt. unfold verifyToken. rewrite Hone.
    rewrite (verify_validly_signed _ legacy_verify_options _ (PObject claims) _ Hvs)
      by (by apply Hsigned).
    by apply verify_claims_legacy. }
  exists token, claims. split_and!.
  - by apply generateRefreshToken_Ok.
  - unfold claims. by rewrite secure_claims_lookup.
  - unfold claims. by rewrite secure_claims_lookup.
  - intros now' Hlt. split; [by apply Hlegacy|].
    intros pool_query pathname request log Hh.
    unfold UserByIdRoute.GET. rewrite Hh.
    unfold startsWith. rewrite prefix_append. cbn [negb].
    change (substring_from 7 ("Bearer " ++ token)) with token.
    by rewrite (Hlegacy now' Hlt).
  - intros now'. apply verifyTokenSecure_needs_email. intros p.
    rewrite (jwt_decode_validly_signed (VALIDATED_JWT_SECRET m) [HS256] token
               (PObject claims)) by (by apply Hsigned).
    intros [= <-]. unfold claim, claims. by rewrite secure_claims_lookup.
Qed.

End refresh_facts.

(** ** Example pools, users and requests *)

Module Scenario.
Import jsonwebtoken Jwt Database Api Builtins.

Definition econnreset : pg_error :=
  {| pg_message := "read ECONNRESET"; pg_code := Some "ECONNRESET" |}.

Definition syntax_error : pg_error :=
  {| pg_message := "syntax error at or near SELEC"; pg_code := Some "42601" |}.

Definition connection_refused : pg_error :=
  {| pg_message := "connect ECONNREFUSED 127.0.0.1:5432"; pg_code := Some "ECONNREFUSED" |}.

(** A pool that loses the connection for its first [n] calls and then
    returns no row, and a pool that refuses every query. *)
Definition flaky (n : nat) : pool :=
  λ log _ _, if (List.length log <? n)%nat then Err (ThrownPg econnreset) else Ok [].

Definition refusing : pool := λ _ _ _, Err (ThrownPg syntax_error).

(** A client on which the second query of a transaction fails. *)
Definition failing_second : client :=
  λ log text _, if text =? "UPDATE b" then Err (ThrownPg syntax_error) else Ok [].

(** A database with one user. *)
Definition bob : jsobj :=
  {[ "auth_id" := JNum 3; "email" := JStr "bob@example.com";
     "password" := JStr "hash-of-hunter22"; "user_id" := JNum 7;
     "username" := JStr "bobby1"; "full_name" := JStr "Bob" ]}.

Definition bob_details : jsobj := {[ "role" := JStr "user" ]}.

Definition one_user : pool :=
  λ _ query params,
    if query =? LoginRoute.authQuery
    then match params with
         | [Some (JStr "bob@example.com")] => Ok [bob]
         | _ => Ok []
         end
    else if query =? LoginRoute.userDetailsQuery then Ok [bob_details]
    else Ok [].

(** A pool without any row. *)
Definition empty : pool := λ _ _ _, Ok [].

Definition bcrypt_compare (password hash : option jsval) : result thrown bool :=
  match password, hash with
  | Some (JStr p), Some (JStr h) => Ok (h =? "hash-of-" ++ p)
  | _, _ => Err ThrownValue
  end.

Definition credentials (email password : string) : parsed :=
  Value {[ "email" := JStr email; "password" := JStr password ]}.

(** The token of the login of bob in a test run at time 1000. *)
Definition bob_token : string :=
  jws_sign (H := Reference.reference) (jwt_header HS256)
    (legacy_claims (LoginRoute.tokenPayload bob bob_details) 1000) HS256 fallback_secret.

Definition user_request (path token : string) : Request :=
  {| headers := {[ "authorization" := "Bearer " ++ token ]};
     url := path; request_body := ""; user := None |}.

(** The path of a URL that is given by its path. *)
Definition pathname (url : string) : option string := Some url.

(** A body that [updateProfile] lets through, and the request of a
    verified user that carries it. *)
Definition new_profile : jsobj :=
  {[ "username" := JStr "bobby1"; "fullName" := JStr "Bob";
     "email" := JStr "bob@example.com"; "phone" := JStr "0123456789" ]}.

Definition request_json (body : string) : parsed := Value new_profile.

Definition Date_value (v : jsval) : number := None.

Definition JSON_stringify (b : json) : string := "{}".

Definition update_request : Request :=
  {| headers := ∅; url := "/api/profile"; request_body := "{}";
     user := Some (PObject {[ "userId" := JStr "7"; "email" := JStr "bob@example.com" ]}) |}.

(** The second page of ten out of twenty-five users of a division. *)
Definition second_page (name : string) : option string :=
  if name =? "page" then Some "2"
  else if name =? "limit" then Some "10"
  else if name =? "division" then Some "  Sales "
  else None.

Definition total_of (n : string) : list jsobj := [{[ "total_count" := JStr n ]}].

(** A page beyond what a double counts one by one. *)
Definition far_page (name : string) : option string :=
  if name =? "page" then Some "99999999999999999999" else None.

(** The last page when every page holds one user and the users are as
    many as a double counts one by one. *)
Definition last_single (name : string) : option string :=
  if name =? "page" then Some "9007199254740992"
  else if name =? "limit" then Some "1"
  else None.

End Scenario.

(** ** Running the routes and the database helpers *)

Section scenario_runs.
Import jsonwebtoken Jwt Database Api Builtins Scenario.

Example run_retry :
  executeQueryWithRetry (flaky 2) [] "SELECT 1" [] 3
  = {| calls_made := [("SELECT 1", []); ("SELECT 1", []); ("SELECT 1", [])];
       delays := [1000; 2000]%Z;
       settled := Ok [] |}
  ∧ delays (executeQueryWithRetry (flaky 9) [] "SELECT 1" [] 6)
    = [1000; 2000; 4000; 5000; 5000]%Z
  ∧ calls_made (executeQueryWithRetry (flaky 9) [] "SELECT 1" [] 0) = [].
Proof. by vm_compute. Qed.

Example run_transaction :
  executeTransaction unit (Ok failing_second)
    [("UPDATE a", None); ("UPDATE b", None); ("UPDATE c", None)] None []
  = ([ClientQuery "BEGIN" None; ClientQuery "UPDATE a" None;
      ClientQuery "UPDATE b" None; ClientQuery "ROLLBACK" None; Release],
     Err (ThrownPg syntax_error))
  ∧ executeTransaction unit (Err (ThrownPg connection_refused))
      [("UPDATE a", None)] None []
    = ([], Err (ThrownPg connection_refused)).
Proof. by vm_compute. Qed.

Example run_decimal :
  decimal 0 = "0" ∧ decimal 1234567890 = "1234567890" ∧ decimal (-25) = "-25"
  ∧ decimal 1000 = "1000" ∧ parseInt (decimal 9007199254740991) = Fin 9007199254740991
  ∧ to_String (JArr [JNum 1; JNull; JArr [JStr "a"; JBool true]]) = "1,,a,true".
Proof. by vm_compute. Qed.

Example run_parseInt :
  parseInt "42" = Fin 42 ∧ parseInt "  -7px" = Fin (-7)
  ∧ parseInt "0x1f" = Fin 31 ∧ parseInt "abc" = NaN ∧ parseInt "" = NaN
  ∧ parseInt "0x" = NaN
  ∧ parseInt "9007199254740993" = Fin 9007199254740992
  ∧ parseInt "9007199254740995" = Fin 9007199254740996
  ∧ parseInt "99999999999999999999" = Fin 100000000000000000000.
Proof. by vm_compute. Qed.

Example run_doubles :
  nearest (2 ^ 1024 - 2 ^ 970 - 1) = Fin (2 ^ 1024 - 2 ^ 971)
  ∧ nearest (2 ^ 1024 - 2 ^ 970) = Infinity false
  ∧ Math_ceil_div (Fin 25) (Fin 10) = Fin 3
  ∧ Math_ceil_div (Fin (-25)) (Fin 10) = Fin (-2)
  ∧ Math_ceil_div (Fin 9007199254740992) (Fin 3) = Fin 3002399751580331
  ∧ Math_ceil_div (Fin 36028797018963968) (Fin 7) = Fin 5146971002709138
  ∧ Math_ceil_div (Fin 0) (Fin 0) = NaN
  ∧ multiply (Infinity false) (Fin 0) = NaN
  ∧ subtract (Fin 9007199254740994) (Fin 1) = Fin 9007199254740992.
Proof. by vm_compute. Qed.

Example run_patterns :
  Regex.matches ProfileRoute.email_pattern "bob@example.com" = true
  ∧ Regex.matches ProfileRoute.email_pattern "bob@example" = false
  ∧ Regex.matches ProfileRoute.email_pattern "b ob@example.com" = false
  ∧ Regex.matches ProfileRoute.phone_pattern "0123456789" = true
  ∧ Regex.matches ProfileRoute.phone_pattern "012345678" = false
  ∧ Regex.matches ProfileRoute.phone_pattern "0123456789012345" = false
  ∧ Regex.matches ProfileRoute.phone_pattern "01234-56789" = false.
Proof. by vm_compute. Qed.

Example run_login :
  let status body :=
    next_status (LoginRoute.POST (H := Reference.reference) Example.test_constants
                   one_user bcrypt_compare body 1000 []).2 in
  status (credentials "bob@example.com" "hunter22") = 200%Z
  ∧ status (credentials "bob@example.com" "hunter23") = 401%Z
  ∧ status (credentials "eve@example.com" "hunter22") = 401%Z
  ∧ status (credentials "bob@example.com" "hunt") = 400%Z
  ∧ status (credentials "" "hunter22") = 400%Z
  ∧ status Null = 500%Z.
Proof. by vm_compute. Qed.

Example run_users_plan :
  UsersRoute.sanitizedDivision second_page = Some "sales"
  ∧ UsersRoute.queryParams second_page
    = [UsersRoute.Name "sales"; UsersRoute.Number (Fin 10);
       UsersRoute.Number (Fin 10)]
  ∧ UsersRoute.pagination_of second_page (total_of "25")
    = {| UsersRoute.pagination_page := Fin 2;
         UsersRoute.pagination_limit := Fin 10;
         UsersRoute.total := Fin 25;
         UsersRoute.pagination_totalPages := Fin 3;
         UsersRoute.hasNextPage := true;
         UsersRoute.hasPrevPage := true |}.
Proof. by vm_compute. Qed.

(** Beyond 2^53 the numbers are the nearest doubles: the page that the
    digits write is not the page of the answer, and a total of 2^53 + 1
    is counted as 2^53. *)
Example run_users_rounding :
  UsersRoute.page far_page = Fin 100000000000000000000
  ∧ UsersRoute.limit far_page = Fin 20
  ∧ UsersRoute.offset far_page = Fin 2000000000000000000000
  ∧ UsersRoute.pagination_of last_single (total_of "9007199254740993")
    = {| UsersRoute.pagination_page := Fin 9007199254740992;
         UsersRoute.pagination_limit := Fin 1;
         UsersRoute.total := Fin 9007199254740992;
         UsersRoute.pagination_totalPages := Fin 9007199254740992;
         UsersRoute.hasNextPage := false;
         UsersRoute.hasPrevPage := true |}.
Proof. by vm_compute. Qed.

End scenario_runs.

(** ** The properties on the examples *)

Section scenario_witnesses.
Import jsonwebtoken Jwt Database Api Builtins Scenario.

Local Opaque jws_sign.

Lemma X3_witness :
  executeQueryWithRetry refusing [] "SELEC 1" [] 3
  = {| calls_made := [("SELEC 1", [])]; delays := [];
       settled := Err (ThrownPg
         {| pg_message := "Database query failed: syntax error at or near SELEC";
            pg_code := Some "42601" |}) |}.
Proof.
  apply (X3_no_retry_of_other_errors refusing [] "SELEC 1" [] 3
           (ThrownPg {| pg_message := "Database query failed: syntax error at or near SELEC";
                        pg_code := Some "42601" |}));
    [lia|reflexivity|reflexivity].
Defined.

Lemma X11_witness :
  ProfileRoute.updateProfile empty request_json Date_value 0 JSON_stringify
    update_request []
  = (update_calls JSON_stringify new_profile (Some (JStr "7")),
     message_response "Internal server error." 500)
  ∧ (ProfileRoute.logQuery, [Some (JStr "7"); Some (JStr "update_profile")])
    ∈ update_calls JSON_stringify new_profile (Some (JStr "7")).
Proof.
  apply (X11_update_without_row empty request_json Date_value 0 JSON_stringify
           update_request [] new_profile (Some (JStr "7")) [] []);
    reflexivity.
Defined.

Lemma X14_witness :
  ∃ o user rest rows token,
    credentials "bob@example.com" "hunter22" = Value o
    ∧ one_user [] LoginRoute.authQuery [o !! "email"] = Ok (user :: rest)
    ∧ bcrypt_compare (o !! "password") (user !! "password") = Ok true
    ∧ one_user ([] ++ [(LoginRoute.authQuery, [o !! "email"])])%list
        LoginRoute.userDetailsQuery [user !! "user_id"] = Ok rows
    ∧ generateToken (H := Reference.reference) Example.test_constants
        (LoginRoute.tokenPayload user (default ∅ (head rows))) 1000 = Ok token
    ∧ LoginRoute.POST (H := Reference.reference) Example.test_constants one_user
        bcrypt_compare (credentials "bob@example.com" "hunter22") 1000 []
      = (([] ++ [(LoginRoute.authQuery, [o !! "email"]);
                 (LoginRoute.userDetailsQuery, [user !! "user_id"]);
                 (LoginRoute.logQuery, [user !! "user_id"; Some (JStr "login")])])%list,
         LoginRoute.success token user (default ∅ (head rows)))
    ∧ ∀ now', (now' < 1000 + 86400)%Z →
        ∃ claims : jsobj,
          verifyToken (H := Reference.reference) Example.test_constants token now'
          = Ok (PObject claims)
          ∧ claims !! "userId" = user !! "user_id".
Proof.
  apply (X14_login_success (H := Reference.reference) Example.test_constants
           one_user bcrypt_compare (credentials "bob@example.com" "hunter22") 1000 []).
  vm_compute. reflexivity.
Defined.

Lemma X15_witness :
  UserByIdRoute.GET (H := Reference.reference) empty pathname
    (Ok Example.test_constants) (user_request "/api/user/1" bob_token) 5000 []
  = UserByIdRoute.getUserById empty pathname (user_request "/api/user/1" bob_token) [].
Proof.
  apply (X15_login_opens_user_route (H := Reference.reference) Example.test_constants
           one_user bcrypt_compare pathname
           (credentials "bob@example.com" "hunter22") 1000 [] bob_token
           (user_request "/api/user/1" bob_token) 5000 []).
  - vm_compute. reflexivity.
  - vm_compute. reflexivity.
  - reflexivity.
  - lia.
Defined.

Lemma X17_witness :
  (UserByIdRoute.getUserById empty pathname (user_request "/api/user/12abc" "") []).1
  = ([] ++ [(UserByIdRoute.query, [Some (JStr "12abc")])])%list
  ∧ next_status
      (UserByIdRoute.getUserById empty pathname (user_request "/api/user/12abc" "") []).2
    ≠ 400%Z.
Proof.
  apply (X17_leading_digit_suffices empty pathname
           (user_request "/api/user/12abc" "") "/api/user/12abc" "1" "2abc" []);
    [reflexivity|reflexivity|reflexivity|discriminate].
Defined.

Lemma X20_witness :
  ∃ n, UsersRoute.pagination_totalPages (UsersRoute.pagination_of second_page (total_of "25"))
       = Fin n
    ∧ ((n - 1) * 10 < 25 ≤ n * 10)%Z
    ∧ (UsersRoute.hasNextPage (UsersRoute.pagination_of second_page (total_of "25")) = true
       ↔ (2 * 10 < 25)%Z)
    ∧ (UsersRoute.hasPrevPage (UsersRoute.pagination_of second_page (total_of "25")) = true
       ↔ (1 < 2)%Z).
Proof.
  apply (X20_next_page second_page (total_of "25") 2 10 25);
    [reflexivity|reflexivity|reflexivity|lia].
Defined.

Lemma X22_witness :
  ∃ token (claims : jsobj),
    generateRefreshToken (H := Reference.reference) Example.test_constants "7" 1000
    = Ok token
    ∧ claims !! "type" = Some (JStr "refresh")
    ∧ claims !! "userId" = Some (JStr "7")
    ∧ (∀ now', (now' < 1000 + 604800)%Z →
         verifyToken (H := Reference.reference) Example.test_constants token now'
         = Ok (PObject claims)
         ∧ ∀ pool_query pathname request log,
             headers request !! "authorization" = Some ("Bearer " ++ token) →
             UserByIdRoute.GET (H := Reference.reference) pool_query pathname
               (Ok Example.test_constants) request now' log
             = UserByIdRoute.getUserById pool_query pathname request log)
    ∧ (∀ now', ∃ e,
         verifyTokenSecure (H := Reference.reference) Example.test_constants token now'
         = Err e).
Proof.
  apply (X22_refresh_token_on_legacy_path (H := Reference.reference) Example.test_env
           Example.test_constants "7" 1000); [reflexivity|discriminate].
Defined.

End scenario_witnesses.
